(** * The reconnecting clients of baetyl-go

    A shallow embedding of [mqtt/client.go] and [link/client.go]: the
    public operations of a [Client] ([NewClient], [Send], [SendContext],
    [Publish], [Subscribe], [Close]), its observer helpers, and the
    supervisor goroutine [connecting].

    The two goroutine kinds of a client (producers calling the public
    operations, and the one supervisor) are interleaved by a list of
    actions; every blocking point of the Go code is a place where an
    action is either enabled or not.  A [select] statement takes the
    scheduler's draw as an argument. *)

From Stdlib Require Import String Bool Arith ZArith NArith QArith Qminmax Qround Lia List.
Import ListNotations.
Close Scope Q_scope.

(** ** Go values shared by both packages *)

(** A Go [error]: [None] is [nil], [Some text] an error with that message. *)
Definition error := option string.

Definition errors_New (text : string) : error := Some text.

(** Go's [select] over cases written [(can it proceed now, what it is)].
    With no case able to proceed the goroutine blocks ([None]); with
    several, the runtime picks one of them pseudo-randomly, and [rnd] is
    its draw. *)
Definition ready {A : Type} (cases : list (bool * A)) : list A :=
  map snd (filter fst cases).

Definition select {A : Type} (rnd : nat) (cases : list (bool * A)) : option A :=
  let r := ready cases in nth_error r (rnd mod length r).

(** A Go channel [make(chan A, cap)] with one receiving goroutine.
    [buf] is the buffer, oldest first.  [recvq] says that the receiver is
    blocked on the channel; a send then bypasses the buffer and puts its
    value in the receiver's hands ([handed]), which is how a channel of
    capacity zero passes values at all. *)
Module Chan.

Record t (A : Type) : Type := mk {
  buf : list A;
  cap : nat;
  recvq : bool;
  handed : option A
}.
Arguments mk {A} _ _ _ _.
Arguments buf {A} _.
Arguments cap {A} _.
Arguments recvq {A} _.
Arguments handed {A} _.

Definition make {A : Type} (n : nat) : t A := mk [] n false None.

(** [ch <- v] can proceed. *)
Definition can_send {A : Type} (c : t A) : bool :=
  recvq c || (length (buf c) <? cap c).

(** The queue is full: a send on it has to wait. *)
Definition full {A : Type} (c : t A) : Prop := can_send c = false.

(** [ch <- v], when it can proceed. *)
Definition send {A : Type} (v : A) (c : t A) : t A :=
  if recvq c then mk (buf c) (cap c) false (Some v)
  else mk (buf c ++ [v]) (cap c) false (handed c).

(** What a sender handed to the blocked receiver, if anything. *)
Definition take {A : Type} (c : t A) : option A * t A :=
  (handed c, mk (buf c) (cap c) (recvq c) None).

(** [<-ch] from the buffer, when it holds a value. *)
Definition recv {A : Type} (c : t A) : option (A * t A) :=
  match buf c with
  | [] => None
  | v :: rest => Some (v, mk rest (cap c) (recvq c) (handed c))
  end.

(** The receiver starts, and stops, waiting on the channel. *)
Definition park {A : Type} (c : t A) : t A := mk (buf c) (cap c) true (handed c).

Definition unpark {A : Type} (c : t A) : t A := mk (buf c) (cap c) false (handed c).

End Chan.

(** Package [time]: instants and durations count nanoseconds.  They are
    kept as rationals, so that the product of the backoff policy is exact. *)
Module time.

Definition Duration := Q.

Definition Time := Q.

Definition Second : Duration := 1000000000%Q.

Definition Add (t : Time) (d : Duration) : Time := (t + d)%Q.

Definition Sub (t u : Time) : Duration := (t - u)%Q.

(** A [*time.Timer]: its tick is waiting in [C] ([Fired]), will be sent at
    an instant ([At]), or was received already ([Drained]). *)
Inductive Timer := Fired | At (t : Time) | Drained.

(** [time.NewTimer(0)]: the tick is there at once. *)
Definition NewTimer0 : Timer := Fired.

(** [timer.Reset(d)] called at [now]. *)
Definition Reset (d : Duration) (now : Time) (_ : Timer) : Timer := At (Add now d).

(** [<-timer.C] can proceed at [now]. *)
Definition ticked (now : Time) (tm : Timer) : bool :=
  match tm with
  | Fired => true
  | At t => Qle_bool t now
  | Drained => false
  end.

End time.

(** Modelled from the spec: the backoff policy (package
    github.com/jpillora/backoff is not among the sources).  "Backoff
    State: minimum duration, maximum duration, growth factor, attempt
    count.  The next delay is min(maximum, minimum x factor^attempt)";
    [Duration] returns the delay of the current attempt and counts the
    attempt, [Reset] sets the count back to zero. *)
Module backoff.

(** Modelled from the spec: the backoff state, "minimum duration, maximum
    duration, growth factor, attempt count". *)
Record Backoff := mk {
  Min : time.Duration;
  Max : time.Duration;
  Factor : Q;
  attempt : nat
}.

(** Modelled from the spec: "the next delay is min(maximum, minimum x
    factor^attempt)". *)
Definition ForAttempt (b : Backoff) (n : nat) : time.Duration :=
  Qmin (Max b) (Min b * Factor b ^ Z.of_nat n)%Q.

(** Modelled from the spec: "compute next delay from Backoff State,
    increment attempt count". *)
Definition Duration (b : Backoff) : time.Duration * Backoff :=
  (ForAttempt b (attempt b), mk (Min b) (Max b) (Factor b) (S (attempt b))).

(** Modelled from the spec: "reset Backoff State to attempt 0". *)
Definition Reset (b : Backoff) : Backoff := mk (Min b) (Max b) (Factor b) 0.

Definition Attempt (b : Backoff) : nat := attempt b.

End backoff.

(** Modelled from the spec: the lifecycle controller [utils.Tomb] (its file
    is not among the sources).  "Close() signals the Supervisor to stop,
    then blocks until the worker has fully exited, returning the first
    fatal error the worker encountered (or none)"; shutdown "is one-shot
    and irreversible". *)
Module tomb.

(** Modelled from the spec: the state of the lifecycle controller: the
    stop signal was given ([dying]), the worker has exited ([dead]), and
    the first fatal error. *)
Record Tomb := mk {
  dying : bool;
  dead : bool;
  reason : error
}.

Definition zero : Tomb := mk false false None.

Definition first_error (old new : error) : error :=
  match old with
  | Some e => Some e
  | None => new
  end.

(** Modelled from the spec: [t.Kill(reason)] "signals the Supervisor to
    stop"; the first error is the one kept. *)
Definition Kill (r : error) (t : Tomb) : Tomb :=
  mk true (dead t) (first_error (reason t) r).

(** [<-t.Dying()] can proceed. *)
Definition Dying (t : Tomb) : bool := dying t.

(** The function started by [t.Go] returned [r]. *)
Definition exited (r : error) (t : Tomb) : Tomb :=
  mk true true (first_error (reason t) r).

(** Modelled from the spec: [t.Wait()] "blocks until the worker has
    fully exited, returning the first fatal error the worker encountered
    (or none)"; [None] is blocking. *)
Definition Wait (t : Tomb) : option error :=
  if dead t then Some (reason t) else None.

End tomb.

(** Package [crypto/tls] and [utils.Certificate], as far as the clients
    read them. *)
Module tls.

Record Config := mk { ServerName : string }.

End tls.

Module utils.

Record Certificate := mk {
  Key : string;
  Cert : string;
  Name : string;
  InsecureSkipVerify : bool
}.

End utils.

(** Modelled from the spec: one session ([stream.go] of either package is
    not among the sources).  "Send loop: pulls the next message -- first
    the carried-over in-flight message if one exists, otherwise the queue
    head -- writes it to the transport, and records it as current until
    the write completes, at which point current is cleared.  A write
    failure surfaces the error and terminates both loops without clearing
    current"; the session also ends when its receive loop fails or the
    stop signal arrives. *)
Module session.

(** The handle of an established connection. *)
Record stream := mk { sid : nat }.

(** What [connect()] returns: a stream, or an error. *)
Inductive ConnectResult := Connected (s : stream) | Refused (e : string).

(** What can happen next inside [stream.sending]. *)
Inductive Event :=
| Pull        (* the send loop turns to the queue for its next message *)
| WriteOk     (* the write of the current message completes *)
| WriteFail   (* the write of the current message fails *)
| Stop.       (* the receive loop failed, or the stop signal arrived *)

(** Where [stream.sending] stands after an event: still running, with
    what it wrote, or returned with the message to carry over. *)
Inductive Progress (M : Type) : Type :=
| Running (curr : option M) (q : Chan.t M) (wrote : list M)
| Returned (curr : option M) (q : Chan.t M).
Arguments Running {M} _ _ _.
Arguments Returned {M} _ _.

(** A value handed over by a sender while the loop waited is the loop's
    current message from then on. *)
Definition current {M : Type} (curr : option M) (q : Chan.t M) : option M * Chan.t M :=
  match Chan.take q with
  | (Some m, q') => (Some m, q')
  | (None, _) => (curr, q)
  end.

(** Modelled from the spec: one move of the send loop of
    [stream.sending], as the text before this module quotes it. *)
Definition sending_step {M : Type} (ev : Event) (curr : option M) (q : Chan.t M)
  : option (Progress M) :=
  let (cur, q) := current curr q in
  match ev, cur with
  | Pull, None =>
      match Chan.recv q with
      | Some (m, q') => Some (Running (Some m) q' [])
      | None => if Chan.recvq q then None else Some (Running None (Chan.park q) [])
      end
  | Pull, Some _ => None
  | WriteOk, Some m => Some (Running None q [m])
  | WriteOk, None => None
  | WriteFail, Some m => Some (Returned (Some m) q)
  | WriteFail, None => None
  | Stop, _ => Some (Returned cur (Chan.unpark q))
  end.

End session.

(** Where the supervisor goroutine stands: blocked in the [select] at the
    head of its loop, inside [connect()], inside [stream.sending], or
    returned. *)
Inductive PC := Waiting | Connecting | Sending | Stopped.

(** What lets the supervisor goroutine go on: its [select] is looked at,
    [connect()] returns, or something happens in the session. *)
Inductive SupInput :=
| Fire (now : time.Time) (rnd : nat)
| Connect (now : time.Time) (r : session.ConnectResult)
| Session (now : time.Time) (ev : session.Event).

(** The cases of the supervisor's [select]. *)
Inductive LoopCase := LoopDying | LoopTimer.

(** A value logged with [log.Any]. *)
Inductive LogValue :=
| VTime (t : time.Time)
| VNat (n : nat).

(** What a constructor comes to: a value, an error, or a run-time panic. *)
Inductive Created (A : Type) : Type :=
| Ok (a : A)
| Err (e : string)
| Panic.
Arguments Ok {A} _.
Arguments Err {A} _.
Arguments Panic {A}.

(** ** Package mqtt: [mqtt/client.go] *)
Module mqtt.

(** The packet structs [Publish], [Puback] and [Subscribe] are named
    [PublishPacket], [PubackPacket] and [SubscribePacket] here: [Publish]
    and [Subscribe] are the client's methods below. *)

(** Packet identifiers (16 bits) and quality-of-service levels (a byte);
    the client only compares them with zero. *)
Definition ID := N.

Definition QOS := N.

Record Message := mkMessage {
  Message_QOS : QOS;
  Message_Topic : string;
  Message_Payload : list Byte.byte;
  Message_Retain : bool
}.

Record PublishPacket := mkPublish {
  Publish_ID : ID;
  Publish_Dup : bool;
  Publish_Message : Message
}.

Record PubackPacket := mkPuback { Puback_ID : ID }.

Record Subscription := mkSubscription {
  Subscription_Topic : string;
  Subscription_QOS : QOS
}.

Record SubscribePacket := mkSubscribe {
  Subscribe_ID : ID;
  Subscriptions : list Subscription
}.

(** The [Packet] interface; [PktOther] stands for the control packets whose
    fields the client never reads. *)
Inductive Packet :=
| PktPublish (p : PublishPacket)
| PktPuback (p : PubackPacket)
| PktSubscribe (s : SubscribePacket)
| PktOther (kind : N).

(** [NewPublish()]: a publish packet with every field zero. *)
Definition NewPublish : PublishPacket :=
  mkPublish 0%N false (mkMessage 0%N EmptyString [] false).

(** Modelled from the spec: the identifier counter ([Counter] is declared
    outside the sources), "typically a monotonic counter". *)
Record Counter := mkCounter { Counter_next : ID }.

Definition NewCounter : Counter := mkCounter 1%N.

Definition NextID (c : Counter) : ID * Counter :=
  (Counter_next c, mkCounter (Counter_next c + 1)%N).

(** The fields of [ClientConfig] that [client.go] reads. *)
Record ClientConfig := mkClientConfig {
  ClientID : string;
  BufferSize : Z;
  Interval : time.Duration;
  Certificate : utils.Certificate
}.

(** The [Observer] interface: what its callbacks return.  A call is also
    recorded as an [Event]. *)
Record Observer := mkObserver {
  OnPublish : PublishPacket -> error;
  OnPuback : PubackPacket -> error
}.

(** What the client does to the world outside: log lines, calls of the
    observer, closing a stream. *)
Inductive Event :=
| LogInfo (msg : string) (fields : list (string * LogValue))
| LogError (msg : string) (err : error)
| CallOnPublish (p : PublishPacket)
| CallOnPuback (p : PubackPacket)
| CallOnError (err : error)
| StreamClose (s : session.stream).

Record Client := mkClient {
  cfg : ClientConfig;
  obs : option Observer;
  tls : option tls.Config;
  ids : Counter;
  cache : Chan.t Packet;
  log : list (string * string);
  tomb : tomb.Tomb
}.

Definition set_cache (q : Chan.t Packet) (c : Client) : Client :=
  mkClient (cfg c) (obs c) (tls c) (ids c) q (log c) (tomb c).

Definition set_tomb (t : tomb.Tomb) (c : Client) : Client :=
  mkClient (cfg c) (obs c) (tls c) (ids c) (cache c) (log c) t.

Definition set_ids (i : Counter) (c : Client) : Client :=
  mkClient (cfg c) (obs c) (tls c) i (cache c) (log c) (tomb c).

(** Modelled from the spec: the "client closed" failure
    ([ErrClientAlreadyClosed] of package mqtt is declared outside the
    sources; package link declares it with this text). *)
Definition ErrClientAlreadyClosed : error := errors_New "client is closed".

(** The cases of the [select] in [Send]. *)
Inductive SendCase := SendCache | SendDying.

(** [func (c *Client) Send(pkt Packet) error]; [None]: the call blocks. *)
Definition Send (rnd : nat) (c : Client) (pkt : Packet) : option (Client * error) :=
  match select rnd [ (Chan.can_send (cache c), SendCache);
                     (tomb.Dying (tomb c), SendDying) ] with
  | Some SendCache => Some (set_cache (Chan.send pkt (cache c)) c, None)
  | Some SendDying => Some (c, ErrClientAlreadyClosed)
  | None => None
  end.

(** [Subscribe]: the packet it builds, then [Send]. *)
Definition Subscribe_packet (c : Client) (s : list Subscription) : SubscribePacket * Counter :=
  let (id, ids') := NextID (ids c) in (mkSubscribe id s, ids').

Definition Subscribe (rnd : nat) (c : Client) (s : list Subscription)
  : option (Client * error) :=
  let (subscribe, ids') := Subscribe_packet c s in
  Send rnd (set_ids ids' c) (PktSubscribe subscribe).

(** [Publish]: the packet it builds (lines 57-66), then [Send]. *)
Definition Publish_packet (c : Client) (qos : QOS) (topic : string)
    (payload : list Byte.byte) (pid : ID) (retain dup : bool) : PublishPacket * Counter :=
  let publish := NewPublish in
  let publish := mkPublish pid (Publish_Dup publish) (Publish_Message publish) in
  let publish := mkPublish (Publish_ID publish) dup (Publish_Message publish) in
  let publish := mkPublish (Publish_ID publish) (Publish_Dup publish)
                   (mkMessage qos topic payload retain) in
  if negb (qos =? 0)%N && (pid =? 0)%N then
    let (id, ids') := NextID (ids c) in
    (mkPublish id (Publish_Dup publish) (Publish_Message publish), ids')
  else (publish, ids c).

Definition Publish (rnd : nat) (c : Client) (qos : QOS) (topic : string)
    (payload : list Byte.byte) (pid : ID) (retain dup : bool)
  : option (Client * error) :=
  let (publish, ids') := Publish_packet c qos topic payload pid retain dup in
  Send rnd (set_ids ids' c) (PktPublish publish).

(** [Close], in its two halves: [c.tomb.Kill(nil)], and the return of
    [c.tomb.Wait()] (which blocks until the supervisor has returned). *)
Definition Close_Kill (c : Client) : Client * list Event :=
  (set_tomb (tomb.Kill None (tomb c)) c, [LogInfo "client is closing" []]).

Definition Close_Wait (c : Client) : option (error * list Event) :=
  match tomb.Wait (tomb c) with
  | Some err => Some (err, [LogInfo "client has closed" []])
  | None => None
  end.

(** The observer helpers: what they return and what they do. *)
Definition onPublish (c : Client) (pkt : PublishPacket) : error * list Event :=
  match obs c with
  | None => (None, [])
  | Some o => (OnPublish o pkt, [CallOnPublish pkt])
  end.

Definition onPuback (c : Client) (pkt : PubackPacket) : error * list Event :=
  match obs c with
  | None => (None, [])
  | Some o => (OnPuback o pkt, [CallOnPuback pkt])
  end.

Definition onError (c : Client) (msg : string) (err : error) : list Event :=
  match obs c, err with
  | None, _ => []
  | _, None => []
  | Some _, Some _ => [LogError msg err; CallOnError err]
  end.

(** The local variables of [connecting], and where it stands. *)
Record Sup := mkSup {
  curr : option Packet;
  strm : option session.stream;
  next : option time.Time;
  timer : time.Timer;
  bf : backoff.Backoff;
  pc : PC
}.

(** [connecting] up to its loop (lines 90-103). *)
Definition connecting_start (c : Client) : Sup * list Event :=
  (mkSup None None None time.NewTimer0
         (backoff.mk time.Second (Interval (cfg c)) 1.6%Q 0) Waiting,
   [LogInfo "client starts to keep connecting" []]).

(** The head of the loop (lines 106-114), reached at [now]; it ends in
    the [select]. *)
Definition loop_head (now : time.Time) (s : Sup) : Sup * list Event :=
  let (tm, ev1) :=
    match next s with
    | Some t =>
        (time.Reset (time.Sub t now) now (timer s),
         [LogInfo "next reconnect"
                  [("at"%string, VTime t);
                   ("attempt"%string, VNat (backoff.Attempt (bf s)))]])
    | None => (timer s, [])
    end in
  let ev2 :=
    match strm s with
    | Some x => [StreamClose x; LogInfo "client has disconnected" []]
    | None => []
    end in
  (mkSup (curr s) None (next s) tm (bf s) Waiting, ev1 ++ ev2).

(** One move of the supervisor goroutine: from a blocking point of
    [connecting] to the next one.  It gives the client, the supervisor,
    what was done outside, and the packets written to the stream. *)
Definition connecting_step (i : SupInput) (c : Client) (s : Sup)
  : option (Client * Sup * list Event * list Packet) :=
  match pc s, i with
  | Waiting, Fire now rnd =>
      match select rnd [ (tomb.Dying (tomb c), LoopDying);
                         (time.ticked now (timer s), LoopTimer) ] with
      | Some LoopDying =>
          Some (set_tomb (tomb.exited None (tomb c)) c,
                mkSup (curr s) (strm s) (next s) (timer s) (bf s) Stopped,
                [LogInfo "client has stopped connecting" []], [])
      | Some LoopTimer =>
          let (d, bf') := backoff.Duration (bf s) in
          Some (c,
                mkSup (curr s) (strm s) (Some (time.Add now d)) time.Drained bf'
                      Connecting,
                [LogInfo "client starts to connect" []], [])
      | None => None
      end
  | Connecting, Connect now r =>
      match r with
      | session.Refused e =>
          let (s', evs) :=
            loop_head now (mkSup (curr s) None (next s) (timer s) (bf s) (pc s)) in
          Some (c, s', onError c "failed to connect" (Some e) ++ evs, [])
      | session.Connected x =>
          Some (c,
                mkSup (curr s) (Some x) (next s) (timer s) (backoff.Reset (bf s))
                      Sending,
                [LogInfo "client has connected" []], [])
      end
  | Sending, Session now ev =>
      match session.sending_step ev (curr s) (cache c) with
      | Some (session.Running curr' q' wrote) =>
          Some (set_cache q' c,
                mkSup curr' (strm s) (next s) (timer s) (bf s) Sending, [], wrote)
      | Some (session.Returned curr' q') =>
          let (s', evs) :=
            loop_head now (mkSup curr' (strm s) (next s) (timer s) (bf s) (pc s)) in
          Some (set_cache q' c, s', evs, [])
      | None => None
      end
  | _, _ => None
  end.

(** A client together with its supervisor goroutine, everything done
    outside so far, and the packets written to streams so far. *)
Record World := mkWorld {
  cli : Client;
  sup : Sup;
  trace : list Event;
  wire : list Packet
}.

(** [NewClient].  [newTLS] is what [utils.NewTLSConfigClient] returns for
    a certificate; [make] panics on a negative size. *)
Definition NewClient (newTLS : utils.Certificate -> option tls.Config * error)
    (cc : ClientConfig) (obs : option Observer) : Created World :=
  let (tc, err) :=
    if negb (utils.Key (Certificate cc) =? "")%string
       || negb (utils.Cert (Certificate cc) =? "")%string
    then newTLS (Certificate cc)
    else (None, None) in
  match err with
  | Some e => Err e
  | None =>
      if (BufferSize cc <? 0)%Z then Panic
      else
        let c := mkClient cc obs tc NewCounter
                   (Chan.make (Z.to_nat (BufferSize cc)))
                   [("mqtt", "client"); ("cid", ClientID cc)]%string
                   tomb.zero in
        let (s, evs) := connecting_start c in
        Ok (mkWorld c s evs [])
  end.

(** What the goroutines of a program can do to a client. *)
Inductive Action :=
| ASend (rnd : nat) (pkt : Packet)
| APublish (rnd : nat) (qos : QOS) (topic : string) (payload : list Byte.byte)
           (pid : ID) (retain dup : bool)
| ASubscribe (rnd : nat) (s : list Subscription)
| AKill
| AWait
| ASup (i : SupInput).

Definition with_cli (w : World) (r : option (Client * error)) : option World :=
  match r with
  | Some (c, _) => Some (mkWorld c (sup w) (trace w) (wire w))
  | None => None
  end.

(** One action; [None] when the action cannot happen now (its goroutine
    is blocked). *)
Definition step (a : Action) (w : World) : option World :=
  match a with
  | ASend rnd pkt => with_cli w (Send rnd (cli w) pkt)
  | APublish rnd qos topic payload pid retain dup =>
      with_cli w (Publish rnd (cli w) qos topic payload pid retain dup)
  | ASubscribe rnd s => with_cli w (Subscribe rnd (cli w) s)
  | AKill =>
      let (c, evs) := Close_Kill (cli w) in
      Some (mkWorld c (sup w) (trace w ++ evs) (wire w))
  | AWait =>
      match Close_Wait (cli w) with
      | Some (_, evs) => Some (mkWorld (cli w) (sup w) (trace w ++ evs) (wire w))
      | None => None
      end
  | ASup i =>
      match connecting_step i (cli w) (sup w) with
      | Some (c, s, evs, wrote) =>
          Some (mkWorld c s (trace w ++ evs) (wire w ++ wrote))
      | None => None
      end
  end.

Fixpoint run (acts : list Action) (w : World) : option World :=
  match acts with
  | [] => Some w
  | a :: rest =>
      match step a w with
      | Some w' => run rest w'
      | None => None
      end
  end.

(** The handlers of a connack and of a suback.  The packet structs, the
    constants [ConnectionAccepted] and [QOSFailure], the texts of the two
    errors, [ConnackCode.String] and the formatting done by [fmt.Errorf]
    are declared outside the sources and are parameters here; [asConnack]
    is the type assertion of the packet to a connack. *)
Definition ConnackCode := N.

Record ConnackPacket := mkConnack { Connack_ReturnCode : ConnackCode }.

Record SubackPacket := mkSuback {
  Suback_ID : ID;
  Suback_ReturnCodes : list QOS
}.

Section Receive.

Variable asConnack : Packet -> option ConnackPacket.
Variable ConnectionAccepted : ConnackCode.
Variable ConnackCode_String : ConnackCode -> string.
Variable Sprintf : string -> string.
Variable ExpectedConnack_text : string.
Variable QOSFailure : QOS.
Variable SubscriptionFailed_text : string.

Definition ErrClientExpectedConnack : error := errors_New ExpectedConnack_text.

Definition ErrClientSubscriptionFailed : error := errors_New SubscriptionFailed_text.

(** [fmt.Errorf(format)]: an error whose text is the formatted string. *)
Definition fmt_Errorf (format : string) : error := Some (Sprintf format).

Definition onConnack (c : Client) (pkt : Packet) : error :=
  match asConnack pkt with
  | None => ErrClientExpectedConnack
  | Some p =>
      if negb (Connack_ReturnCode p =? ConnectionAccepted)%N
      then fmt_Errorf (ConnackCode_String (Connack_ReturnCode p))
      else None
  end.

(** The loop of [onSuback] over the return codes. *)
Fixpoint onSuback_codes (codes : list QOS) : error :=
  match codes with
  | [] => None
  | code :: rest =>
      if (code =? QOSFailure)%N then ErrClientSubscriptionFailed
      else onSuback_codes rest
  end.

Definition onSuback (c : Client) (pkt : SubackPacket) : error :=
  onSuback_codes (Suback_ReturnCodes pkt).

End Receive.

End mqtt.

(** Package [context]: a context is done exactly when its [Err] is not
    [nil] (cancelled, or past its deadline). *)
Module context.

Record Context := mk { Err : error }.

(** [<-ctx.Done()] can proceed. *)
Definition Done (ctx : Context) : bool :=
  match Err ctx with
  | Some _ => true
  | None => false
  end.

Definition Canceled : error := errors_New "context canceled".

Definition DeadlineExceeded : error := errors_New "context deadline exceeded".

End context.

(** Package [grpc], as far as [NewClientConn] uses it. *)
Module grpc.

Inductive DialOption :=
| WithDefaultCallOptions_MaxCallRecvMsgSize (n : Z)
| WithTransportCredentials (creds : tls.Config)
| WithInsecure
| WithPerRPCCredentials (username password : string).

Record ClientConn := mk {
  target : string;
  options : list DialOption;
  closed : bool
}.

Definition Close (conn : ClientConn) : ClientConn :=
  mk (target conn) (options conn) true.

End grpc.

(** ** Package link: [link/client.go] *)
Module link.

(** [link.proto]: the message and its context. *)
Inductive Type_ := Msg | MsgRtn | Ack.

Record MessageContext := mkContext {
  Context_ID : N;
  Context_TS : N;
  Context_QOS : N;
  Context_Type : Type_;
  Context_Topic : string
}.

Record Message := mkMessage {
  Message_Context : MessageContext;
  Message_Content : list Byte.byte
}.

(** The fields of [ClientConfig] that [client.go] reads. *)
Record ClientConfig := mkClientConfig {
  Address : string;
  Username : string;
  Password : string;
  MaxMessageSize : Z;
  MaxCacheMessages : Z;
  Interval : time.Duration;
  Certificate : utils.Certificate
}.

(** The [Observer] interface: what its callbacks return. *)
Record Observer := mkObserver {
  OnMsg : Message -> error;
  OnAck : Message -> error
}.

Inductive Event :=
| LogInfo (msg : string) (fields : list (string * LogValue))
| LogError (msg : string) (err : error)
| CallOnMsg (m : Message)
| CallOnAck (m : Message)
| CallOnErr (err : error)
| StreamClose (s : session.stream).

(** [cli], the generated stub [NewLinkClient(conn)], is the connection it
    wraps. *)
Record Client := mkClient {
  cfg : ClientConfig;
  cli_ : grpc.ClientConn;
  obs : option Observer;
  conn : grpc.ClientConn;
  cache : Chan.t Message;
  log : list (string * string);
  tomb : tomb.Tomb
}.

Definition set_cache (q : Chan.t Message) (c : Client) : Client :=
  mkClient (cfg c) (cli_ c) (obs c) (conn c) q (log c) (tomb c).

Definition set_tomb (t : tomb.Tomb) (c : Client) : Client :=
  mkClient (cfg c) (cli_ c) (obs c) (conn c) (cache c) (log c) t.

Definition set_conn (k : grpc.ClientConn) (c : Client) : Client :=
  mkClient (cfg c) (cli_ c) (obs c) k (cache c) (log c) (tomb c).

Definition ErrClientAlreadyClosed : error := errors_New "client is closed".

Definition ErrClientMessageTypeInvalid : error := errors_New "message type is invalid".

(** The cases of the [select] in [Send] and [SendContext]. *)
Inductive SendCase := SendCache | SendDone | SendDying.

(** [func (c *Client) Send(msg *Message) error]; [None]: the call blocks. *)
Definition Send (rnd : nat) (c : Client) (msg : Message) : option (Client * error) :=
  match select rnd [ (Chan.can_send (cache c), SendCache);
                     (tomb.Dying (tomb c), SendDying) ] with
  | Some SendCache => Some (set_cache (Chan.send msg (cache c)) c, None)
  | Some SendDying => Some (c, ErrClientAlreadyClosed)
  | Some SendDone => None
  | None => None
  end.

(** [func (c *Client) SendContext(ctx context.Context, msg *Message) error] *)
Definition SendContext (rnd : nat) (c : Client) (ctx : context.Context) (msg : Message)
  : option (Client * error) :=
  match select rnd [ (Chan.can_send (cache c), SendCache);
                     (context.Done ctx, SendDone);
                     (tomb.Dying (tomb c), SendDying) ] with
  | Some SendCache => Some (set_cache (Chan.send msg (cache c)) c, None)
  | Some SendDone => Some (c, context.Err ctx)
  | Some SendDying => Some (c, ErrClientAlreadyClosed)
  | None => None
  end.

(** [Close], in its two halves: [c.tomb.Kill(nil)], and what follows the
    return of [c.tomb.Wait()]. *)
Definition Close_Kill (c : Client) : Client * list Event :=
  (set_tomb (tomb.Kill None (tomb c)) c, [LogInfo "client is closing" []]).

Definition Close_Wait (c : Client) : option (Client * error * list Event) :=
  match tomb.Wait (tomb c) with
  | Some err =>
      Some (set_conn (grpc.Close (conn c)) c, err, [LogInfo "client has closed" []])
  | None => None
  end.

(** The observer helpers: what they return and what they do. *)
Definition onMsg (c : Client) (msg : Message) : error * list Event :=
  match obs c with
  | None => (None, [])
  | Some o => (OnMsg o msg, [CallOnMsg msg])
  end.

Definition onAck (c : Client) (msg : Message) : error * list Event :=
  match obs c with
  | None => (None, [])
  | Some o => (OnAck o msg, [CallOnAck msg])
  end.

Definition onErr (c : Client) (msg : string) (err : error) : list Event :=
  match obs c, err with
  | None, _ => []
  | _, None => []
  | Some _, Some _ => [LogError msg err; CallOnErr err]
  end.

(** The local variables of [connecting], and where it stands. *)
Record Sup := mkSup {
  curr : option Message;
  strm : option session.stream;
  next : option time.Time;
  timer : time.Timer;
  bf : backoff.Backoff;
  pc : PC
}.

(** [connecting] up to its loop (lines 94-107). *)
Definition connecting_start (c : Client) : Sup * list Event :=
  (mkSup None None None time.NewTimer0
         (backoff.mk time.Second (Interval (cfg c)) 1.6%Q 0) Waiting,
   [LogInfo "client starts to keep connect" []]).

(** The head of the loop (lines 110-118), reached at [now]. *)
Definition loop_head (now : time.Time) (s : Sup) : Sup * list Event :=
  let (tm, ev1) :=
    match next s with
    | Some t =>
        (time.Reset (time.Sub t now) now (timer s),
         [LogInfo "next reconnect"
                  [("at"%string, VTime t);
                   ("attempt"%string, VNat (backoff.Attempt (bf s)))]])
    | None => (timer s, [])
    end in
  let ev2 :=
    match strm s with
    | Some x => [StreamClose x; LogInfo "client has disconnected" []]
    | None => []
    end in
  (mkSup (curr s) None (next s) tm (bf s) Waiting, ev1 ++ ev2).

(** One move of the supervisor goroutine, as in package mqtt. *)
Definition connecting_step (i : SupInput) (c : Client) (s : Sup)
  : option (Client * Sup * list Event * list Message) :=
  match pc s, i with
  | Waiting, Fire now rnd =>
      match select rnd [ (tomb.Dying (tomb c), LoopDying);
                         (time.ticked now (timer s), LoopTimer) ] with
      | Some LoopDying =>
          Some (set_tomb (tomb.exited None (tomb c)) c,
                mkSup (curr s) (strm s) (next s) (timer s) (bf s) Stopped,
                [LogInfo "client has stopped connecting" []], [])
      | Some LoopTimer =>
          let (d, bf') := backoff.Duration (bf s) in
          Some (c,
                mkSup (curr s) (strm s) (Some (time.Add now d)) time.Drained bf'
                      Connecting,
                [LogInfo "client starts to connect" []], [])
      | None => None
      end
  | Connecting, Connect now r =>
      match r with
      | session.Refused e =>
          let (s', evs) :=
            loop_head now (mkSup (curr s) None (next s) (timer s) (bf s) (pc s)) in
          Some (c, s', onErr c "failed to connect" (Some e) ++ evs, [])
      | session.Connected x =>
          Some (c,
                mkSup (curr s) (Some x) (next s) (timer s) (backoff.Reset (bf s))
                      Sending,
                [LogInfo "client has connected" []], [])
      end
  | Sending, Session now ev =>
      match session.sending_step ev (curr s) (cache c) with
      | Some (session.Running curr' q' wrote) =>
          Some (set_cache q' c,
                mkSup curr' (strm s) (next s) (timer s) (bf s) Sending, [], wrote)
      | Some (session.Returned curr' q') =>
          let (s', evs) :=
            loop_head now (mkSup curr' (strm s) (next s) (timer s) (bf s) (pc s)) in
          Some (set_cache q' c, s', evs, [])
      | None => None
      end
  | _, _ => None
  end.

Record World := mkWorld {
  cli : Client;
  sup : Sup;
  trace : list Event;
  wire : list Message
}.

(** [NewClientConn].  [newTLS] is what [utils.NewTLSConfigClient] returns,
    [dial] what [grpc.Dial] returns. *)
Definition NewClientConn
    (newTLS : utils.Certificate -> option tls.Config * error)
    (dial : string -> list grpc.DialOption -> Created grpc.ClientConn)
    (cc : ClientConfig) : Created grpc.ClientConn :=
  let opts :=
    [grpc.WithDefaultCallOptions_MaxCallRecvMsgSize (MaxMessageSize cc)] in
  let tlsPart : option (list grpc.DialOption) * error :=
    if negb (utils.Key (Certificate cc) =? "")%string
       || negb (utils.Cert (Certificate cc) =? "")%string
    then
      match newTLS (Certificate cc) with
      | (_, Some e) => (None, Some e)
      | (Some tlsCfg, None) =>
          let tlsCfg :=
            if negb (utils.InsecureSkipVerify (Certificate cc))
            then tls.mk (utils.Name (Certificate cc))
            else tlsCfg in
          (Some (opts ++ [grpc.WithTransportCredentials tlsCfg]), None)
      | (None, None) => (Some opts, None)
      end
    else (Some (opts ++ [grpc.WithInsecure]), None) in
  match tlsPart with
  | (Some opts, _) =>
      let opts :=
        if negb (Username cc =? "")%string || negb (Password cc =? "")%string
        then opts ++ [grpc.WithPerRPCCredentials (Username cc) (Password cc)]
        else opts in
      dial (Address cc) opts
  | (None, Some e) => Err e
  | (None, None) => Panic
  end.

(** [NewClient]; [make] panics on a negative size. *)
Definition NewClient
    (newTLS : utils.Certificate -> option tls.Config * error)
    (dial : string -> list grpc.DialOption -> Created grpc.ClientConn)
    (cc : ClientConfig) (obs : option Observer) : Created World :=
  match NewClientConn newTLS dial cc with
  | Err e => Err e
  | Panic => Panic
  | Ok conn =>
      if (MaxCacheMessages cc <? 0)%Z then Panic
      else
        let c := mkClient cc conn obs conn
                   (Chan.make (Z.to_nat (MaxCacheMessages cc)))
                   [("link", "client")]%string
                   tomb.zero in
        let (s, evs) := connecting_start c in
        Ok (mkWorld c s evs [])
  end.

(** What the goroutines of a program can do to a client.  ([Call] and
    [CallContext] go straight to the gRPC stub and touch nothing here.) *)
Inductive Action :=
| ASend (rnd : nat) (msg : Message)
| ASendContext (rnd : nat) (ctx : context.Context) (msg : Message)
| AKill
| AWait
| ASup (i : SupInput).

Definition with_cli (w : World) (r : option (Client * error)) : option World :=
  match r with
  | Some (c, _) => Some (mkWorld c (sup w) (trace w) (wire w))
  | None => None
  end.

Definition step (a : Action) (w : World) : option World :=
  match a with
  | ASend rnd msg => with_cli w (Send rnd (cli w) msg)
  | ASendContext rnd ctx msg => with_cli w (SendContext rnd (cli w) ctx msg)
  | AKill =>
      let (c, evs) := Close_Kill (cli w) in
      Some (mkWorld c (sup w) (trace w ++ evs) (wire w))
  | AWait =>
      match Close_Wait (cli w) with
      | Some (c, _, evs) => Some (mkWorld c (sup w) (trace w ++ evs) (wire w))
      | None => None
      end
  | ASup i =>
      match connecting_step i (cli w) (sup w) with
      | Some (c, s, evs, wrote) =>
          Some (mkWorld c s (trace w ++ evs) (wire w ++ wrote))
      | None => None
      end
  end.

Fixpoint run (acts : list Action) (w : World) : option World :=
  match acts with
  | [] => Some w
  | a :: rest =>
      match step a w with
      | Some w' => run rest w'
      | None => None
      end
  end.

End link.

(** ** The vocabulary of the properties *)

(** The supervisor is inside [stream.sending]. *)
Definition is_sending (p : PC) : bool :=
  match p with Sending => true | _ => false end.

(** What holds of the queue and of the supervisor's current message
    together: the buffer is within its capacity; the receiver is blocked
    on the queue only inside a session, with no current message, an empty
    buffer and nothing in its hands; and a value is in its hands only
    inside a session with no other current message. *)
Definition chan_ok {M : Type} (sending : bool) (curr : option M) (q : Chan.t M) : Prop :=
  length (Chan.buf q) <= Chan.cap q /\
  (Chan.recvq q = true ->
     sending = true /\ curr = None /\ Chan.buf q = [] /\ Chan.handed q = None) /\
  (Chan.handed q <> None -> sending = true /\ curr = None).


(** What holds of a client and its supervisor at every moment: the
    configuration and the observer are those given to [NewClient]; the
    queue has the configured capacity and is in order; the tomb is dead
    exactly when the supervisor has returned; the backoff policy keeps its
    three settings; and the timer is set whenever the supervisor waits. *)
Record mqtt_inv (cc : mqtt.ClientConfig) (o : option mqtt.Observer) (w : mqtt.World) : Prop :=
  mk_mqtt_inv {
  mqtt_inv_cfg : mqtt.cfg (mqtt.cli w) = cc;
  mqtt_inv_obs : mqtt.obs (mqtt.cli w) = o;
  mqtt_inv_cap : Chan.cap (mqtt.cache (mqtt.cli w)) = Z.to_nat (mqtt.BufferSize cc);
  mqtt_inv_chan : chan_ok (is_sending (mqtt.pc (mqtt.sup w))) (mqtt.curr (mqtt.sup w))
                          (mqtt.cache (mqtt.cli w));
  mqtt_inv_dead : tomb.dead (mqtt.tomb (mqtt.cli w)) = true <-> mqtt.pc (mqtt.sup w) = Stopped;
  mqtt_inv_dying : tomb.dead (mqtt.tomb (mqtt.cli w)) = true ->
                   tomb.dying (mqtt.tomb (mqtt.cli w)) = true;
  mqtt_inv_bf : backoff.Min (mqtt.bf (mqtt.sup w)) = time.Second /\
                backoff.Max (mqtt.bf (mqtt.sup w)) = mqtt.Interval cc /\
                backoff.Factor (mqtt.bf (mqtt.sup w)) = 1.6%Q;
  mqtt_inv_next : mqtt.pc (mqtt.sup w) = Connecting \/ mqtt.pc (mqtt.sup w) = Sending ->
                  mqtt.next (mqtt.sup w) <> None;
  mqtt_inv_timer : mqtt.pc (mqtt.sup w) = Waiting -> mqtt.timer (mqtt.sup w) <> time.Drained
}.

(** A state a client can be in: some actions after [NewClient]. *)
Definition mqtt_reachable (w : mqtt.World) : Prop :=
  exists newTLS cc o w0 acts,
    mqtt.NewClient newTLS cc o = Ok w0 /\ mqtt.run acts w0 = Some w.



(** [Close()] has returned: the client was made, and somewhere in what
    happened since, a call's [Wait] came back. *)
Definition mqtt_after_Close (w : mqtt.World) : Prop :=
  exists newTLS cc o w0 before w1 w2 after,
    mqtt.NewClient newTLS cc o = Ok w0 /\
    mqtt.run before w0 = Some w1 /\
    mqtt.step mqtt.AWait w1 = Some w2 /\
    mqtt.run after w2 = Some w.

(** The message in flight: the supervisor's current one. *)
Definition mqtt_in_flight (w : mqtt.World) : option mqtt.Packet :=
  fst (session.current (mqtt.curr (mqtt.sup w)) (mqtt.cache (mqtt.cli w))).

(** The attempt count of the supervisor's backoff state. *)
Definition mqtt_attempt (w : mqtt.World) : nat :=
  backoff.Attempt (mqtt.bf (mqtt.sup w)).

(** The supervisor input is the return of a successful [connect()]. *)
Definition connected (i : SupInput) : bool :=
  match i with
  | Connect _ (session.Connected _) => true
  | _ => false
  end.

Definition mqtt_connected (a : mqtt.Action) : bool :=
  match a with
  | mqtt.ASup i => connected i
  | _ => false
  end.



(** The delay the spec gives for the attempt numbered [n]:
    min(maximum, minimum x factor^n). *)
Definition backoff_delay (minimum maximum : time.Duration) (factor : Q) (n : nat) : Q :=
  Qmin maximum (minimum * factor ^ Z.of_nat n)%Q.

(** The delays the supervisor adds to the current time, one for each
    connect attempt of a run. *)
Fixpoint mqtt_delays (acts : list mqtt.Action) (w : mqtt.World) : list time.Duration :=
  match acts with
  | [] => []
  | a :: rest =>
      match mqtt.step a w with
      | None => []
      | Some w' =>
          match a, mqtt.pc (mqtt.sup w'), mqtt.next (mqtt.sup w') with
          | mqtt.ASup (Fire now _), Connecting, Some t => [time.Sub t now]
          | _, _, _ => []
          end ++ mqtt_delays rest w'
      end
  end.

(** One failed connect attempt: the [select] of the loop looked at at
    [now] with the draw [rnd], then [connect()] returning the error [e]. *)
Definition mqtt_failed_attempt (x : time.Time * nat * string) : list mqtt.Action :=
  let '(now, rnd, e) := x in
  [mqtt.ASup (Fire now rnd); mqtt.ASup (Connect now (session.Refused e))].

Definition mqtt_failures (xs : list (time.Time * nat * string)) : list mqtt.Action :=
  flat_map mqtt_failed_attempt xs.

(** A duration in hundredths of a second, rounded to the nearest. *)
Definition centiseconds (d : time.Duration) : Z :=
  Qfloor (d / 10000000 + (1 # 2))%Q.


(** What holds of a client and its supervisor at every moment: the
    configuration and the observer are those given to [NewClient]; the
    queue has the configured capacity and is in order; the tomb is dead
    exactly when the supervisor has returned; the backoff policy keeps its
    three settings; and the timer is set whenever the supervisor waits. *)
Record link_inv (cc : link.ClientConfig) (o : option link.Observer) (w : link.World) : Prop :=
  mk_link_inv {
  link_inv_cfg : link.cfg (link.cli w) = cc;
  link_inv_obs : link.obs (link.cli w) = o;
  link_inv_cap : Chan.cap (link.cache (link.cli w)) = Z.to_nat (link.MaxCacheMessages cc);
  link_inv_chan : chan_ok (is_sending (link.pc (link.sup w))) (link.curr (link.sup w))
                          (link.cache (link.cli w));
  link_inv_dead : tomb.dead (link.tomb (link.cli w)) = true <-> link.pc (link.sup w) = Stopped;
  link_inv_dying : tomb.dead (link.tomb (link.cli w)) = true ->
                   tomb.dying (link.tomb (link.cli w)) = true;
  link_inv_bf : backoff.Min (link.bf (link.sup w)) = time.Second /\
                backoff.Max (link.bf (link.sup w)) = link.Interval cc /\
                backoff.Factor (link.bf (link.sup w)) = 1.6%Q;
  link_inv_next : link.pc (link.sup w) = Connecting \/ link.pc (link.sup w) = Sending ->
                  link.next (link.sup w) <> None;
  link_inv_timer : link.pc (link.sup w) = Waiting -> link.timer (link.sup w) <> time.Drained
}.

(** A state a client can be in: some actions after [NewClient]. *)
Definition link_reachable (w : link.World) : Prop :=
  exists newTLS dial cc o w0 acts,
    link.NewClient newTLS dial cc o = Ok w0 /\ link.run acts w0 = Some w.

(** [Close()] has returned: the client was made, and somewhere in what
    happened since, a call's [Wait] came back. *)
Definition link_after_Close (w : link.World) : Prop :=
  exists newTLS dial cc o w0 before w1 w2 after,
    link.NewClient newTLS dial cc o = Ok w0 /\
    link.run before w0 = Some w1 /\
    link.step link.AWait w1 = Some w2 /\
    link.run after w2 = Some w.

(** The message in flight: the supervisor's current one. *)
Definition link_in_flight (w : link.World) : option link.Message :=
  fst (session.current (link.curr (link.sup w)) (link.cache (link.cli w))).

(** The attempt count of the supervisor's backoff state. *)
Definition link_attempt (w : link.World) : nat :=
  backoff.Attempt (link.bf (link.sup w)).

Definition link_connected (a : link.Action) : bool :=
  match a with
  | link.ASup i => connected i
  | _ => false
  end.

(** A setting of the backoff policy is a configuration option when two
    clients, configured differently, can start their supervisors with
    different values of it. *)
Definition mqtt_configurable (setting : backoff.Backoff -> Q) : Prop :=
  exists c1 c2 : mqtt.Client,
    ~ (setting (mqtt.bf (fst (mqtt.connecting_start c1))) ==
       setting (mqtt.bf (fst (mqtt.connecting_start c2))))%Q.

Definition link_configurable (setting : backoff.Backoff -> Q) : Prop :=
  exists c1 c2 : link.Client,
    ~ (setting (link.bf (fst (link.connecting_start c1))) ==
       setting (link.bf (fst (link.connecting_start c2))))%Q.

(** ** Concrete clients *)

(** No certificate is configured, so no TLS configuration is built. *)
Definition no_certificate : utils.Certificate := utils.mk "" "" "" false.

Definition no_tls (_ : utils.Certificate) : option tls.Config * error := (None, None).

(** [grpc.Dial] succeeding. *)
Definition dial_ok (target : string) (opts : list grpc.DialOption) : Created grpc.ClientConn :=
  Ok (grpc.mk target opts false).

(** An mqtt client with a queue of one packet and a maximum reconnect
    interval of ten seconds. *)
Definition mqtt_config : mqtt.ClientConfig :=
  mqtt.mkClientConfig "client" 1%Z (10 * time.Second)%Q no_certificate.

Definition mqtt_observer : mqtt.Observer :=
  mqtt.mkObserver (fun _ => None) (fun _ => None).

Definition packet_A : mqtt.Packet :=
  mqtt.PktPublish (mqtt.mkPublish 1%N false (mqtt.mkMessage 1%N "a" [] false)).

Definition packet_B : mqtt.Packet :=
  mqtt.PktPublish (mqtt.mkPublish 2%N false (mqtt.mkMessage 1%N "b" [] false)).

(** The client was closed before its supervisor ever connected: [Kill],
    the supervisor's [select] takes the dying case, [Wait] returns. *)
Definition mqtt_closing : list mqtt.Action :=
  [mqtt.AKill; mqtt.ASup (Fire 0%Q 0); mqtt.AWait].

(** Five connect attempts in a row that fail, each made when the timer of
    the one before ticks. *)
Definition five_failures : list (time.Time * nat * string) :=
  [ (0%Q, 0, "connection refused"%string);
    (1000000000%Q, 0, "connection refused"%string);
    (2600000000%Q, 0, "connection refused"%string);
    (5160000000%Q, 0, "connection refused"%string);
    (9256000000%Q, 0, "connection refused"%string) ].

(** A session that takes [packet_A] from the queue and fails to write it,
    while [packet_B] is queued behind it; then a second session. *)
Definition mqtt_first_session : list mqtt.Action :=
  [ mqtt.ASend 0 packet_A;
    mqtt.ASup (Fire 0%Q 0);
    mqtt.ASup (Connect 0%Q (session.Connected (session.mk 1)));
    mqtt.ASup (Session 0%Q session.Pull);
    mqtt.ASend 0 packet_B ].

Definition mqtt_second_session : list mqtt.Action :=
  [ mqtt.ASup (Session 1%Q session.WriteFail);
    mqtt.ASup (Fire 2000000000%Q 0);
    mqtt.ASup (Connect 2000000000%Q (session.Connected (session.mk 2)));
    mqtt.ASup (Session 2000000000%Q session.WriteOk);
    mqtt.ASup (Session 2000000000%Q session.Pull);
    mqtt.ASup (Session 2000000000%Q session.WriteOk) ].

(** A link client with a queue of one message. *)
Definition link_config : link.ClientConfig :=
  link.mkClientConfig "localhost:8273" "" "" 4194304%Z 1%Z (10 * time.Second)%Q no_certificate.

Definition message_A : link.Message :=
  link.mkMessage (link.mkContext 1%N 0%N 1%N link.Msg "a") [].

Definition message_B : link.Message :=
  link.mkMessage (link.mkContext 2%N 0%N 1%N link.Msg "b") [].

Definition link_closing : list link.Action :=
  [link.AKill; link.ASup (Fire 0%Q 0); link.AWait].

(** The queue of the link client is filled, then shutdown begins. *)
Definition link_full_dying : list link.Action :=
  [link.ASend 0 message_A; link.AKill].

Definition cancelled : context.Context := context.mk context.Canceled.

(** ** Vocabulary of the further properties *)

(** A certificate is configured: its key or its cert is not empty. *)
Definition certificate_configured (cert : utils.Certificate) : bool :=
  negb (utils.Key cert =? "")%string || negb (utils.Cert cert =? "")%string.

(** The timer of a waiting supervisor is the one the head of the loop
    set: due at [next], or, before the first attempt, due at once; and
    [next] is set from the first attempt on. *)
Definition timer_set (p : PC) (next : option time.Time) (tm : time.Timer) : Prop :=
  match p with
  | Waiting =>
      match next with
      | Some t => exists t', tm = time.At t' /\ (t' == t)%Q
      | None => tm = time.Fired
      end
  | Connecting | Sending => next <> None
  | Stopped => True
  end.

(** What is done outside tells of no failure: a line logged at level
    info, or the close of a stream. *)
Definition mqtt_quiet (ev : mqtt.Event) : Prop :=
  match ev with
  | mqtt.LogInfo _ _ | mqtt.StreamClose _ => True
  | _ => False
  end.

Definition link_quiet (ev : link.Event) : Prop :=
  match ev with
  | link.LogInfo _ _ | link.StreamClose _ => True
  | _ => False
  end.

(** The messages a client holds, oldest first: the supervisor's current
    one, the one just handed to it, and the buffer of the queue. *)
Definition pending {M : Type} (curr : option M) (q : Chan.t M) : list M :=
  match curr with Some m => [m] | None => [] end
  ++ match Chan.handed q with Some m => [m] | None => [] end
  ++ Chan.buf q.

(** A call returned, and returned [nil]. *)
Definition returned_nil {C : Type} (r : option (C * error)) : bool :=
  match r with
  | Some (_, None) => true
  | _ => false
  end.

(** The packet an action gets accepted, if any: the one a [Send], a
    [Publish] or a [Subscribe] hands over when it returns [nil]. *)
Definition mqtt_accepted_by (a : mqtt.Action) (w : mqtt.World) : list mqtt.Packet :=
  match a with
  | mqtt.ASend rnd pkt =>
      if returned_nil (mqtt.Send rnd (mqtt.cli w) pkt) then [pkt] else []
  | mqtt.APublish rnd qos topic payload pid retain dup =>
      if returned_nil (mqtt.Publish rnd (mqtt.cli w) qos topic payload pid retain dup)
      then [mqtt.PktPublish
              (fst (mqtt.Publish_packet (mqtt.cli w) qos topic payload pid retain dup))]
      else []
  | mqtt.ASubscribe rnd s =>
      if returned_nil (mqtt.Subscribe rnd (mqtt.cli w) s)
      then [mqtt.PktSubscribe (fst (mqtt.Subscribe_packet (mqtt.cli w) s))]
      else []
  | _ => []
  end.

(** The packets accepted along a run, in the order of the calls. *)
Fixpoint mqtt_accepted (acts : list mqtt.Action) (w : mqtt.World) : list mqtt.Packet :=
  match acts with
  | [] => []
  | a :: rest =>
      mqtt_accepted_by a w
      ++ match mqtt.step a w with
         | Some w' => mqtt_accepted rest w'
         | None => []
         end
  end.

Definition link_accepted_by (a : link.Action) (w : link.World) : list link.Message :=
  match a with
  | link.ASend rnd msg =>
      if returned_nil (link.Send rnd (link.cli w) msg) then [msg] else []
  | link.ASendContext rnd ctx msg =>
      if returned_nil (link.SendContext rnd (link.cli w) ctx msg) then [msg] else []
  | _ => []
  end.

Fixpoint link_accepted (acts : list link.Action) (w : link.World) : list link.Message :=
  match acts with
  | [] => []
  | a :: rest =>
      link_accepted_by a w
      ++ match link.step a w with
         | Some w' => link_accepted rest w'
         | None => []
         end
  end.


(** ** Facts about [select] and channels *)

Lemma select_In {A : Type} (rnd : nat) (cases : list (bool * A)) (a : A) :
  select rnd cases = Some a -> In (true, a) cases.
Proof.
  unfold select, ready. intros H.
  apply nth_error_In in H. apply in_map_iff in H.
  destruct H as [[b x] [Hx Hin]]. simpl in Hx. subst x.
  apply filter_In in Hin. destruct Hin as [Hin Hb]. simpl in Hb. now subst b.
Qed.

Lemma select_None {A : Type} (rnd : nat) (cases : list (bool * A)) :
  select rnd cases = None <-> ready cases = [].
Proof.
  unfold select. split.
  - intros H. destruct (ready cases) as [|x r] eqn:E; [reflexivity|].
    apply nth_error_None in H.
    assert (rnd mod length (x :: r) < length (x :: r)) by (apply Nat.mod_upper_bound; discriminate).
    lia.
  - intros ->. now destruct (rnd mod _).
Qed.

Lemma select_blocked {A : Type} (rnd : nat) (cases : list (bool * A)) :
  select rnd cases = None <-> forall a, ~ In (true, a) cases.
Proof.
  rewrite select_None. unfold ready. split.
  - intros H a Hin.
    assert (In a (map snd (filter fst cases))).
    { apply in_map_iff. exists (true, a). split; [reflexivity|]. now apply filter_In. }
    rewrite H in H0. contradiction.
  - intros H. destruct (map snd (filter fst cases)) as [|a r] eqn:E; [reflexivity|].
    exfalso. apply (H a).
    assert (Hin : In a (map snd (filter fst cases))) by (rewrite E; now left).
    apply in_map_iff in Hin. destruct Hin as [[b x] [Hx Hin]]. simpl in Hx. subst x.
    apply filter_In in Hin. destruct Hin as [Hin Hb]. simpl in Hb. now subst b.
Qed.

Lemma chan_ok_make {M : Type} (n : nat) (s : bool) (curr : option M) :
  chan_ok s curr (Chan.make n).
Proof.
  unfold chan_ok, Chan.make; simpl. repeat split; try lia; try discriminate; congruence.
Qed.

Lemma chan_ok_send {M : Type} (s : bool) (curr : option M) (q : Chan.t M) (v : M) :
  chan_ok s curr q -> Chan.can_send q = true ->
  chan_ok s curr (Chan.send v q) /\ Chan.cap (Chan.send v q) = Chan.cap q.
Proof.
  unfold chan_ok, Chan.can_send, Chan.send. intros (L & R & H) C.
  destruct (Chan.recvq q) eqn:E; simpl in *.
  - destruct (R eq_refl) as (-> & -> & Hb & Hh). repeat split; try assumption; discriminate.
  - apply Nat.ltb_lt in C. rewrite length_app. simpl.
    repeat split; try lia; try discriminate; now apply H.
Qed.

Ltac chan_facts :=
  repeat match goal with
  | R : Chan.recvq ?q = true -> _ |- _ =>
      lazymatch goal with
      | E : Chan.recvq q = _ |- _ => fail
      | _ => destruct (Chan.recvq q) eqn:?
      end
  | R : true = true -> _ |- _ => specialize (R eq_refl); decompose [and] R; clear R
  end.

Ltac chan_done :=
  simpl in *; subst; simpl in *;
  repeat match goal with
  | E : Chan.buf ?q = _ |- context [Chan.buf ?q] => rewrite E
  | E : Chan.handed ?q = _ |- context [Chan.handed ?q] => rewrite E
  end; simpl;
  repeat split; intros; try lia; try discriminate; try congruence; try assumption; auto.

Lemma sending_step_Running {M : Type} (ev : session.Event) (curr curr' : option M)
    (q q' : Chan.t M) (wrote : list M) :
  chan_ok true curr q ->
  session.sending_step ev curr q = Some (session.Running curr' q' wrote) ->
  chan_ok true curr' q' /\ Chan.cap q' = Chan.cap q.
Proof.
  unfold chan_ok, session.sending_step, session.current, Chan.take, Chan.recv, Chan.park.
  intros (L & R & H) E.
  destruct (Chan.handed q) as [m|] eqn:Eh; simpl in E;
    destruct ev, curr as [c|]; try discriminate;
    try (destruct (Chan.buf q) as [|v rest] eqn:Eb; simpl in E);
    chan_facts; try discriminate;
    injection E as <- <- <-; simpl; rewrite ?Eh; chan_done.
Qed.

Lemma sending_step_Returned {M : Type} (ev : session.Event) (curr curr' : option M)
    (q q' : Chan.t M) :
  chan_ok true curr q ->
  session.sending_step ev curr q = Some (session.Returned curr' q') ->
  chan_ok false curr' q' /\ Chan.cap q' = Chan.cap q.
Proof.
  unfold chan_ok, session.sending_step, session.current, Chan.take, Chan.recv, Chan.unpark.
  intros (L & R & H) E.
  destruct (Chan.handed q) as [m|] eqn:Eh; simpl in E;
    destruct ev, curr as [c|]; try discriminate;
    try (destruct (Chan.buf q) as [|v rest] eqn:Eb; simpl in E);
    chan_facts; try discriminate;
    injection E as <- <-; simpl; rewrite ?Eh; chan_done.
Qed.

Lemma chan_ok_idle {M : Type} (curr : option M) (q : Chan.t M) :
  chan_ok false curr q -> Chan.recvq q = false /\ Chan.handed q = None.
Proof.
  intros (L & R & H). split.
  - destruct (Chan.recvq q); [|reflexivity]. now destruct (R eq_refl).
  - destruct (Chan.handed q) as [m|]; [|reflexivity].
    assert (Some m <> None) as X by discriminate. now destruct (H X).
Qed.

Lemma chan_ok_of_idle {M : Type} (curr curr' : option M) (s : bool) (q : Chan.t M) :
  chan_ok false curr q -> chan_ok s curr' q.
Proof.
  intros K. destruct (chan_ok_idle _ _ K) as [R H]. destruct K as (L & _ & _).
  unfold chan_ok. rewrite R, H. repeat split; try assumption; congruence.
Qed.

Lemma current_fst {M : Type} (curr : option M) (q : Chan.t M) :
  fst (session.current curr q) =
  match Chan.handed q with Some m => Some m | None => curr end.
Proof.
  unfold session.current, Chan.take. now destruct (Chan.handed q).
Qed.


Ltac not_stopped I :=
  split; intros X; [apply I in X; discriminate X | discriminate X].

(** The fields of the invariant that speak of where the supervisor
    stands, after it has moved. *)
Ltac sup_fields I5 I8 :=
  match goal with
  | |- _ <-> _ => not_stopped I5
  | |- _ \/ _ -> _ =>
      first [ intros [X|X]; discriminate X
            | intros _; discriminate
            | intros _; apply I8; auto ]
  | |- _ = Waiting -> _ =>
      first [ intros X; discriminate X
            | intros _; unfold time.Reset; discriminate
            | exfalso; apply I8; auto ]
  | _ => idtac
  end.

(** ** Package mqtt: the supervisor and the queue *)

Section Mqtt.
Import mqtt.

Lemma mqtt_Send_cases (rnd : nat) (c : Client) (pkt : Packet) :
  (Send rnd c pkt = None /\ Chan.can_send (cache c) = false /\ tomb.Dying (tomb c) = false) \/
  (Send rnd c pkt = Some (set_cache (Chan.send pkt (cache c)) c, None)
     /\ Chan.can_send (cache c) = true) \/
  (Send rnd c pkt = Some (c, ErrClientAlreadyClosed) /\ tomb.Dying (tomb c) = true).
Proof.
  unfold Send.
  destruct (select rnd _) as [[|]|] eqn:E.
  - apply select_In in E. right; left. split; [reflexivity|].
    destruct E as [E|[E|[]]]; congruence.
  - apply select_In in E. right; right. split; [reflexivity|].
    destruct E as [E|[E|[]]]; congruence.
  - left. split; [reflexivity|].
    pose proof (proj1 (select_blocked _ _) E) as B.
    split.
    + destruct (Chan.can_send (cache c)); [|reflexivity]. exfalso. apply (B SendCache). now left.
    + destruct (tomb.Dying (tomb c)); [|reflexivity]. exfalso. apply (B SendDying). right; now left.
Qed.

Lemma mqtt_NewClient_inv newTLS cc o w0 :
  NewClient newTLS cc o = Ok w0 -> mqtt_inv cc o w0.
Proof.
  unfold NewClient.
  match goal with |- context [let (_, _) := ?x in _] => destruct x as [tc [e|]] end;
    [discriminate|].
  destruct (BufferSize cc <? 0)%Z eqn:EB; [discriminate|].
  simpl. intros H. injection H as <-.
  constructor; simpl; try easy; try apply chan_ok_make.
  intros [X|X]; discriminate X.
Qed.

(** The invariant reads only the configuration, the observer, the queue
    and the tomb of the client. *)
Lemma mqtt_inv_ext cc o w c tr wr :
  mqtt_inv cc o w -> cfg c = cfg (cli w) -> obs c = obs (cli w) ->
  tomb c = tomb (cli w) -> cache c = cache (cli w) ->
  mqtt_inv cc o (mkWorld c (sup w) tr wr).
Proof.
  intros [I1 I2 I3 I4 I5 I6 I7 I8 I9] Hc Ho Ht Hq.
  constructor; simpl; rewrite ?Hc, ?Ho, ?Ht, ?Hq; assumption.
Qed.

Lemma mqtt_inv_Send cc o w c rnd pkt c' err :
  mqtt_inv cc o w -> cfg c = cfg (cli w) -> obs c = obs (cli w) ->
  tomb c = tomb (cli w) -> cache c = cache (cli w) ->
  Send rnd c pkt = Some (c', err) ->
  mqtt_inv cc o (mkWorld c' (sup w) (trace w) (wire w)).
Proof.
  intros I Hc Ho Ht Hq HS.
  destruct (mqtt_Send_cases rnd c pkt) as [(E & _)|[(E & C)|(E & _)]];
    rewrite E in HS; try discriminate; injection HS as <- <-.
  - pose proof (mqtt_inv_ext cc o w c (trace w) (wire w) I Hc Ho Ht Hq) as [I1 I2 I3 I4 I5 I6 I7 I8 I9].
    simpl in *.
    destruct (chan_ok_send _ _ _ pkt I4 C) as [K1 K2].
    constructor; simpl; try assumption. now rewrite K2.
  - now apply mqtt_inv_ext.
Qed.

Lemma mqtt_inv_step cc o a w w' :
  mqtt_inv cc o w -> step a w = Some w' -> mqtt_inv cc o w'.
Proof.
  intros I H. destruct a; simpl in H.
  - destruct (Send rnd (cli w) pkt) as [[c' err]|] eqn:E; [|discriminate].
    injection H as <-.
    refine (mqtt_inv_Send cc o w _ _ _ _ _ I _ _ _ _ E); reflexivity.
  - unfold Publish in H.
    destruct (Publish_packet _ _ _ _ _ _ _) as [p ids'].
    destruct (Send rnd _ _) as [[c' err]|] eqn:E; [|discriminate].
    injection H as <-.
    refine (mqtt_inv_Send cc o w _ _ _ _ _ I _ _ _ _ E); reflexivity.
  - unfold Subscribe in H.
    destruct (Subscribe_packet _ _) as [p ids'].
    destruct (Send rnd _ _) as [[c' err]|] eqn:E; [|discriminate].
    injection H as <-.
    refine (mqtt_inv_Send cc o w _ _ _ _ _ I _ _ _ _ E); reflexivity.
  - injection H as <-. destruct I as [I1 I2 I3 I4 I5 I6 I7 I8 I9].
    constructor; simpl; try assumption. reflexivity.
  - unfold Close_Wait in H. destruct (tomb.Wait _); [|discriminate].
    injection H as <-. destruct I as [I1 I2 I3 I4 I5 I6 I7 I8 I9].
    constructor; simpl; assumption.
  - destruct (connecting_step i (cli w) (sup w)) as [[[[c s] evs] wrote]|] eqn:E; [|discriminate].
    injection H as <-. destruct I as [I1 I2 I3 I4 I5 I6 I7 I8 I9].
    unfold connecting_step in E.
    destruct (pc (sup w)) eqn:P, i; try discriminate; simpl in I4.
    + (* Waiting, Fire *)
      destruct (select rnd _) as [[|]|]; try discriminate;
        injection E as <- <- <- <-; constructor; simpl; try assumption; try easy;
        sup_fields I5 I8.
    + (* Connecting, Connect *)
      destruct r.
      * injection E as <- <- <- <-. constructor; simpl; try assumption;
          try (eapply chan_ok_of_idle; eassumption); sup_fields I5 I8.
      * unfold loop_head in E. simpl in E.
        destruct (next (sup w)); injection E as <- <- <- <-;
          constructor; simpl; try assumption; sup_fields I5 I8.
    + (* Sending, Session *)
      destruct (session.sending_step ev _ _) as [[curr' q' wr|curr' q']|] eqn:S;
        try discriminate.
      * injection E as <- <- <- <-.
        destruct (sending_step_Running _ _ _ _ _ _ I4 S) as [K1 K2].
        constructor; simpl; try assumption; try (now rewrite K2); sup_fields I5 I8.
      * unfold loop_head in E. simpl in E.
        destruct (sending_step_Returned _ _ _ _ _ I4 S) as [K1 K2].
        destruct (next (sup w)), (strm (sup w)); injection E as <- <- <- <-;
          constructor; simpl; try assumption; try (now rewrite K2); sup_fields I5 I8.
Qed.

Lemma mqtt_inv_run cc o acts : forall w w',
  mqtt_inv cc o w -> run acts w = Some w' -> mqtt_inv cc o w'.
Proof.
  induction acts as [|a acts IH]; simpl; intros w w' I H.
  - now injection H as <-.
  - destruct (step a w) as [w1|] eqn:E; [|discriminate].
    eapply IH; [|exact H]. eapply mqtt_inv_step; eauto.
Qed.


Ltac mqtt_Send_inv H :=
  match type of H with
  | mqtt.with_cli _ (mqtt.Send ?rnd ?c ?pkt) = Some _ =>
      destruct (mqtt_Send_cases rnd c pkt) as [(?E & _)|[(?E & ?C)|(?E & _)]];
      rewrite E in H; try discriminate H; injection H as <-
  end.

Ltac mqtt_producer H :=
  first
    [ mqtt_Send_inv H
    | unfold mqtt.Publish in H; destruct (mqtt.Publish_packet _ _ _ _ _ _ _) as [?p ?ids'];
      mqtt_Send_inv H
    | unfold mqtt.Subscribe in H; destruct (mqtt.Subscribe_packet _ _) as [?p ?ids'];
      mqtt_Send_inv H
    | injection H as <-
    | unfold mqtt.Close_Wait in H; destruct (tomb.Wait _); [|discriminate H];
      injection H as <- ].

Lemma mqtt_dead_step a w w' :
  step a w = Some w' -> tomb.dead (tomb (cli w)) = true -> tomb.dead (tomb (cli w')) = true.
Proof.
  intros H D. destruct a; simpl in H.
  - destruct (mqtt_Send_cases rnd (cli w) pkt) as [(E & _)|[(E & _)|(E & _)]];
      rewrite E in H; try discriminate; injection H as <-; exact D.
  - unfold Publish in H. destruct (Publish_packet _ _ _ _ _ _ _) as [p ids'].
    destruct (mqtt_Send_cases rnd (set_ids ids' (cli w)) (PktPublish p))
      as [(E & _)|[(E & _)|(E & _)]];
      rewrite E in H; try discriminate; injection H as <-; exact D.
  - unfold Subscribe in H. destruct (Subscribe_packet _ _) as [p ids'].
    destruct (mqtt_Send_cases rnd (set_ids ids' (cli w)) (PktSubscribe p))
      as [(E & _)|[(E & _)|(E & _)]];
      rewrite E in H; try discriminate; injection H as <-; exact D.
  - injection H as <-. exact D.
  - unfold Close_Wait in H. destruct (tomb.Wait _); [|discriminate].
    injection H as <-. exact D.
  - destruct (connecting_step i (cli w) (sup w)) as [[[[c s] evs] wrote]|] eqn:E; [|discriminate].
    injection H as <-. unfold connecting_step in E.
    destruct (pc (sup w)), i; try discriminate.
    + destruct (select rnd _) as [[|]|]; try discriminate;
        injection E as <- <- <- <-; simpl; auto.
    + destruct r; [|destruct (loop_head _ _)]; injection E as <- <- <- <-; exact D.
    + destruct (session.sending_step ev _ _) as [[curr' q' wr|curr' q']|];
        try discriminate; [|destruct (loop_head _ _)];
        injection E as <- <- <- <-; exact D.
Qed.

Lemma mqtt_dead_run acts : forall w w',
  run acts w = Some w' -> tomb.dead (tomb (cli w)) = true -> tomb.dead (tomb (cli w')) = true.
Proof.
  induction acts as [|a acts IH]; simpl; intros w w' H D.
  - now injection H as <-.
  - destruct (step a w) as [w1|] eqn:E; [|discriminate].
    eapply IH; [exact H|]. eapply mqtt_dead_step; eauto.
Qed.

Lemma mqtt_run_app xs : forall ys w,
  run (xs ++ ys) w = match run xs w with Some w1 => run ys w1 | None => None end.
Proof.
  induction xs as [|a xs IH]; simpl; intros ys w; [reflexivity|].
  destruct (step a w); [apply IH|reflexivity].
Qed.

(** Once [Close()] has returned, the tomb is dead, the supervisor has
    returned and nobody waits on the queue. *)
Lemma mqtt_after_Close_facts w :
  mqtt_after_Close w ->
  tomb.Dying (tomb (cli w)) = true /\ pc (sup w) = Stopped /\
  Chan.recvq (cache (cli w)) = false /\ Chan.handed (cache (cli w)) = None /\
  length (Chan.buf (cache (cli w))) <= Chan.cap (cache (cli w)).
Proof.
  intros (newTLS & cc & o & w0 & before & w1 & w2 & after & HN & H1 & HW & H3).
  pose proof (mqtt_NewClient_inv _ _ _ _ HN) as I0.
  pose proof (mqtt_inv_run _ _ _ _ _ I0 H1) as I1.
  pose proof (mqtt_inv_step _ _ _ _ _ I1 HW) as I2.
  pose proof (mqtt_inv_run _ _ _ _ _ I2 H3) as I.
  assert (tomb.dead (tomb (cli w2)) = true) as D2.
  { simpl in HW. unfold Close_Wait, tomb.Wait in HW.
    destruct (tomb.dead (tomb (cli w1))) eqn:D; [|discriminate].
    injection HW as <-. exact D. }
  pose proof (mqtt_dead_run _ _ _ H3 D2) as D.
  destruct I as [I1' I2' I3' I4' I5' I6' I7'].
  pose proof (proj1 I5' D) as P. rewrite P in I4'. simpl in I4'.
  destruct (chan_ok_idle _ _ I4') as [R Hh]. destruct I4' as (L & _).
  repeat split; auto.
Qed.

(** What [Send] comes to once [Close()] has returned. *)
Lemma mqtt_Send_after_Close w rnd pkt :
  mqtt_after_Close w ->
  Send rnd (cli w) pkt = Some (cli w, ErrClientAlreadyClosed) \/
  (length (Chan.buf (cache (cli w))) < Chan.cap (cache (cli w)) /\
   exists c', Send rnd (cli w) pkt = Some (c', None) /\
              Chan.buf (cache c') = Chan.buf (cache (cli w)) ++ [pkt] /\
              Chan.cap (cache c') = Chan.cap (cache (cli w))).
Proof.
  intros A. destruct (mqtt_after_Close_facts w A) as (Dy & P & R & Hh & L).
  destruct (mqtt_Send_cases rnd (cli w) pkt) as [(E & _ & N)|[(E & C)|(E & _)]].
  - congruence.
  - right. unfold Chan.can_send in C. rewrite R in C. simpl in C. apply Nat.ltb_lt in C.
    split; [exact C|]. eexists. split; [exact E|].
    simpl. unfold Chan.send. rewrite R. simpl. split; reflexivity.
  - now left.
Qed.


Lemma mqtt_failures_delays I : forall xs w w',
  pc (sup w) = Waiting ->
  backoff.Min (bf (sup w)) = time.Second ->
  backoff.Max (bf (sup w)) = I ->
  backoff.Factor (bf (sup w)) = 1.6%Q ->
  run (mqtt_failures xs) w = Some w' ->
  Forall2 Qeq (mqtt_delays (mqtt_failures xs) w)
              (map (backoff_delay time.Second I 1.6%Q) (seq (mqtt_attempt w) (length xs))) /\
  pc (sup w') = Waiting /\
  mqtt_attempt w' = mqtt_attempt w + length xs.
Proof.
  induction xs as [|[[now rnd] e] xs IH]; intros w w' P B1 B2 B3 H.
  - simpl in *. injection H as <-. repeat split; auto.
  - change (mqtt_failures ((now, rnd, e) :: xs))
      with (ASup (Fire now rnd) :: ASup (Connect now (session.Refused e)) :: mqtt_failures xs)
      in *.
    cbn [run mqtt_delays] in *.
    destruct (step (ASup (Fire now rnd)) w) as [w1|] eqn:E1; [|discriminate].
    destruct (step (ASup (Connect now (session.Refused e))) w1) as [w2|] eqn:E2; [|discriminate].
    simpl in E1. unfold connecting_step in E1. rewrite P in E1.
    destruct (select rnd _) as [[|]|]; try discriminate.
    + injection E1 as <-. simpl in E2. discriminate.
    + simpl in E1. injection E1 as <-. simpl in E2. unfold loop_head in E2. simpl in E2.
      injection E2 as <-. simpl.
      pose proof (fun p b1 b2 b3 => IH _ w' p b1 b2 b3 H) as K. simpl in K.
      destruct (K eq_refl B1 B2 B3) as (F & P' & A). clear K.
      unfold mqtt_attempt, backoff.Attempt in *. simpl in *.
      split; [|split; [exact P'|lia]].
      constructor; [|exact F].
      unfold backoff.ForAttempt, backoff_delay, time.Sub, time.Add.
      rewrite B1, B2, B3. ring.
Qed.


(** How one action moves the attempt count. *)
Lemma mqtt_attempt_step a w w' :
  step a w = Some w' ->
  (mqtt_connected a = true /\ mqtt_attempt w' = 0) \/
  (mqtt_connected a = false /\
   (mqtt_attempt w' = mqtt_attempt w \/ mqtt_attempt w' = S (mqtt_attempt w))).
Proof.
  intros H. unfold mqtt_attempt, backoff.Attempt.
  destruct a as [rnd pkt|rnd qos topic payload pid retain dup|rnd s| | |i]; simpl in H.
  1-5: mqtt_producer H; right; (split; [reflexivity|now left]).
  destruct (connecting_step i (cli w) (sup w)) as [[[[c s] evs] wrote]|] eqn:E; [|discriminate].
  injection H as <-. unfold connecting_step in E.
  destruct (pc (sup w)), i; try discriminate.
  - destruct (select rnd _) as [[|]|]; try discriminate;
      injection E as <- <- <- <-; simpl; right; split; auto.
  - destruct r; [|unfold loop_head in E; destruct (next (sup w))];
      injection E as <- <- <- <-; simpl; [left|right|right]; split; auto.
  - destruct (session.sending_step ev _ _) as [[curr' q' wr|curr' q']|];
      try discriminate;
      [|unfold loop_head in E; simpl in E; destruct (next (sup w)), (strm (sup w))];
      injection E as <- <- <- <-; simpl; right; split; auto.
Qed.

Lemma mqtt_attempt_run acts : forall w w',
  run acts w = Some w' -> forallb (fun a => negb (mqtt_connected a)) acts = true ->
  mqtt_attempt w <= mqtt_attempt w'.
Proof.
  induction acts as [|a acts IH]; simpl; intros w w' H F.
  - injection H as <-. lia.
  - destruct (step a w) as [w1|] eqn:E; [|discriminate].
    apply andb_true_iff in F. destruct F as [Fa F].
    specialize (IH _ _ H F).
    destruct (mqtt_attempt_step _ _ _ E) as [(C & _)|(_ & [A|A])].
    + rewrite C in Fa. discriminate.
    + lia.
    + lia.
Qed.

(** The message in flight stays in flight until it is written, and
    nothing is written before it. *)
Lemma mqtt_in_flight_step cc o a w w' m :
  mqtt_inv cc o w -> mqtt_in_flight w = Some m -> step a w = Some w' ->
  (wire w' = wire w /\ mqtt_in_flight w' = Some m) \/ wire w' = wire w ++ [m].
Proof.
  intros [I1 I2 I3 I4 I5 I6 I7 I8 I9] F H.
  unfold mqtt_in_flight in *. rewrite current_fst in *.
  assert (forall pkt,
            match Chan.handed (Chan.send pkt (cache (cli w))) with
            | Some m0 => Some m0
            | None => curr (sup w)
            end = Some m) as SendOK.
  { intros pkt. unfold Chan.send. destruct I4 as (_ & R & _).
    destruct (Chan.recvq (cache (cli w))) eqn:Rq.
    - destruct (R eq_refl) as (_ & Hc & _ & Hh). rewrite Hc, Hh in F. discriminate.
    - simpl. exact F. }
  destruct a as [rnd pkt|rnd qos topic payload pid retain dup|rnd s| | |i]; simpl in H.
  1-5: mqtt_producer H; left; (split; [reflexivity|]);
    simpl; rewrite ?current_fst; simpl; try exact F; try apply SendOK.
  destruct (connecting_step i (cli w) (sup w)) as [[[[c s] evs] wrote]|] eqn:E; [|discriminate].
  injection H as <-. unfold connecting_step in E.
  destruct (pc (sup w)) eqn:P, i; try discriminate; simpl in I4.
  - destruct (select rnd _) as [[|]|]; try discriminate;
      injection E as <- <- <- <-; simpl; left; rewrite app_nil_r; split; auto.
  - destruct r; [|unfold loop_head in E; destruct (next (sup w))];
      injection E as <- <- <- <-; simpl; left; rewrite app_nil_r; split; auto.
  - unfold session.sending_step, session.current, Chan.take in E.
    destruct (Chan.handed (cache (cli w))) as [h|] eqn:Eh; simpl in F, E.
    + injection F as ->.
      destruct ev; try discriminate; simpl in E.
      * injection E as <- <- <- <-. simpl. now right.
      * unfold loop_head in E. simpl in E.
        destruct (next (sup w)), (strm (sup w)); injection E as <- <- <- <-; simpl;
          left; rewrite app_nil_r; split; auto.
      * unfold loop_head in E. simpl in E.
        destruct (next (sup w)), (strm (sup w)); injection E as <- <- <- <-; simpl;
          left; rewrite app_nil_r; split; auto.
    + rewrite F in E.
      destruct ev; try discriminate; simpl in E.
      * injection E as <- <- <- <-. simpl. now right.
      * unfold loop_head in E. simpl in E.
        destruct (next (sup w)), (strm (sup w)); injection E as <- <- <- <-; simpl;
          rewrite Eh; left; rewrite app_nil_r; split; auto.
      * unfold loop_head in E. simpl in E.
        destruct (next (sup w)), (strm (sup w)); injection E as <- <- <- <-; simpl;
          rewrite Eh; left; rewrite app_nil_r; split; auto.
Qed.

Lemma mqtt_wire_step a w w' :
  step a w = Some w' -> exists wrote, wire w' = wire w ++ wrote.
Proof.
  intros H. destruct a as [rnd pkt|rnd qos topic payload pid retain dup|rnd s| | |i];
    simpl in H.
  1-5: mqtt_producer H; exists []; simpl; now rewrite app_nil_r.
  destruct (connecting_step i (cli w) (sup w)) as [[[[c s] evs] wrote]|]; [|discriminate].
  injection H as <-. now exists wrote.
Qed.

Lemma mqtt_wire_run acts : forall w w',
  run acts w = Some w' -> exists wrote, wire w' = wire w ++ wrote.
Proof.
  induction acts as [|a acts IH]; simpl; intros w w' H.
  - injection H as <-. exists []. now rewrite app_nil_r.
  - destruct (step a w) as [w1|] eqn:E; [|discriminate].
    destruct (mqtt_wire_step _ _ _ E) as [x Hx].
    destruct (IH _ _ H) as [y Hy]. exists (x ++ y). now rewrite Hy, Hx, app_assoc.
Qed.

Lemma mqtt_in_flight_run cc o acts : forall w w' m,
  mqtt_inv cc o w -> mqtt_in_flight w = Some m -> run acts w = Some w' ->
  (wire w' = wire w /\ mqtt_in_flight w' = Some m) \/
  exists rest, wire w' = wire w ++ m :: rest.
Proof.
  induction acts as [|a acts IH]; simpl; intros w w' m I F H.
  - injection H as <-. now left.
  - destruct (step a w) as [w1|] eqn:E; [|discriminate].
    pose proof (mqtt_inv_step _ _ _ _ _ I E) as I1.
    destruct (mqtt_in_flight_step _ _ _ _ _ _ I F E) as [(W & F1)|W].
    + destruct (IH _ _ _ I1 F1 H) as [(W' & F')|(rest & W')].
      * left. split; congruence.
      * right. exists rest. congruence.
    + right. destruct (mqtt_wire_run _ _ _ H) as [y Hy]. exists y.
      rewrite Hy, W, <- app_assoc. reflexivity.
Qed.


(** The queue of a client made by [NewClient]. *)
Lemma mqtt_NewClient_cache newTLS cc o w0 :
  NewClient newTLS cc o = Ok w0 ->
  Z.of_nat (Chan.cap (cache (cli w0))) = BufferSize cc /\ Chan.buf (cache (cli w0)) = [].
Proof.
  unfold NewClient.
  match goal with |- context [let (_, _) := ?x in _] => destruct x as [tc [e|]] end;
    [discriminate|].
  destruct (BufferSize cc <? 0)%Z eqn:EB; [discriminate|].
  simpl. intros H. injection H as <-. simpl. apply Z.ltb_ge in EB. split; [lia|reflexivity].
Qed.

(** A send on a full queue waits, or fails because the client is closing. *)
Lemma mqtt_Send_full rnd c pkt :
  Chan.full (cache c) ->
  Send rnd c pkt = None \/ Send rnd c pkt = Some (c, ErrClientAlreadyClosed).
Proof.
  unfold Chan.full. intros F.
  destruct (mqtt_Send_cases rnd c pkt) as [(E & _)|[(E & C)|(E & _)]]; auto. congruence.
Qed.

Lemma mqtt_full_length cc o w :
  mqtt_inv cc o w -> 0 < Chan.cap (cache (cli w)) ->
  length (Chan.buf (cache (cli w))) = Chan.cap (cache (cli w)) ->
  Chan.full (cache (cli w)).
Proof.
  intros [I1 I2 I3 I4 I5 I6 I7 I8 I9] P L. unfold Chan.full, Chan.can_send.
  destruct I4 as (_ & R & _).
  destruct (Chan.recvq (cache (cli w))) eqn:Rq.
  - destruct (R eq_refl) as (_ & _ & B & _). rewrite B in L. simpl in L. lia.
  - simpl. apply Nat.ltb_ge. lia.
Qed.

(** A failed [connect()]: the error goes to [onError], and the supervisor
    is back at its [select]. *)
Lemma mqtt_connect_refused w now e :
  pc (sup w) = Connecting ->
  exists w' evs,
    step (ASup (Connect now (session.Refused e))) w = Some w' /\
    pc (sup w') = Waiting /\ cli w' = cli w /\
    trace w' = trace w ++ onError (cli w) "failed to connect" (Some e) ++ evs /\
    (forall err, ~ In (CallOnError err) evs) /\
    (forall t, next (sup w) = Some t ->
       timer (sup w') = time.Reset (time.Sub t now) now (timer (sup w)) /\
       next (sup w') = Some t).
Proof.
  intros P. simpl. unfold connecting_step. rewrite P. unfold loop_head. simpl.
  destruct (next (sup w)) as [t|] eqn:N; eexists; eexists;
    (split; [reflexivity|]); simpl;
    (split; [reflexivity|]); (split; [reflexivity|]); (split; [reflexivity|]); split.
  - intros err [X|[]]. discriminate.
  - intros t' T. now injection T as <-.
  - intros err [].
  - intros t' T. discriminate.
Qed.

Lemma mqtt_onError_cases c msg err :
  (forall o e, obs c = Some o -> err = Some e ->
     onError c msg err = [LogError msg err; CallOnError err]) /\
  (obs c = None \/ err = None -> onError c msg err = []).
Proof.
  unfold onError. split.
  - intros o e -> ->. reflexivity.
  - intros [->| ->]; [reflexivity|]. now destruct (obs c).
Qed.

(** The supervisor returns only from the [Dying] case of its [select]. *)
Lemma mqtt_stops_when_dying a w w' :
  step a w = Some w' -> pc (sup w) <> Stopped -> pc (sup w') = Stopped ->
  tomb.Dying (tomb (cli w)) = true /\ exists now rnd, a = ASup (Fire now rnd).
Proof.
  intros H N S.
  destruct a as [rnd pkt|rnd qos topic payload pid retain dup|rnd s| | |i]; simpl in H.
  1-5: mqtt_producer H; simpl in S; congruence.
  destruct (connecting_step i (cli w) (sup w)) as [[[[c s] evs] wrote]|] eqn:E; [|discriminate].
  injection H as <-. unfold connecting_step in E. simpl in S.
  destruct (pc (sup w)) eqn:P, i; try discriminate.
  - destruct (select rnd _) as [[|]|] eqn:Sel; try discriminate;
      injection E as <- <- <- <-; simpl in S; try discriminate.
    apply select_In in Sel. split; [|eauto].
    destruct Sel as [X|[X|[]]]; congruence.
  - destruct r; [|unfold loop_head in E; destruct (next (sup w))];
      injection E as <- <- <- <-; discriminate.
  - destruct (session.sending_step ev _ _) as [[curr' q' wr|curr' q']|];
      try discriminate;
      [|unfold loop_head in E; simpl in E; destruct (next (sup w)), (strm (sup w))];
      injection E as <- <- <- <-; discriminate.
Qed.

(** After a failure the next attempt follows as soon as the timer ticks,
    unless the client is dying. *)
Lemma mqtt_retry w now rnd :
  pc (sup w) = Waiting -> time.ticked now (timer (sup w)) = true ->
  exists w', step (ASup (Fire now rnd)) w = Some w' /\
    (tomb.Dying (tomb (cli w)) = false ->
       pc (sup w') = Connecting /\ mqtt_attempt w' = S (mqtt_attempt w)).
Proof.
  intros P T. simpl. unfold connecting_step. rewrite P.
  destruct (select rnd _) as [[|]|] eqn:Sel.
  - eexists. split; [reflexivity|]. intros D. apply select_In in Sel.
    destruct Sel as [X|[X|[]]]; congruence.
  - eexists. split; [reflexivity|]. intros D. simpl. now split.
  - exfalso. apply (proj1 (select_blocked _ _) Sel LoopTimer). right; left. now rewrite T.
Qed.

(** The backoff policy [connecting] starts with. *)
Lemma mqtt_backoff_start c :
  bf (fst (connecting_start c)) = backoff.mk time.Second (Interval (cfg c)) 1.6%Q 0.
Proof. reflexivity. Qed.

(** The packet [Publish] builds. *)
Lemma mqtt_Publish_packet_spec c qos topic payload pid retain dup :
  let p := fst (Publish_packet c qos topic payload pid retain dup) in
  let ids' := snd (Publish_packet c qos topic payload pid retain dup) in
  (qos <> 0%N /\ pid = 0%N ->
     Publish_ID p = fst (NextID (ids c)) /\ ids' = snd (NextID (ids c))) /\
  (~ (qos <> 0%N /\ pid = 0%N) -> Publish_ID p = pid /\ ids' = ids c) /\
  Publish_Dup p = dup /\
  Publish_Message p = mkMessage qos topic payload retain.
Proof.
  unfold Publish_packet.
  destruct (N.eqb_spec qos 0), (N.eqb_spec pid 0); simpl;
    repeat split; try reflexivity; intros; tauto.
Qed.

End Mqtt.

(** ** Package link: the supervisor and the queue *)

Section Link.
Import link.


Lemma link_Send_cases (rnd : nat) (c : Client) (msg : Message) :
  (Send rnd c msg = None /\ Chan.can_send (cache c) = false /\ tomb.Dying (tomb c) = false) \/
  (Send rnd c msg = Some (set_cache (Chan.send msg (cache c)) c, None)
     /\ Chan.can_send (cache c) = true) \/
  (Send rnd c msg = Some (c, ErrClientAlreadyClosed) /\ tomb.Dying (tomb c) = true).
Proof.
  unfold Send.
  destruct (select rnd _) as [[| |]|] eqn:E.
  - apply select_In in E. right; left. split; [reflexivity|].
    destruct E as [E|[E|[]]]; congruence.
  - apply select_In in E. destruct E as [E|[E|[]]]; congruence.
  - apply select_In in E. right; right. split; [reflexivity|].
    destruct E as [E|[E|[]]]; congruence.
  - left. split; [reflexivity|].
    pose proof (proj1 (select_blocked _ _) E) as B.
    split.
    + destruct (Chan.can_send (cache c)); [|reflexivity]. exfalso. apply (B SendCache). now left.
    + destruct (tomb.Dying (tomb c)); [|reflexivity]. exfalso. apply (B SendDying). right; now left.
Qed.

Lemma link_NewClient_inv newTLS dial cc o w0 :
  NewClient newTLS dial cc o = Ok w0 -> link_inv cc o w0.
Proof.
  unfold NewClient.
  destruct (NewClientConn newTLS dial cc) as [k|e|]; try discriminate.
  destruct (MaxCacheMessages cc <? 0)%Z eqn:EB; [discriminate|].
  simpl. intros H. injection H as <-.
  constructor; simpl; try easy; try apply chan_ok_make.
  intros [X|X]; discriminate X.
Qed.

(** The invariant reads only the configuration, the observer, the queue
    and the tomb of the client. *)
Lemma link_inv_ext cc o w c tr wr :
  link_inv cc o w -> cfg c = cfg (cli w) -> obs c = obs (cli w) ->
  tomb c = tomb (cli w) -> cache c = cache (cli w) ->
  link_inv cc o (mkWorld c (sup w) tr wr).
Proof.
  intros [I1 I2 I3 I4 I5 I6 I7 I8 I9] Hc Ho Ht Hq.
  constructor; simpl; rewrite ?Hc, ?Ho, ?Ht, ?Hq; assumption.
Qed.

Lemma link_inv_Send cc o w c rnd msg c' err :
  link_inv cc o w -> cfg c = cfg (cli w) -> obs c = obs (cli w) ->
  tomb c = tomb (cli w) -> cache c = cache (cli w) ->
  Send rnd c msg = Some (c', err) ->
  link_inv cc o (mkWorld c' (sup w) (trace w) (wire w)).
Proof.
  intros I Hc Ho Ht Hq HS.
  destruct (link_Send_cases rnd c msg) as [(E & _)|[(E & C)|(E & _)]];
    rewrite E in HS; try discriminate; injection HS as <- <-.
  - pose proof (link_inv_ext cc o w c (trace w) (wire w) I Hc Ho Ht Hq) as [I1 I2 I3 I4 I5 I6 I7 I8 I9].
    simpl in *.
    destruct (chan_ok_send _ _ _ msg I4 C) as [K1 K2].
    constructor; simpl; try assumption. now rewrite K2.
  - now apply link_inv_ext.
Qed.

Lemma link_SendContext_cases (rnd : nat) (c : Client) (ctx : context.Context) (msg : Message) :
  (SendContext rnd c ctx msg = None /\ Chan.can_send (cache c) = false /\
     context.Done ctx = false /\ tomb.Dying (tomb c) = false) \/
  (SendContext rnd c ctx msg = Some (set_cache (Chan.send msg (cache c)) c, None)
     /\ Chan.can_send (cache c) = true) \/
  (SendContext rnd c ctx msg = Some (c, context.Err ctx) /\ context.Done ctx = true) \/
  (SendContext rnd c ctx msg = Some (c, ErrClientAlreadyClosed) /\ tomb.Dying (tomb c) = true).
Proof.
  unfold SendContext.
  destruct (select rnd _) as [[| |]|] eqn:E.
  - apply select_In in E. right; left. split; [reflexivity|].
    destruct E as [E|[E|[E|[]]]]; congruence.
  - apply select_In in E. right; right; left. split; [reflexivity|].
    destruct E as [E|[E|[E|[]]]]; congruence.
  - apply select_In in E. right; right; right. split; [reflexivity|].
    destruct E as [E|[E|[E|[]]]]; congruence.
  - left. split; [reflexivity|].
    pose proof (proj1 (select_blocked _ _) E) as B.
    repeat split.
    + destruct (Chan.can_send (cache c)); [|reflexivity]. exfalso. apply (B SendCache). now left.
    + destruct (context.Done ctx); [|reflexivity]. exfalso. apply (B SendDone). right; now left.
    + destruct (tomb.Dying (tomb c)); [|reflexivity]. exfalso. apply (B SendDying).
      right; right; now left.
Qed.

Lemma link_inv_SendContext cc o w c rnd ctx msg c' err :
  link_inv cc o w -> cfg c = cfg (cli w) -> obs c = obs (cli w) ->
  tomb c = tomb (cli w) -> cache c = cache (cli w) ->
  SendContext rnd c ctx msg = Some (c', err) ->
  link_inv cc o (mkWorld c' (sup w) (trace w) (wire w)).
Proof.
  intros I Hc Ho Ht Hq HS.
  destruct (link_SendContext_cases rnd c ctx msg) as [(E & _)|[(E & C)|[(E & _)|(E & _)]]];
    rewrite E in HS; try discriminate; injection HS as <- <-.
  - pose proof (link_inv_ext cc o w c (trace w) (wire w) I Hc Ho Ht Hq)
      as [I1 I2 I3 I4 I5 I6 I7 I8 I9].
    simpl in *.
    destruct (chan_ok_send _ _ _ msg I4 C) as [K1 K2].
    constructor; simpl; try assumption. now rewrite K2.
  - now apply link_inv_ext.
  - now apply link_inv_ext.
Qed.

Lemma link_inv_step cc o a w w' :
  link_inv cc o w -> step a w = Some w' -> link_inv cc o w'.
Proof.
  intros I H. destruct a; simpl in H.
  - destruct (Send rnd (cli w) msg) as [[c' err]|] eqn:E; [|discriminate].
    injection H as <-.
    refine (link_inv_Send cc o w _ _ _ _ _ I _ _ _ _ E); reflexivity.
  - destruct (SendContext rnd (cli w) ctx msg) as [[c' err]|] eqn:E; [|discriminate].
    injection H as <-.
    refine (link_inv_SendContext cc o w _ _ _ _ _ _ I _ _ _ _ E); reflexivity.
  - injection H as <-. destruct I as [I1 I2 I3 I4 I5 I6 I7 I8 I9].
    constructor; simpl; try assumption. reflexivity.
  - unfold Close_Wait in H. destruct (tomb.Wait _); [|discriminate].
    injection H as <-. destruct I as [I1 I2 I3 I4 I5 I6 I7 I8 I9].
    constructor; simpl; assumption.
  - destruct (connecting_step i (cli w) (sup w)) as [[[[c s] evs] wrote]|] eqn:E; [|discriminate].
    injection H as <-. destruct I as [I1 I2 I3 I4 I5 I6 I7 I8 I9].
    unfold connecting_step in E.
    destruct (pc (sup w)) eqn:P, i; try discriminate; simpl in I4.
    + (* Waiting, Fire *)
      destruct (select rnd _) as [[|]|]; try discriminate;
        injection E as <- <- <- <-; constructor; simpl; try assumption; try easy;
        sup_fields I5 I8.
    + (* Connecting, Connect *)
      destruct r.
      * injection E as <- <- <- <-. constructor; simpl; try assumption;
          try (eapply chan_ok_of_idle; eassumption); sup_fields I5 I8.
      * unfold loop_head in E. simpl in E.
        destruct (next (sup w)); injection E as <- <- <- <-;
          constructor; simpl; try assumption; sup_fields I5 I8.
    + (* Sending, Session *)
      destruct (session.sending_step ev _ _) as [[curr' q' wr|curr' q']|] eqn:S;
        try discriminate.
      * injection E as <- <- <- <-.
        destruct (sending_step_Running _ _ _ _ _ _ I4 S) as [K1 K2].
        constructor; simpl; try assumption; try (now rewrite K2); sup_fields I5 I8.
      * unfold loop_head in E. simpl in E.
        destruct (sending_step_Returned _ _ _ _ _ I4 S) as [K1 K2].
        destruct (next (sup w)), (strm (sup w)); injection E as <- <- <- <-;
          constructor; simpl; try assumption; try (now rewrite K2); sup_fields I5 I8.
Qed.

Lemma link_inv_run cc o acts : forall w w',
  link_inv cc o w -> run acts w = Some w' -> link_inv cc o w'.
Proof.
  induction acts as [|a acts IH]; simpl; intros w w' I H.
  - now injection H as <-.
  - destruct (step a w) as [w1|] eqn:E; [|discriminate].
    eapply IH; [|exact H]. eapply link_inv_step; eauto.
Qed.

Ltac link_Send_inv H :=
  match type of H with
  | link.with_cli _ (link.Send ?rnd ?c ?msg) = Some _ =>
      destruct (link_Send_cases rnd c msg) as [(?E & _)|[(?E & ?C)|(?E & _)]];
      rewrite E in H; try discriminate H; injection H as <-
  | link.with_cli _ (link.SendContext ?rnd ?c ?ctx ?msg) = Some _ =>
      destruct (link_SendContext_cases rnd c ctx msg)
        as [(?E & _)|[(?E & ?C)|[(?E & _)|(?E & _)]]];
      rewrite E in H; try discriminate H; injection H as <-
  end.

Ltac link_producer H :=
  first
    [ link_Send_inv H
    | injection H as <-
    | unfold link.Close_Wait in H; destruct (tomb.Wait _); [|discriminate H];
      injection H as <- ].

Lemma link_dead_step a w w' :
  step a w = Some w' -> tomb.dead (tomb (cli w)) = true -> tomb.dead (tomb (cli w')) = true.
Proof.
  intros H D. destruct a as [rnd msg|rnd ctx msg| | |i]; simpl in H.
  1-4: link_producer H; exact D.
  destruct (connecting_step i (cli w) (sup w)) as [[[[c s] evs] wrote]|] eqn:E; [|discriminate].
  injection H as <-. unfold connecting_step in E.
  destruct (pc (sup w)), i; try discriminate.
  - destruct (select rnd _) as [[|]|]; try discriminate;
        injection E as <- <- <- <-; simpl; auto.
  - destruct r; [|destruct (loop_head _ _)]; injection E as <- <- <- <-; exact D.
  - destruct (session.sending_step ev _ _) as [[curr' q' wr|curr' q']|];
        try discriminate; [|destruct (loop_head _ _)];
        injection E as <- <- <- <-; exact D.
Qed.

Lemma link_dead_run acts : forall w w',
  run acts w = Some w' -> tomb.dead (tomb (cli w)) = true -> tomb.dead (tomb (cli w')) = true.
Proof.
  induction acts as [|a acts IH]; simpl; intros w w' H D.
  - now injection H as <-.
  - destruct (step a w) as [w1|] eqn:E; [|discriminate].
    eapply IH; [exact H|]. eapply link_dead_step; eauto.
Qed.

(** Once [Close()] has returned, the tomb is dead, the supervisor has
    returned and nobody waits on the queue. *)
Lemma link_after_Close_facts w :
  link_after_Close w ->
  tomb.Dying (tomb (cli w)) = true /\ pc (sup w) = Stopped /\
  Chan.recvq (cache (cli w)) = false /\ Chan.handed (cache (cli w)) = None /\
  length (Chan.buf (cache (cli w))) <= Chan.cap (cache (cli w)).
Proof.
  intros (newTLS & dial & cc & o & w0 & before & w1 & w2 & after & HN & H1 & HW & H3).
  pose proof (link_NewClient_inv _ _ _ _ _ HN) as I0.
  pose proof (link_inv_run _ _ _ _ _ I0 H1) as I1.
  pose proof (link_inv_step _ _ _ _ _ I1 HW) as I2.
  pose proof (link_inv_run _ _ _ _ _ I2 H3) as I.
  assert (tomb.dead (tomb (cli w2)) = true) as D2.
  { simpl in HW. unfold Close_Wait, tomb.Wait in HW.
    destruct (tomb.dead (tomb (cli w1))) eqn:D; [|discriminate].
    injection HW as <-. exact D. }
  pose proof (link_dead_run _ _ _ H3 D2) as D.
  destruct I as [I1' I2' I3' I4' I5' I6' I7'].
  pose proof (proj1 I5' D) as P. rewrite P in I4'. simpl in I4'.
  destruct (chan_ok_idle _ _ I4') as [R Hh]. destruct I4' as (L & _).
  repeat split; auto.
Qed.

(** What [Send] comes to once [Close()] has returned. *)
Lemma link_Send_after_Close w rnd msg :
  link_after_Close w ->
  Send rnd (cli w) msg = Some (cli w, ErrClientAlreadyClosed) \/
  (length (Chan.buf (cache (cli w))) < Chan.cap (cache (cli w)) /\
   exists c', Send rnd (cli w) msg = Some (c', None) /\
              Chan.buf (cache c') = Chan.buf (cache (cli w)) ++ [msg] /\
              Chan.cap (cache c') = Chan.cap (cache (cli w))).
Proof.
  intros A. destruct (link_after_Close_facts w A) as (Dy & P & R & Hh & L).
  destruct (link_Send_cases rnd (cli w) msg) as [(E & _ & N)|[(E & C)|(E & _)]].
  - congruence.
  - right. unfold Chan.can_send in C. rewrite R in C. simpl in C. apply Nat.ltb_lt in C.
    split; [exact C|]. eexists. split; [exact E|].
    simpl. unfold Chan.send. rewrite R. simpl. split; reflexivity.
  - now left.
Qed.

(** How one action moves the attempt count. *)
Lemma link_attempt_step a w w' :
  step a w = Some w' ->
  (link_connected a = true /\ link_attempt w' = 0) \/
  (link_connected a = false /\
   (link_attempt w' = link_attempt w \/ link_attempt w' = S (link_attempt w))).
Proof.
  intros H. unfold link_attempt, backoff.Attempt.
  destruct a as [rnd msg|rnd ctx msg| | |i]; simpl in H.
  1-4: link_producer H; right; (split; [reflexivity|now left]).
  destruct (connecting_step i (cli w) (sup w)) as [[[[c s] evs] wrote]|] eqn:E; [|discriminate].
  injection H as <-. unfold connecting_step in E.
  destruct (pc (sup w)), i; try discriminate.
  - destruct (select rnd _) as [[|]|]; try discriminate;
      injection E as <- <- <- <-; simpl; right; split; auto.
  - destruct r; [|unfold loop_head in E; destruct (next (sup w))];
      injection E as <- <- <- <-; simpl; [left|right|right]; split; auto.
  - destruct (session.sending_step ev _ _) as [[curr' q' wr|curr' q']|];
      try discriminate;
      [|unfold loop_head in E; simpl in E; destruct (next (sup w)), (strm (sup w))];
      injection E as <- <- <- <-; simpl; right; split; auto.
Qed.

Lemma link_attempt_run acts : forall w w',
  run acts w = Some w' -> forallb (fun a => negb (link_connected a)) acts = true ->
  link_attempt w <= link_attempt w'.
Proof.
  induction acts as [|a acts IH]; simpl; intros w w' H F.
  - injection H as <-. lia.
  - destruct (step a w) as [w1|] eqn:E; [|discriminate].
    apply andb_true_iff in F. destruct F as [Fa F].
    specialize (IH _ _ H F).
    destruct (link_attempt_step _ _ _ E) as [(C & _)|(_ & [A|A])].
    + rewrite C in Fa. discriminate.
    + lia.
    + lia.
Qed.

(** The message in flight stays in flight until it is written, and
    nothing is written before it. *)
Lemma link_in_flight_step cc o a w w' m :
  link_inv cc o w -> link_in_flight w = Some m -> step a w = Some w' ->
  (wire w' = wire w /\ link_in_flight w' = Some m) \/ wire w' = wire w ++ [m].
Proof.
  intros [I1 I2 I3 I4 I5 I6 I7 I8 I9] F H.
  unfold link_in_flight in *. rewrite current_fst in *.
  assert (forall msg,
            match Chan.handed (Chan.send msg (cache (cli w))) with
            | Some m0 => Some m0
            | None => curr (sup w)
            end = Some m) as SendOK.
  { intros msg. unfold Chan.send. destruct I4 as (_ & R & _).
    destruct (Chan.recvq (cache (cli w))) eqn:Rq.
    - destruct (R eq_refl) as (_ & Hc & _ & Hh). rewrite Hc, Hh in F. discriminate.
    - simpl. exact F. }
  destruct a as [rnd msg|rnd ctx msg| | |i]; simpl in H.
  1-4: link_producer H; left; (split; [reflexivity|]);
    simpl; rewrite ?current_fst; simpl; try exact F; try apply SendOK.
  destruct (connecting_step i (cli w) (sup w)) as [[[[c s] evs] wrote]|] eqn:E; [|discriminate].
  injection H as <-. unfold connecting_step in E.
  destruct (pc (sup w)) eqn:P, i; try discriminate; simpl in I4.
  - destruct (select rnd _) as [[|]|]; try discriminate;
      injection E as <- <- <- <-; simpl; left; rewrite app_nil_r; split; auto.
  - destruct r; [|unfold loop_head in E; destruct (next (sup w))];
      injection E as <- <- <- <-; simpl; left; rewrite app_nil_r; split; auto.
  - unfold session.sending_step, session.current, Chan.take in E.
    destruct (Chan.handed (cache (cli w))) as [h|] eqn:Eh; simpl in F, E.
    + injection F as ->.
      destruct ev; try discriminate; simpl in E.
      * injection E as <- <- <- <-. simpl. now right.
      * unfold loop_head in E. simpl in E.
        destruct (next (sup w)), (strm (sup w)); injection E as <- <- <- <-; simpl;
          left; rewrite app_nil_r; split; auto.
      * unfold loop_head in E. simpl in E.
        destruct (next (sup w)), (strm (sup w)); injection E as <- <- <- <-; simpl;
          left; rewrite app_nil_r; split; auto.
    + rewrite F in E.
      destruct ev; try discriminate; simpl in E.
      * injection E as <- <- <- <-. simpl. now right.
      * unfold loop_head in E. simpl in E.
        destruct (next (sup w)), (strm (sup w)); injection E as <- <- <- <-; simpl;
          rewrite Eh; left; rewrite app_nil_r; split; auto.
      * unfold loop_head in E. simpl in E.
        destruct (next (sup w)), (strm (sup w)); injection E as <- <- <- <-; simpl;
          rewrite Eh; left; rewrite app_nil_r; split; auto.
Qed.

Lemma link_wire_step a w w' :
  step a w = Some w' -> exists wrote, wire w' = wire w ++ wrote.
Proof.
  intros H. destruct a as [rnd msg|rnd ctx msg| | |i];
    simpl in H.
  1-4: link_producer H; exists []; simpl; now rewrite app_nil_r.
  destruct (connecting_step i (cli w) (sup w)) as [[[[c s] evs] wrote]|]; [|discriminate].
  injection H as <-. now exists wrote.
Qed.

Lemma link_wire_run acts : forall w w',
  run acts w = Some w' -> exists wrote, wire w' = wire w ++ wrote.
Proof.
  induction acts as [|a acts IH]; simpl; intros w w' H.
  - injection H as <-. exists []. now rewrite app_nil_r.
  - destruct (step a w) as [w1|] eqn:E; [|discriminate].
    destruct (link_wire_step _ _ _ E) as [x Hx].
    destruct (IH _ _ H) as [y Hy]. exists (x ++ y). now rewrite Hy, Hx, app_assoc.
Qed.

Lemma link_in_flight_run cc o acts : forall w w' m,
  link_inv cc o w -> link_in_flight w = Some m -> run acts w = Some w' ->
  (wire w' = wire w /\ link_in_flight w' = Some m) \/
  exists rest, wire w' = wire w ++ m :: rest.
Proof.
  induction acts as [|a acts IH]; simpl; intros w w' m I F H.
  - injection H as <-. now left.
  - destruct (step a w) as [w1|] eqn:E; [|discriminate].
    pose proof (link_inv_step _ _ _ _ _ I E) as I1.
    destruct (link_in_flight_step _ _ _ _ _ _ I F E) as [(W & F1)|W].
    + destruct (IH _ _ _ I1 F1 H) as [(W' & F')|(rest & W')].
      * left. split; congruence.
      * right. exists rest. congruence.
    + right. destruct (link_wire_run _ _ _ H) as [y Hy]. exists y.
      rewrite Hy, W, <- app_assoc. reflexivity.
Qed.

(** The queue of a client made by [NewClient]. *)
Lemma link_NewClient_cache newTLS dial cc o w0 :
  NewClient newTLS dial cc o = Ok w0 ->
  Z.of_nat (Chan.cap (cache (cli w0))) = MaxCacheMessages cc /\ Chan.buf (cache (cli w0)) = [].
Proof.
  unfold NewClient.
  destruct (NewClientConn newTLS dial cc) as [k|e|]; try discriminate.
  destruct (MaxCacheMessages cc <? 0)%Z eqn:EB; [discriminate|].
  simpl. intros H. injection H as <-. simpl. apply Z.ltb_ge in EB. split; [lia|reflexivity].
Qed.

(** A send on a full queue waits, or fails because the client is closing. *)
Lemma link_Send_full rnd c msg :
  Chan.full (cache c) ->
  Send rnd c msg = None \/ Send rnd c msg = Some (c, ErrClientAlreadyClosed).
Proof.
  unfold Chan.full. intros F.
  destruct (link_Send_cases rnd c msg) as [(E & _)|[(E & C)|(E & _)]]; auto. congruence.
Qed.

Lemma link_full_length cc o w :
  link_inv cc o w -> 0 < Chan.cap (cache (cli w)) ->
  length (Chan.buf (cache (cli w))) = Chan.cap (cache (cli w)) ->
  Chan.full (cache (cli w)).
Proof.
  intros [I1 I2 I3 I4 I5 I6 I7 I8 I9] P L. unfold Chan.full, Chan.can_send.
  destruct I4 as (_ & R & _).
  destruct (Chan.recvq (cache (cli w))) eqn:Rq.
  - destruct (R eq_refl) as (_ & _ & B & _). rewrite B in L. simpl in L. lia.
  - simpl. apply Nat.ltb_ge. lia.
Qed.

(** The backoff policy [connecting] starts with. *)
Lemma link_backoff_start c :
  bf (fst (connecting_start c)) = backoff.mk time.Second (Interval (cfg c)) 1.6%Q 0.
Proof. reflexivity. Qed.

End Link.

(** ** The properties *)

Lemma mqtt_reachable_inv (w : mqtt.World) :
  mqtt_reachable w -> mqtt_inv (mqtt.cfg (mqtt.cli w)) (mqtt.obs (mqtt.cli w)) w.
Proof.
  intros (newTLS & cc & o & w0 & acts & HN & HR).
  pose proof (mqtt_inv_run _ _ _ _ _ (mqtt_NewClient_inv _ _ _ _ HN) HR) as I.
  now rewrite (mqtt_inv_cfg _ _ _ I), (mqtt_inv_obs _ _ _ I).
Qed.

Lemma link_reachable_inv (w : link.World) :
  link_reachable w -> link_inv (link.cfg (link.cli w)) (link.obs (link.cli w)) w.
Proof.
  intros (newTLS & dial & cc & o & w0 & acts & HN & HR).
  pose proof (link_inv_run _ _ _ _ _ (link_NewClient_inv _ _ _ _ _ HN) HR) as I.
  now rewrite (link_inv_cfg _ _ _ I), (link_inv_obs _ _ _ I).
Qed.

(** Proofs about a concrete client run the model.  [evaluate] gives an
    existential the value its equation computes. *)
Ltac computed := vm_compute; reflexivity.

Ltac evaluate :=
  lazymatch goal with
  | |- exists w, ?t = Ok w /\ @?Q w =>
      let r := eval vm_compute in t in
      lazymatch r with Ok ?v => exists v; split; [computed|] end
  | |- exists w, ?t = Some w /\ @?Q w =>
      let r := eval vm_compute in t in
      lazymatch r with Some ?v => exists v; split; [computed|] end
  end.

Ltac mqtt_reached newTLS cc o acts :=
  let r := eval vm_compute in (mqtt.NewClient newTLS cc o) in
  lazymatch r with
  | Ok ?w0 => exists newTLS, cc, o, w0, acts; split; computed
  end.

Ltac mqtt_closed_by newTLS cc o before after :=
  let r := eval vm_compute in (mqtt.NewClient newTLS cc o) in
  lazymatch r with
  | Ok ?w0 =>
      let r1 := eval vm_compute in (mqtt.run before w0) in
      lazymatch r1 with
      | Some ?w1 =>
          let r2 := eval vm_compute in (mqtt.step mqtt.AWait w1) in
          lazymatch r2 with
          | Some ?w2 =>
              exists newTLS, cc, o, w0, before, w1, w2, after; repeat split; computed
          end
      end
  end.

(** C1, as stated, fails: [Close()] has returned on a client whose queue
    has a free slot; a later [Send] whose [select] draws the queue case
    returns [nil], and its packet is in the queue. *)
Lemma Send_after_Close_enqueues :
  exists w0, mqtt.NewClient no_tls mqtt_config None = Ok w0 /\
  exists w, mqtt.run mqtt_closing w0 = Some w /\
    mqtt_after_Close w /\
    exists c', mqtt.Send 0 (mqtt.cli w) packet_A = Some (c', None) /\
               Chan.buf (mqtt.cache c') = [packet_A].
Proof.
  evaluate. evaluate. split.
  - mqtt_closed_by no_tls mqtt_config (@None mqtt.Observer)
      [mqtt.AKill; mqtt.ASup (Fire 0%Q 0)] (@nil mqtt.Action).
  - lazymatch goal with
    | |- exists c', ?t = _ /\ _ =>
        let r := eval vm_compute in t in
        lazymatch r with Some (?c, _) => exists c end
    end.
    split; computed.
Qed.

(** C1, amended: once [Close()] has returned, [Send] never blocks.  It
    returns the "client is closed" error and leaves the queue alone, or,
    only when the queue has a free slot, it may instead put the message at
    the end of the queue and return [nil].  So holds for both packages. *)
Theorem Send_after_Close :
  (forall (w : mqtt.World) (rnd : nat) (pkt : mqtt.Packet),
     mqtt_after_Close w ->
     mqtt.Send rnd (mqtt.cli w) pkt = Some (mqtt.cli w, mqtt.ErrClientAlreadyClosed) \/
     (length (Chan.buf (mqtt.cache (mqtt.cli w))) < Chan.cap (mqtt.cache (mqtt.cli w)) /\
      exists c', mqtt.Send rnd (mqtt.cli w) pkt = Some (c', None) /\
                 Chan.buf (mqtt.cache c') = Chan.buf (mqtt.cache (mqtt.cli w)) ++ [pkt] /\
                 Chan.cap (mqtt.cache c') = Chan.cap (mqtt.cache (mqtt.cli w)))) /\
  (forall (w : link.World) (rnd : nat) (msg : link.Message),
     link_after_Close w ->
     link.Send rnd (link.cli w) msg = Some (link.cli w, link.ErrClientAlreadyClosed) \/
     (length (Chan.buf (link.cache (link.cli w))) < Chan.cap (link.cache (link.cli w)) /\
      exists c', link.Send rnd (link.cli w) msg = Some (c', None) /\
                 Chan.buf (link.cache c') = Chan.buf (link.cache (link.cli w)) ++ [msg] /\
                 Chan.cap (link.cache c') = Chan.cap (link.cache (link.cli w)))).
Proof.
  split.
  - intros w rnd pkt A. now apply mqtt_Send_after_Close.
  - intros w rnd msg A. now apply link_Send_after_Close.
Qed.

(** The closed mqtt client of above, whose queue is then filled: [Send]
    fails with "client is closed" whatever the draw. *)
Lemma Send_after_Close_witness :
  exists w0, mqtt.NewClient no_tls mqtt_config None = Ok w0 /\
  exists w, mqtt.run (mqtt_closing ++ [mqtt.ASend 0 packet_A]) w0 = Some w /\
    mqtt_after_Close w /\
    (mqtt.Send 0 (mqtt.cli w) packet_B = Some (mqtt.cli w, mqtt.ErrClientAlreadyClosed) \/
     (length (Chan.buf (mqtt.cache (mqtt.cli w))) < Chan.cap (mqtt.cache (mqtt.cli w)) /\
      exists c', mqtt.Send 0 (mqtt.cli w) packet_B = Some (c', None) /\
                 Chan.buf (mqtt.cache c') = Chan.buf (mqtt.cache (mqtt.cli w)) ++ [packet_B] /\
                 Chan.cap (mqtt.cache c') = Chan.cap (mqtt.cache (mqtt.cli w)))).
Proof.
  evaluate. evaluate.
  lazymatch goal with
  | |- mqtt_after_Close ?w /\ _ =>
      assert (mqtt_after_Close w) as A
        by (mqtt_closed_by no_tls mqtt_config (@None mqtt.Observer)
              [mqtt.AKill; mqtt.ASup (Fire 0%Q 0)] [mqtt.ASend 0 packet_A]);
      split; [exact A|exact (proj1 Send_after_Close w 0 packet_B A)]
  end.
Defined.

(** Every connect attempt adds to the current time the delay the policy
    gives for the attempt count, and counts the attempt. *)
Lemma mqtt_attempt_delay (w w' : mqtt.World) (now : time.Time) (rnd : nat) :
  mqtt_reachable w ->
  mqtt.step (mqtt.ASup (Fire now rnd)) w = Some w' ->
  mqtt.pc (mqtt.sup w') = Connecting ->
  mqtt.next (mqtt.sup w') =
    Some (time.Add now
            (backoff_delay time.Second (mqtt.Interval (mqtt.cfg (mqtt.cli w))) 1.6%Q
                           (mqtt_attempt w))) /\
  mqtt_attempt w' = S (mqtt_attempt w).
Proof.
  intros R H P. destruct (mqtt_reachable_inv w R) as [_ _ _ _ _ _ (B1 & B2 & B3) _ _].
  simpl in H. unfold mqtt.connecting_step in H.
  destruct (mqtt.pc (mqtt.sup w)); try discriminate.
  destruct (select rnd _) as [[|]|]; try discriminate; injection H as <-;
    simpl in P; try discriminate.
  simpl. unfold mqtt_attempt, backoff.Attempt, backoff.ForAttempt, backoff_delay. simpl.
  rewrite B1, B2, B3. split; reflexivity.
Qed.

(** C2: the delays of any number of connect attempts that fail in a row,
    from the start of the supervisor, are min(maximum, minimum x
    factor^n) for n = 0, 1, 2, ..., with the minimum one second, the
    maximum the configured interval and the factor 1.6; at any later
    moment the delay of an attempt is the same formula at the attempt
    count; and with a maximum of ten seconds, five failures in a row give
    1, 1.6, 2.56, 4.1 and 6.55 seconds (rounded to hundredths), none above
    ten seconds. *)
Theorem backoff_delays :
  (forall newTLS cc o w0 xs w,
     mqtt.NewClient newTLS cc o = Ok w0 ->
     mqtt.run (mqtt_failures xs) w0 = Some w ->
     Forall2 Qeq (mqtt_delays (mqtt_failures xs) w0)
                 (map (backoff_delay time.Second (mqtt.Interval cc) 1.6%Q)
                      (seq 0 (length xs)))) /\
  (forall w w' now rnd,
     mqtt_reachable w ->
     mqtt.step (mqtt.ASup (Fire now rnd)) w = Some w' ->
     mqtt.pc (mqtt.sup w') = Connecting ->
     mqtt.next (mqtt.sup w') =
       Some (time.Add now
               (backoff_delay time.Second (mqtt.Interval (mqtt.cfg (mqtt.cli w))) 1.6%Q
                              (mqtt_attempt w))) /\
     mqtt_attempt w' = S (mqtt_attempt w)) /\
  (exists w0, mqtt.NewClient no_tls mqtt_config None = Ok w0 /\
   exists w, mqtt.run (mqtt_failures five_failures) w0 = Some w /\
     map centiseconds (mqtt_delays (mqtt_failures five_failures) w0)
       = [100; 160; 256; 410; 655]%Z /\
     Forall (fun d => (d <= 10 * time.Second)%Q)
            (mqtt_delays (mqtt_failures five_failures) w0)).
Proof.
  split; [|split].
  - intros newTLS cc o w0 xs w HN HR.
    destruct (mqtt_NewClient_inv _ _ _ _ HN) as [_ _ _ _ _ _ (B1 & B2 & B3) _ _].
    assert (mqtt.pc (mqtt.sup w0) = Waiting /\ mqtt_attempt w0 = 0) as [P A].
    { unfold mqtt.NewClient in HN.
      match type of HN with context [let (_, _) := ?x in _] => destruct x as [tc [e|]] end;
        [discriminate|].
      destruct (mqtt.BufferSize cc <? 0)%Z; [discriminate|].
      injection HN as <-. split; reflexivity. }
    destruct (mqtt_failures_delays _ xs w0 w P B1 B2 B3 HR) as (F & _).
    now rewrite A in F.
  - intros w w' now rnd. apply mqtt_attempt_delay.
  - evaluate. evaluate. split; [computed|].
    match goal with
    | |- Forall _ ?l =>
        let l' := eval vm_compute in l in
        replace l with l' by (vm_compute; reflexivity)
    end.
    repeat (constructor; [vm_compute; discriminate|]). constructor.
Qed.

(** The second of two failures: the delay is the policy's for attempt
    count one. *)
Lemma backoff_delays_witness :
  exists w0, mqtt.NewClient no_tls mqtt_config None = Ok w0 /\
  exists w, mqtt.run (mqtt_failures [(0%Q, 0, "connection refused"%string)]) w0 = Some w /\
  exists w', mqtt.step (mqtt.ASup (Fire 1000000000%Q 0)) w = Some w' /\
    mqtt.pc (mqtt.sup w') = Connecting /\
    mqtt_attempt w = 1 /\
    mqtt.next (mqtt.sup w') =
      Some (time.Add 1000000000%Q
              (backoff_delay time.Second (mqtt.Interval (mqtt.cfg (mqtt.cli w))) 1.6%Q
                             (mqtt_attempt w))) /\
    mqtt_attempt w' = S (mqtt_attempt w).
Proof.
  evaluate. evaluate. evaluate. split; [computed|]. split; [computed|].
  lazymatch goal with
  | |- mqtt.next (mqtt.sup ?w') = Some (time.Add _ (backoff_delay _ _ _ (mqtt_attempt ?w))) /\ _ =>
      apply (proj1 (proj2 backoff_delays) w w' 1000000000%Q 0);
        [ mqtt_reached no_tls mqtt_config (@None mqtt.Observer)
            (mqtt_failures [(0%Q, 0, "connection refused"%string)])
        | computed | computed ]
  end.
Defined.

(** C3: an action that is not the return of a successful [connect()]
    never lowers the attempt count, so the count never decreases while
    connect attempts keep failing; the return of a successful [connect()]
    sets it to zero; hence the count goes down only then.  So holds for
    both packages. *)
Theorem attempt_count_resets_on_success_only :
  (forall a w w',
     mqtt.step a w = Some w' ->
     (mqtt_connected a = false -> mqtt_attempt w <= mqtt_attempt w') /\
     (mqtt_connected a = true -> mqtt_attempt w' = 0) /\
     (mqtt_attempt w' < mqtt_attempt w -> mqtt_connected a = true)) /\
  (forall acts w w',
     mqtt.run acts w = Some w' ->
     forallb (fun a => negb (mqtt_connected a)) acts = true ->
     mqtt_attempt w <= mqtt_attempt w') /\
  (forall a w w',
     link.step a w = Some w' ->
     (link_connected a = false -> link_attempt w <= link_attempt w') /\
     (link_connected a = true -> link_attempt w' = 0) /\
     (link_attempt w' < link_attempt w -> link_connected a = true)) /\
  (forall acts w w',
     link.run acts w = Some w' ->
     forallb (fun a => negb (link_connected a)) acts = true ->
     link_attempt w <= link_attempt w').
Proof.
  repeat split.
  - intros C. destruct (mqtt_attempt_step _ _ _ H) as [(X & _)|(_ & [A|A])]; [congruence|lia|lia].
  - intros C. destruct (mqtt_attempt_step _ _ _ H) as [(_ & A)|(X & _)]; [exact A|congruence].
  - intros L. destruct (mqtt_attempt_step _ _ _ H) as [(X & _)|(_ & [A|A])]; [exact X|lia|lia].
  - intros acts w w'. apply mqtt_attempt_run.
  - intros C. destruct (link_attempt_step _ _ _ H) as [(X & _)|(_ & [A|A])]; [congruence|lia|lia].
  - intros C. destruct (link_attempt_step _ _ _ H) as [(_ & A)|(X & _)]; [exact A|congruence].
  - intros L. destruct (link_attempt_step _ _ _ H) as [(X & _)|(_ & [A|A])]; [exact X|lia|lia].
  - intros acts w w'. apply link_attempt_run.
Qed.

(** Over the five failures the count only grows: from zero to five. *)
Lemma attempt_count_witness :
  exists w0, mqtt.NewClient no_tls mqtt_config None = Ok w0 /\
  exists w, mqtt.run (mqtt_failures five_failures) w0 = Some w /\
    forallb (fun a => negb (mqtt_connected a)) (mqtt_failures five_failures) = true /\
    mqtt_attempt w0 = 0 /\ mqtt_attempt w = 5 /\
    mqtt_attempt w0 <= mqtt_attempt w.
Proof.
  evaluate. evaluate. split; [computed|]. split; [computed|]. split; [computed|].
  lazymatch goal with
  | |- mqtt_attempt ?w0 <= mqtt_attempt ?w =>
      apply (proj1 (proj2 attempt_count_resets_on_success_only)
               (mqtt_failures five_failures) w0 w); computed
  end.
Defined.

Lemma mqtt_session_end (w w' : mqtt.World) (m : mqtt.Packet) (now : time.Time)
    (ev : session.Event) :
  mqtt_reachable w -> mqtt_in_flight w = Some m ->
  mqtt.step (mqtt.ASup (Session now ev)) w = Some w' ->
  mqtt.pc (mqtt.sup w') = Waiting ->
  mqtt.curr (mqtt.sup w') = Some m /\ mqtt.wire w' = mqtt.wire w.
Proof.
  intros R F H P. pose proof (mqtt_reachable_inv w R) as I.
  pose proof (mqtt_inv_step _ _ _ _ _ I H) as I'.
  destruct (mqtt_in_flight_step _ _ _ _ _ _ I F H) as [(W & F')|W].
  - split; [|exact W]. destruct I' as [_ _ _ K _ _ _ _ _]. rewrite P in K. simpl in K.
    destruct (chan_ok_idle _ _ K) as [_ Hh].
    unfold mqtt_in_flight in F'. rewrite current_fst, Hh in F'. exact F'.
  - exfalso. simpl in H. unfold mqtt.connecting_step in H.
    destruct (mqtt.pc (mqtt.sup w)); try discriminate.
    destruct (session.sending_step ev _ _) as [[c q wr|c q]|]; try discriminate.
    + injection H as <-. simpl in P. discriminate.
    + destruct (mqtt.loop_head _ _). injection H as <-. simpl in W.
      rewrite app_nil_r in W. apply (f_equal (@length _)) in W.
      rewrite length_app in W. simpl in W. lia.
Qed.

Lemma link_session_end (w w' : link.World) (m : link.Message) (now : time.Time)
    (ev : session.Event) :
  link_reachable w -> link_in_flight w = Some m ->
  link.step (link.ASup (Session now ev)) w = Some w' ->
  link.pc (link.sup w') = Waiting ->
  link.curr (link.sup w') = Some m /\ link.wire w' = link.wire w.
Proof.
  intros R F H P. pose proof (link_reachable_inv w R) as I.
  pose proof (link_inv_step _ _ _ _ _ I H) as I'.
  destruct (link_in_flight_step _ _ _ _ _ _ I F H) as [(W & F')|W].
  - split; [|exact W]. destruct I' as [_ _ _ K _ _ _ _ _]. rewrite P in K. simpl in K.
    destruct (chan_ok_idle _ _ K) as [_ Hh].
    unfold link_in_flight in F'. rewrite current_fst, Hh in F'. exact F'.
  - exfalso. simpl in H. unfold link.connecting_step in H.
    destruct (link.pc (link.sup w)); try discriminate.
    destruct (session.sending_step ev _ _) as [[c q wr|c q]|]; try discriminate.
    + injection H as <-. simpl in P. discriminate.
    + destruct (link.loop_head _ _). injection H as <-. simpl in W.
      rewrite app_nil_r in W. apply (f_equal (@length _)) in W.
      rewrite length_app in W. simpl in W. lia.
Qed.

(** C4: a message in flight when its session ends is the supervisor's
    current message afterwards, with nothing written; and whatever happens
    from a moment at which a message is in flight, either nothing has been
    written yet and that message is still in flight (so it is what the
    next session starts with), or the first thing written since is that
    message: no message of the queue goes before it.  So holds for both
    packages. *)
Theorem in_flight_message_goes_first :
  (forall (w : mqtt.World) (m : mqtt.Packet),
     mqtt_reachable w -> mqtt_in_flight w = Some m ->
     (forall now ev w',
        mqtt.step (mqtt.ASup (Session now ev)) w = Some w' ->
        mqtt.pc (mqtt.sup w') = Waiting ->
        mqtt.curr (mqtt.sup w') = Some m /\ mqtt.wire w' = mqtt.wire w) /\
     (forall acts w',
        mqtt.run acts w = Some w' ->
        (mqtt.wire w' = mqtt.wire w /\ mqtt_in_flight w' = Some m) \/
        exists rest, mqtt.wire w' = mqtt.wire w ++ m :: rest)) /\
  (forall (w : link.World) (m : link.Message),
     link_reachable w -> link_in_flight w = Some m ->
     (forall now ev w',
        link.step (link.ASup (Session now ev)) w = Some w' ->
        link.pc (link.sup w') = Waiting ->
        link.curr (link.sup w') = Some m /\ link.wire w' = link.wire w) /\
     (forall acts w',
        link.run acts w = Some w' ->
        (link.wire w' = link.wire w /\ link_in_flight w' = Some m) \/
        exists rest, link.wire w' = link.wire w ++ m :: rest)).
Proof.
  split.
  - intros w m R F. split.
    + intros now ev w'. now apply mqtt_session_end.
    + intros acts w'. eapply mqtt_in_flight_run; [|exact F]. now apply mqtt_reachable_inv.
  - intros w m R F. split.
    + intros now ev w'. now apply link_session_end.
    + intros acts w'. eapply link_in_flight_run; [|exact F]. now apply link_reachable_inv.
Qed.

(** The scenario of the spec: [packet_A] is in flight when its session
    fails, [packet_B] waits in the queue; the second session writes
    [packet_A], then [packet_B]. *)
Lemma in_flight_witness :
  exists w0, mqtt.NewClient no_tls mqtt_config None = Ok w0 /\
  exists w, mqtt.run mqtt_first_session w0 = Some w /\
  exists w', mqtt.run mqtt_second_session w = Some w' /\
    mqtt_in_flight w = Some packet_A /\
    Chan.buf (mqtt.cache (mqtt.cli w)) = [packet_B] /\
    mqtt.wire w = [] /\ mqtt.wire w' = [packet_A; packet_B] /\
    ((mqtt.wire w' = mqtt.wire w /\ mqtt_in_flight w' = Some packet_A) \/
     exists rest, mqtt.wire w' = mqtt.wire w ++ packet_A :: rest).
Proof.
  evaluate. evaluate. evaluate.
  split; [computed|]. split; [computed|]. split; [computed|]. split; [computed|].
  lazymatch goal with
  | |- (mqtt.wire ?w' = mqtt.wire ?w /\ _) \/ _ =>
      apply (proj2 (proj1 in_flight_message_goes_first w packet_A
                      ltac:(mqtt_reached no_tls mqtt_config (@None mqtt.Observer)
                              mqtt_first_session)
                      ltac:(computed))
                   mqtt_second_session w');
      computed
  end.
Defined.

(** C5, as stated, fails: the queue is full, the context is cancelled, and
    shutdown has begun; [SendContext] can return "client is closed", which
    is not the context's error. *)
Lemma SendContext_may_report_closed :
  exists w0, link.NewClient no_tls dial_ok link_config None = Ok w0 /\
  exists w, link.run link_full_dying w0 = Some w /\
    Chan.full (link.cache (link.cli w)) /\
    context.Done cancelled = true /\
    link.SendContext 1 (link.cli w) cancelled message_B
      = Some (link.cli w, link.ErrClientAlreadyClosed) /\
    link.ErrClientAlreadyClosed <> context.Err cancelled.
Proof.
  evaluate. evaluate.
  split; [computed|]. split; [computed|]. split; [computed|]. discriminate.
Qed.

(** C5, amended: with the context done and the queue full, [SendContext]
    returns at once and leaves the queue alone; it returns the context's
    error, or, only when shutdown has begun as well, possibly the "client
    is closed" error. *)
Theorem SendContext_done_on_full_queue :
  forall (rnd : nat) (c : link.Client) (ctx : context.Context) (msg : link.Message),
    context.Done ctx = true ->
    Chan.full (link.cache c) ->
    exists err,
      link.SendContext rnd c ctx msg = Some (c, err) /\
      err <> None /\
      (err = context.Err ctx \/
       (tomb.Dying (link.tomb c) = true /\ err = link.ErrClientAlreadyClosed)) /\
      (tomb.Dying (link.tomb c) = false -> err = context.Err ctx).
Proof.
  intros rnd c ctx msg D F. unfold Chan.full in F.
  destruct (link_SendContext_cases rnd c ctx msg)
    as [(E & _ & X & _)|[(E & X)|[(E & _)|(E & X)]]]; try congruence.
  - exists (context.Err ctx). split; [exact E|]. split; [|split; auto].
    unfold context.Done in D. destruct (context.Err ctx); [discriminate|discriminate].
  - exists link.ErrClientAlreadyClosed. split; [exact E|]. split; [discriminate|].
    split; [now right|congruence].
Qed.

(** The full queue of above before shutdown begins: the error is the
    context's. *)
Lemma SendContext_witness :
  exists w0, link.NewClient no_tls dial_ok link_config None = Ok w0 /\
  exists w, link.run [link.ASend 0 message_A] w0 = Some w /\
    context.Done cancelled = true /\
    Chan.full (link.cache (link.cli w)) /\
    exists err,
      link.SendContext 0 (link.cli w) cancelled message_B = Some (link.cli w, err) /\
      err <> None /\
      (err = context.Err cancelled \/
       (tomb.Dying (link.tomb (link.cli w)) = true /\ err = link.ErrClientAlreadyClosed)) /\
      (tomb.Dying (link.tomb (link.cli w)) = false -> err = context.Err cancelled).
Proof.
  evaluate. evaluate. split; [computed|]. split; [computed|].
  apply (SendContext_done_on_full_queue 0 _ cancelled message_B); computed.
Defined.

(** C6: the capacity of the queue is the configured one from [NewClient]
    on; at every moment the buffer holds no more messages than that; a
    [Send] on a full queue blocks or fails with "client is closed", and
    leaves the queue alone; and a queue of at least one slot is full
    exactly when the buffer holds as many messages as the capacity.  So
    holds for both packages. *)
Theorem queue_never_exceeds_capacity :
  (forall newTLS cc o w0,
     mqtt.NewClient newTLS cc o = Ok w0 ->
     Z.of_nat (Chan.cap (mqtt.cache (mqtt.cli w0))) = mqtt.BufferSize cc /\
     forall acts w,
       mqtt.run acts w0 = Some w ->
       Chan.cap (mqtt.cache (mqtt.cli w)) = Chan.cap (mqtt.cache (mqtt.cli w0)) /\
       length (Chan.buf (mqtt.cache (mqtt.cli w))) <= Chan.cap (mqtt.cache (mqtt.cli w)) /\
       (forall rnd pkt,
          Chan.full (mqtt.cache (mqtt.cli w)) ->
          mqtt.Send rnd (mqtt.cli w) pkt = None \/
          mqtt.Send rnd (mqtt.cli w) pkt = Some (mqtt.cli w, mqtt.ErrClientAlreadyClosed)) /\
       (0 < Chan.cap (mqtt.cache (mqtt.cli w)) ->
        length (Chan.buf (mqtt.cache (mqtt.cli w))) = Chan.cap (mqtt.cache (mqtt.cli w)) ->
        Chan.full (mqtt.cache (mqtt.cli w)))) /\
  (forall newTLS dial cc o w0,
     link.NewClient newTLS dial cc o = Ok w0 ->
     Z.of_nat (Chan.cap (link.cache (link.cli w0))) = link.MaxCacheMessages cc /\
     forall acts w,
       link.run acts w0 = Some w ->
       Chan.cap (link.cache (link.cli w)) = Chan.cap (link.cache (link.cli w0)) /\
       length (Chan.buf (link.cache (link.cli w))) <= Chan.cap (link.cache (link.cli w)) /\
       (forall rnd msg,
          Chan.full (link.cache (link.cli w)) ->
          link.Send rnd (link.cli w) msg = None \/
          link.Send rnd (link.cli w) msg = Some (link.cli w, link.ErrClientAlreadyClosed)) /\
       (0 < Chan.cap (link.cache (link.cli w)) ->
        length (Chan.buf (link.cache (link.cli w))) = Chan.cap (link.cache (link.cli w)) ->
        Chan.full (link.cache (link.cli w)))).
Proof.
  split.
  - intros newTLS cc o w0 HN.
    split; [exact (proj1 (mqtt_NewClient_cache _ _ _ _ HN))|].
    intros acts w HR.
    pose proof (mqtt_NewClient_inv _ _ _ _ HN) as I0.
    pose proof (mqtt_inv_run _ _ _ _ _ I0 HR) as I.
    split; [rewrite (mqtt_inv_cap _ _ _ I), (mqtt_inv_cap _ _ _ I0); reflexivity|].
    split; [exact (proj1 (mqtt_inv_chan _ _ _ I))|].
    split; [intros rnd pkt; apply mqtt_Send_full|].
    now apply (mqtt_full_length cc o).
  - intros newTLS dial cc o w0 HN.
    split; [exact (proj1 (link_NewClient_cache _ _ _ _ _ HN))|].
    intros acts w HR.
    pose proof (link_NewClient_inv _ _ _ _ _ HN) as I0.
    pose proof (link_inv_run _ _ _ _ _ I0 HR) as I.
    split; [rewrite (link_inv_cap _ _ _ I), (link_inv_cap _ _ _ I0); reflexivity|].
    split; [exact (proj1 (link_inv_chan _ _ _ I))|].
    split; [intros rnd msg; apply link_Send_full|].
    now apply (link_full_length cc o).
Qed.

(** The mqtt client of capacity one with [packet_A] queued: a second
    [Send] blocks. *)
Lemma queue_capacity_witness :
  exists w0, mqtt.NewClient no_tls mqtt_config None = Ok w0 /\
  exists w, mqtt.run [mqtt.ASend 0 packet_A] w0 = Some w /\
    Chan.cap (mqtt.cache (mqtt.cli w)) = 1 /\
    Chan.buf (mqtt.cache (mqtt.cli w)) = [packet_A] /\
    mqtt.Send 0 (mqtt.cli w) packet_B = None /\
    Z.of_nat (Chan.cap (mqtt.cache (mqtt.cli w0))) = mqtt.BufferSize mqtt_config /\
    length (Chan.buf (mqtt.cache (mqtt.cli w))) <= Chan.cap (mqtt.cache (mqtt.cli w)).
Proof.
  evaluate. evaluate.
  split; [computed|]. split; [computed|]. split; [computed|].
  lazymatch goal with
  | |- Z.of_nat (Chan.cap (mqtt.cache (mqtt.cli ?w0))) = _ /\
       length (Chan.buf (mqtt.cache (mqtt.cli ?w))) <= _ =>
      pose proof (proj1 queue_never_exceeds_capacity no_tls mqtt_config None w0
                    ltac:(computed)) as [C R];
      split; [exact C|];
      exact (proj1 (proj2 (R [mqtt.ASend 0 packet_A] w ltac:(computed))))
  end.
Defined.

(** C7: when [connect()] fails, the supervisor hands the error to
    [onError], which calls the observer's [OnError] when there is an
    observer and does nothing when there is none; the supervisor is then
    back at the [select] of its loop with the timer set, and makes the next
    attempt when the timer ticks unless the client is dying.  And the
    supervisor returns only by the dying case of that [select]. *)
Theorem connect_failure_is_reported_and_retried :
  (forall (w : mqtt.World) (now : time.Time) (e : string),
     mqtt_reachable w -> mqtt.pc (mqtt.sup w) = Connecting ->
     exists w' evs t,
       mqtt.step (mqtt.ASup (Connect now (session.Refused e))) w = Some w' /\
       mqtt.pc (mqtt.sup w') = Waiting /\
       mqtt.timer (mqtt.sup w') = time.At t /\
       mqtt.trace w' =
         mqtt.trace w ++ mqtt.onError (mqtt.cli w) "failed to connect" (Some e) ++ evs /\
       (forall err, ~ In (mqtt.CallOnError err) evs) /\
       (forall o, mqtt.obs (mqtt.cli w) = Some o ->
          mqtt.onError (mqtt.cli w) "failed to connect" (Some e)
            = [mqtt.LogError "failed to connect" (Some e); mqtt.CallOnError (Some e)]) /\
       (mqtt.obs (mqtt.cli w) = None ->
          mqtt.onError (mqtt.cli w) "failed to connect" (Some e) = []) /\
       (forall now' rnd,
          time.ticked now' (mqtt.timer (mqtt.sup w')) = true ->
          exists w'', mqtt.step (mqtt.ASup (Fire now' rnd)) w' = Some w'' /\
            (tomb.Dying (mqtt.tomb (mqtt.cli w')) = false ->
             mqtt.pc (mqtt.sup w'') = Connecting /\
             mqtt_attempt w'' = S (mqtt_attempt w')))) /\
  (forall a w w',
     mqtt.step a w = Some w' ->
     mqtt.pc (mqtt.sup w) <> Stopped -> mqtt.pc (mqtt.sup w') = Stopped ->
     tomb.Dying (mqtt.tomb (mqtt.cli w)) = true /\ exists now rnd, a = mqtt.ASup (Fire now rnd)).
Proof.
  split.
  - intros w now e R P.
    destruct (mqtt_reachable_inv w R) as [_ _ _ _ _ _ _ N _].
    destruct (mqtt.next (mqtt.sup w)) as [t|] eqn:Nx; [|exfalso; apply N; auto].
    destruct (mqtt_connect_refused w now e P) as (w' & evs & H & P' & C & T & NC & Tm).
    destruct (Tm t Nx) as [Tm' _].
    exists w', evs, (time.Add now (time.Sub t now)).
    split; [exact H|]. split; [exact P'|]. split; [exact Tm'|]. split; [exact T|].
    split; [exact NC|].
    destruct (mqtt_onError_cases (mqtt.cli w) "failed to connect" (Some e)) as [O1 O2].
    split; [intros o Ho; now apply (O1 o e)|]. split; [intros Ho; apply O2; now left|].
    intros now' rnd Tk. now apply mqtt_retry.
  - intros a w w'. apply mqtt_stops_when_dying.
Qed.

(** An observed mqtt client whose first connect attempt fails. *)
Lemma connect_failure_witness :
  exists w0, mqtt.NewClient no_tls mqtt_config (Some mqtt_observer) = Ok w0 /\
  exists w, mqtt.run [mqtt.ASup (Fire 0%Q 0)] w0 = Some w /\
  exists w',
    mqtt.step (mqtt.ASup (Connect 0%Q (session.Refused "connection refused"))) w = Some w' /\
    mqtt.pc (mqtt.sup w) = Connecting /\
    In (mqtt.CallOnError (Some "connection refused"%string)) (mqtt.trace w') /\
    exists w1 evs t,
       mqtt.step (mqtt.ASup (Connect 0%Q (session.Refused "connection refused"))) w = Some w1 /\
       mqtt.pc (mqtt.sup w1) = Waiting /\ mqtt.timer (mqtt.sup w1) = time.At t /\
       mqtt.trace w1 =
         mqtt.trace w ++
         mqtt.onError (mqtt.cli w) "failed to connect" (Some "connection refused"%string) ++ evs.
Proof.
  evaluate. evaluate. evaluate. split; [computed|]. split; [vm_compute; tauto|].
  lazymatch goal with
  | |- exists w1 evs t, mqtt.step _ ?w = _ /\ _ =>
      destruct (proj1 connect_failure_is_reported_and_retried w 0%Q
                  "connection refused"%string
                  ltac:(mqtt_reached no_tls mqtt_config (Some mqtt_observer)
                          [mqtt.ASup (Fire 0%Q 0)])
                  ltac:(computed))
        as (w1 & evs & t & H & P & T & Tr & _);
      exists w1, evs, t; auto
  end.
Defined.

(** C8, as stated, fails: the minimum delay is no configuration option
    (nor is the factor), so the three settings are not all options. *)
Lemma minimum_and_factor_are_fixed :
  ~ (mqtt_configurable backoff.Min /\ mqtt_configurable backoff.Max /\
     mqtt_configurable backoff.Factor).
Proof.
  intros ((c1 & c2 & H) & _). apply H. reflexivity.
Qed.

(** C8, amended: the supervisor starts its backoff state with a minimum
    of one second, the configured interval as the maximum, and the factor
    1.6, and keeps these three for as long as it runs; so the maximum is a
    configuration option, and the minimum and the factor are not.  So
    holds for both packages. *)
Theorem backoff_settings :
  (forall c : mqtt.Client,
     mqtt.bf (fst (mqtt.connecting_start c))
       = backoff.mk time.Second (mqtt.Interval (mqtt.cfg c)) 1.6%Q 0) /\
  (forall w : mqtt.World,
     mqtt_reachable w ->
     backoff.Min (mqtt.bf (mqtt.sup w)) = time.Second /\
     backoff.Max (mqtt.bf (mqtt.sup w)) = mqtt.Interval (mqtt.cfg (mqtt.cli w)) /\
     backoff.Factor (mqtt.bf (mqtt.sup w)) = 1.6%Q) /\
  (mqtt_configurable backoff.Max /\ ~ mqtt_configurable backoff.Min /\
   ~ mqtt_configurable backoff.Factor) /\
  (forall c : link.Client,
     link.bf (fst (link.connecting_start c))
       = backoff.mk time.Second (link.Interval (link.cfg c)) 1.6%Q 0) /\
  (forall w : link.World,
     link_reachable w ->
     backoff.Min (link.bf (link.sup w)) = time.Second /\
     backoff.Max (link.bf (link.sup w)) = link.Interval (link.cfg (link.cli w)) /\
     backoff.Factor (link.bf (link.sup w)) = 1.6%Q) /\
  (link_configurable backoff.Max /\ ~ link_configurable backoff.Min /\
   ~ link_configurable backoff.Factor).
Proof.
  split; [intros c; apply mqtt_backoff_start|].
  split; [intros w R; exact (mqtt_inv_bf _ _ _ (mqtt_reachable_inv w R))|].
  split.
  { split; [|split].
    - exists (mqtt.mkClient mqtt_config None None mqtt.NewCounter (Chan.make 1) [] tomb.zero).
      exists (mqtt.mkClient
                (mqtt.mkClientConfig "client" 1%Z (20 * time.Second)%Q no_certificate)
                None None mqtt.NewCounter (Chan.make 1) [] tomb.zero).
      vm_compute. discriminate.
    - intros (c1 & c2 & H). apply H. reflexivity.
    - intros (c1 & c2 & H). apply H. reflexivity. }
  split; [intros c; apply link_backoff_start|].
  split; [intros w R; exact (link_inv_bf _ _ _ (link_reachable_inv w R))|].
  split; [|split].
  - exists (link.mkClient link_config (grpc.mk "" [] false) None (grpc.mk "" [] false)
                          (Chan.make 1) [] tomb.zero).
    exists (link.mkClient
              (link.mkClientConfig "" "" "" 0%Z 1%Z (20 * time.Second)%Q no_certificate)
              (grpc.mk "" [] false) None (grpc.mk "" [] false) (Chan.make 1) [] tomb.zero).
    vm_compute. discriminate.
  - intros (c1 & c2 & H). apply H. reflexivity.
  - intros (c1 & c2 & H). apply H. reflexivity.
Qed.

(** After five failed attempts of the mqtt client configured with ten
    seconds, the settings are one second, ten seconds and 1.6. *)
Lemma backoff_settings_witness :
  exists w0, mqtt.NewClient no_tls mqtt_config None = Ok w0 /\
  exists w, mqtt.run (mqtt_failures five_failures) w0 = Some w /\
    backoff.Min (mqtt.bf (mqtt.sup w)) = time.Second /\
    backoff.Max (mqtt.bf (mqtt.sup w)) = mqtt.Interval (mqtt.cfg (mqtt.cli w)) /\
    backoff.Factor (mqtt.bf (mqtt.sup w)) = 1.6%Q.
Proof.
  evaluate. evaluate.
  apply (proj1 (proj2 backoff_settings)).
  mqtt_reached no_tls mqtt_config (@None mqtt.Observer) (mqtt_failures five_failures).
Defined.

(** C9: when [Publish] returns, the packet it handed to [Send] carries
    the next identifier of the client's counter if [qos] is not zero and
    [pid] is zero, and [pid] itself otherwise (the counter is then left
    alone); its [qos], topic, payload, retain and dup are the caller's;
    and when [Publish] returns [nil] this packet is the one that went into
    the queue, otherwise the queue is as before. *)
Theorem Publish_packet_fields :
  forall (rnd : nat) (c c' : mqtt.Client) (qos : mqtt.QOS) (topic : string)
         (payload : list Byte.byte) (pid : mqtt.ID) (retain dup : bool) (err : error),
    mqtt.Publish rnd c qos topic payload pid retain dup = Some (c', err) ->
    exists p : mqtt.PublishPacket,
      (qos <> 0%N /\ pid = 0%N ->
         mqtt.Publish_ID p = fst (mqtt.NextID (mqtt.ids c)) /\
         mqtt.ids c' = snd (mqtt.NextID (mqtt.ids c))) /\
      (~ (qos <> 0%N /\ pid = 0%N) ->
         mqtt.Publish_ID p = pid /\ mqtt.ids c' = mqtt.ids c) /\
      mqtt.Publish_Dup p = dup /\
      mqtt.Publish_Message p = mqtt.mkMessage qos topic payload retain /\
      (err = None -> mqtt.cache c' = Chan.send (mqtt.PktPublish p) (mqtt.cache c)) /\
      (err <> None -> mqtt.cache c' = mqtt.cache c).
Proof.
  intros rnd c c' qos topic payload pid retain dup err H.
  pose proof (mqtt_Publish_packet_spec c qos topic payload pid retain dup) as S.
  unfold mqtt.Publish in H.
  destruct (mqtt.Publish_packet c qos topic payload pid retain dup) as [p ids'].
  simpl in S. destruct S as (S1 & S2 & S3 & S4).
  exists p.
  destruct (mqtt_Send_cases rnd (mqtt.set_ids ids' c) (mqtt.PktPublish p))
    as [(E & _)|[(E & _)|(E & _)]]; rewrite E in H; try discriminate;
    injection H as <- <-; simpl; repeat split; auto; try apply S1; try apply S2; auto;
    try congruence; try discriminate.
Qed.

(** A publish at quality of service one with no identifier given takes
    the counter's next identifier, 1, and goes into the queue. *)
Lemma Publish_witness :
  exists w0, mqtt.NewClient no_tls mqtt_config None = Ok w0 /\
  exists r, mqtt.Publish 0 (mqtt.cli w0) 1%N "a" [] 0%N false false = Some r /\
    snd r = None /\
    exists p : mqtt.PublishPacket,
      (1%N <> 0%N /\ 0%N = 0%N ->
         mqtt.Publish_ID p = fst (mqtt.NextID (mqtt.ids (mqtt.cli w0))) /\
         mqtt.ids (fst r) = snd (mqtt.NextID (mqtt.ids (mqtt.cli w0)))) /\
      (~ (1%N <> 0%N /\ 0%N = 0%N) ->
         mqtt.Publish_ID p = 0%N /\ mqtt.ids (fst r) = mqtt.ids (mqtt.cli w0)) /\
      mqtt.Publish_Dup p = false /\
      mqtt.Publish_Message p = mqtt.mkMessage 1%N "a" [] false /\
      (snd r = None ->
         mqtt.cache (fst r) = Chan.send (mqtt.PktPublish p) (mqtt.cache (mqtt.cli w0))) /\
      (snd r <> None -> mqtt.cache (fst r) = mqtt.cache (mqtt.cli w0)).
Proof.
  evaluate. evaluate. split; [computed|].
  lazymatch goal with
  | |- context [mqtt.cache (fst ?r)] =>
      apply (Publish_packet_fields 0 _ (fst r) 1%N "a"%string [] 0%N false false (snd r));
      computed
  end.
Defined.

(** C10: with no observer, [onPublish], [onPuback], [onMsg] and [onAck]
    return [nil] and do nothing; with no observer, or with a [nil] error,
    [onError] and [onErr] do nothing: no log line, no call of the
    observer. *)
Theorem observer_helpers_are_nil_safe :
  (forall (c : mqtt.Client) (pkt : mqtt.PublishPacket),
     mqtt.obs c = None -> mqtt.onPublish c pkt = (None, [])) /\
  (forall (c : mqtt.Client) (pkt : mqtt.PubackPacket),
     mqtt.obs c = None -> mqtt.onPuback c pkt = (None, [])) /\
  (forall (c : mqtt.Client) (msg : string) (err : error),
     mqtt.obs c = None \/ err = None -> mqtt.onError c msg err = []) /\
  (forall (c : link.Client) (msg : link.Message),
     link.obs c = None -> link.onMsg c msg = (None, [])) /\
  (forall (c : link.Client) (msg : link.Message),
     link.obs c = None -> link.onAck c msg = (None, [])) /\
  (forall (c : link.Client) (msg : string) (err : error),
     link.obs c = None \/ err = None -> link.onErr c msg err = []).
Proof.
  repeat split.
  - intros c pkt H. unfold mqtt.onPublish. now rewrite H.
  - intros c pkt H. unfold mqtt.onPuback. now rewrite H.
  - intros c msg err [H|H]; unfold mqtt.onError; rewrite H; [reflexivity|].
    now destruct (mqtt.obs c).
  - intros c msg H. unfold link.onMsg. now rewrite H.
  - intros c msg H. unfold link.onAck. now rewrite H.
  - intros c msg err [H|H]; unfold link.onErr; rewrite H; [reflexivity|].
    now destruct (link.obs c).
Qed.

(** The unobserved mqtt client, and an observed one given a [nil] error. *)
Lemma observer_helpers_witness :
  exists w0, mqtt.NewClient no_tls mqtt_config None = Ok w0 /\
  exists w1, mqtt.NewClient no_tls mqtt_config (Some mqtt_observer) = Ok w1 /\
    mqtt.obs (mqtt.cli w0) = None /\
    mqtt.onPublish (mqtt.cli w0) mqtt.NewPublish = (None, []) /\
    mqtt.onError (mqtt.cli w0) "failed to connect" (Some "connection refused"%string) = [] /\
    mqtt.onError (mqtt.cli w1) "failed to connect" None = [].
Proof.
  evaluate. evaluate. split; [computed|].
  destruct observer_helpers_are_nil_safe as (H1 & _ & H3 & _).
  split; [apply H1; computed|].
  split; apply H3; [left|right]; computed.
Defined.

(** ** More of the two files *)

(** X1: [Send] blocks exactly when the queue cannot take the message and
    the client is not dying.  When it returns [nil] the message went into
    the queue and nothing else of the client changed; when it returns an
    error, the error is "client is closed", the client is dying, and
    nothing changed.  So holds for both packages. *)
Theorem Send_outcomes :
  (forall (rnd : nat) (c : mqtt.Client) (pkt : mqtt.Packet),
     (mqtt.Send rnd c pkt = None <->
        Chan.full (mqtt.cache c) /\ tomb.Dying (mqtt.tomb c) = false) /\
     (forall c' err,
        mqtt.Send rnd c pkt = Some (c', err) ->
        (err = None /\ Chan.can_send (mqtt.cache c) = true /\
         c' = mqtt.set_cache (Chan.send pkt (mqtt.cache c)) c) \/
        (err = mqtt.ErrClientAlreadyClosed /\ tomb.Dying (mqtt.tomb c) = true /\ c' = c))) /\
  (forall (rnd : nat) (c : link.Client) (msg : link.Message),
     (link.Send rnd c msg = None <->
        Chan.full (link.cache c) /\ tomb.Dying (link.tomb c) = false) /\
     (forall c' err,
        link.Send rnd c msg = Some (c', err) ->
        (err = None /\ Chan.can_send (link.cache c) = true /\
         c' = link.set_cache (Chan.send msg (link.cache c)) c) \/
        (err = link.ErrClientAlreadyClosed /\ tomb.Dying (link.tomb c) = true /\ c' = c))).
Proof.
  split.
  - intros rnd c pkt. unfold Chan.full.
    destruct (mqtt_Send_cases rnd c pkt) as [(E & F & D)|[(E & C)|(E & D)]]; rewrite E.
    + split; [split; [tauto|]|]; auto. intros c' err X. discriminate.
    + split; [split; [discriminate|intros [X _]; congruence]|].
      intros c' err X. injection X as <- <-. left. auto.
    + split; [split; [discriminate|intros [_ X]; congruence]|].
      intros c' err X. injection X as <- <-. right. auto.
  - intros rnd c msg. unfold Chan.full.
    destruct (link_Send_cases rnd c msg) as [(E & F & D)|[(E & C)|(E & D)]]; rewrite E.
    + split; [split; [tauto|]|]; auto. intros c' err X. discriminate.
    + split; [split; [discriminate|intros [X _]; congruence]|].
      intros c' err X. injection X as <- <-. left. auto.
    + split; [split; [discriminate|intros [_ X]; congruence]|].
      intros c' err X. injection X as <- <-. right. auto.
Qed.

(** A fresh mqtt client takes a first packet and blocks on a second. *)
Lemma Send_outcomes_witness :
  exists w0, mqtt.NewClient no_tls mqtt_config None = Ok w0 /\
  exists r, mqtt.Send 0 (mqtt.cli w0) packet_A = Some r /\
    mqtt.Send 0 (fst r) packet_B = None /\
    ((snd r = None /\ Chan.can_send (mqtt.cache (mqtt.cli w0)) = true /\
      fst r = mqtt.set_cache (Chan.send packet_A (mqtt.cache (mqtt.cli w0))) (mqtt.cli w0)) \/
     (snd r = mqtt.ErrClientAlreadyClosed /\ tomb.Dying (mqtt.tomb (mqtt.cli w0)) = true /\
      fst r = mqtt.cli w0)).
Proof.
  evaluate. evaluate. split; [computed|].
  lazymatch goal with
  | |- (snd ?r = None /\ _ = _ /\ fst ?r = mqtt.set_cache _ ?c) \/ _ =>
      apply (proj2 (proj1 Send_outcomes 0 c packet_A) (fst r) (snd r)); computed
  end.
Defined.

(** X2: with a context that is not done, [SendContext] is [Send]. *)
Theorem SendContext_with_live_context :
  forall (rnd : nat) (c : link.Client) (ctx : context.Context) (msg : link.Message),
    context.Done ctx = false ->
    link.SendContext rnd c ctx msg = link.Send rnd c msg.
Proof.
  intros rnd c ctx msg D. unfold link.SendContext, link.Send, select, ready. rewrite D.
  destruct (Chan.can_send (link.cache c)), (tomb.Dying (link.tomb c));
    cbn [filter map fst snd length];
    destruct (rnd mod _) as [|[|[|k]]]; reflexivity.
Qed.

Lemma SendContext_live_witness :
  exists w0, link.NewClient no_tls dial_ok link_config None = Ok w0 /\
    context.Done (context.mk None) = false /\
    link.SendContext 0 (link.cli w0) (context.mk None) message_A
      = link.Send 0 (link.cli w0) message_A.
Proof.
  evaluate. split; [computed|].
  apply SendContext_with_live_context. computed.
Defined.

(** X3: [onSuback] returns [nil] exactly when no return code of the
    suback is [QOSFailure], wherever in the list a failure stands;
    otherwise it returns [ErrClientSubscriptionFailed]. *)
Theorem onSuback_fails_iff_a_code_failed :
  forall (QOSFailure : mqtt.QOS) (text : string) (c : mqtt.Client) (pkt : mqtt.SubackPacket),
    (mqtt.onSuback QOSFailure text c pkt = None <->
       ~ In QOSFailure (mqtt.Suback_ReturnCodes pkt)) /\
    (mqtt.onSuback QOSFailure text c pkt = mqtt.ErrClientSubscriptionFailed text <->
       In QOSFailure (mqtt.Suback_ReturnCodes pkt)).
Proof.
  intros failure text c [id codes]. unfold mqtt.onSuback. simpl. clear id.
  induction codes as [|code rest [IH1 IH2]]; simpl.
  - split; split; intros H; try tauto; try discriminate.
  - destruct (N.eqb_spec code failure) as [->|N].
    + split; split; intros H; try tauto; try discriminate; auto.
    + split; split; intros H.
      * apply IH1 in H. tauto.
      * apply IH1. tauto.
      * right. now apply IH2.
      * apply IH2. destruct H; [congruence|assumption].
Qed.

(** X4: [onConnack] returns [nil] exactly when the packet is a connack
    whose return code is [ConnectionAccepted]; a packet that is no connack
    gives [ErrClientExpectedConnack], and a connack with another code
    gives the error made from the code's text. *)
Theorem onConnack_accepts_only_an_accepted_connack :
  forall (asConnack : mqtt.Packet -> option mqtt.ConnackPacket)
         (accepted : mqtt.ConnackCode) (code_text : mqtt.ConnackCode -> string)
         (sprintf : string -> string) (text : string)
         (c : mqtt.Client) (pkt : mqtt.Packet),
    (mqtt.onConnack asConnack accepted code_text sprintf text c pkt = None <->
       exists p, asConnack pkt = Some p /\ mqtt.Connack_ReturnCode p = accepted) /\
    (asConnack pkt = None ->
       mqtt.onConnack asConnack accepted code_text sprintf text c pkt
         = mqtt.ErrClientExpectedConnack text) /\
    (forall p, asConnack pkt = Some p -> mqtt.Connack_ReturnCode p <> accepted ->
       mqtt.onConnack asConnack accepted code_text sprintf text c pkt
         = mqtt.fmt_Errorf sprintf (code_text (mqtt.Connack_ReturnCode p))).
Proof.
  intros asConnack accepted code_text sprintf text c pkt. unfold mqtt.onConnack.
  destruct (asConnack pkt) as [p|].
  - destruct (N.eqb_spec (mqtt.Connack_ReturnCode p) accepted) as [E|N]; simpl.
    + split; [split; [intros _; now exists p|reflexivity]|].
      split; [discriminate|]. intros q Hq. injection Hq as <-. tauto.
    + split; [split; [discriminate|intros (q & Hq & E); injection Hq as <-; tauto]|].
      split; [discriminate|]. intros q Hq _. now injection Hq as <-.
  - split; [split; [discriminate|intros (q & Hq & _); discriminate]|].
    split; [reflexivity|discriminate].
Qed.

(** A connack refused with code 5, read off a packet of kind 2. *)
Lemma onConnack_witness :
  exists w0, mqtt.NewClient no_tls mqtt_config None = Ok w0 /\
    let asConnack (pkt : mqtt.Packet) :=
      match pkt with
      | mqtt.PktOther 2 => Some (mqtt.mkConnack 5%N)
      | _ => None
      end in
    asConnack packet_A = None /\
    mqtt.onConnack asConnack 0%N (fun _ => "not authorized"%string) (fun s => s)
                   "expected connack" (mqtt.cli w0) packet_A
      = mqtt.ErrClientExpectedConnack "expected connack" /\
    mqtt.onConnack asConnack 0%N (fun _ => "not authorized"%string) (fun s => s)
                   "expected connack" (mqtt.cli w0) (mqtt.PktOther 2)
      = Some "not authorized"%string.
Proof.
  evaluate. intros asConnack. split; [reflexivity|]. split; [|reflexivity].
  apply (proj1 (proj2 (onConnack_accepts_only_an_accepted_connack
                         asConnack 0%N (fun _ => "not authorized"%string) (fun s => s)
                         "expected connack" _ packet_A))).
  reflexivity.
Defined.

(** X5: [Subscribe] always takes the next identifier of the counter, also
    when it then fails; the packet it hands to [Send] carries that
    identifier and the subscriptions as given; it goes into the queue when
    [Subscribe] returns [nil], and otherwise the error is "client is
    closed" and the queue is as before. *)
Theorem Subscribe_takes_an_identifier :
  forall (rnd : nat) (c c' : mqtt.Client) (s : list mqtt.Subscription) (err : error),
    mqtt.Subscribe rnd c s = Some (c', err) ->
    mqtt.ids c' = snd (mqtt.NextID (mqtt.ids c)) /\
    (err = None ->
       mqtt.cache c' =
         Chan.send (mqtt.PktSubscribe (mqtt.mkSubscribe (fst (mqtt.NextID (mqtt.ids c))) s))
                   (mqtt.cache c)) /\
    (err <> None -> err = mqtt.ErrClientAlreadyClosed /\ mqtt.cache c' = mqtt.cache c).
Proof.
  intros rnd c c' s err H. unfold mqtt.Subscribe, mqtt.Subscribe_packet in H.
  destruct (mqtt.NextID (mqtt.ids c)) as [id ids'] eqn:E. simpl.
  destruct (mqtt_Send_cases rnd (mqtt.set_ids ids' c)
              (mqtt.PktSubscribe (mqtt.mkSubscribe id s)))
    as [(X & _)|[(X & _)|(X & _)]]; rewrite X in H; try discriminate;
    injection H as <- <-; simpl; repeat split; auto; try congruence; try discriminate.
Qed.

Lemma Subscribe_witness :
  exists w0, mqtt.NewClient no_tls mqtt_config None = Ok w0 /\
  exists r, mqtt.Subscribe 0 (mqtt.cli w0) [mqtt.mkSubscription "a" 1%N] = Some r /\
    Chan.buf (mqtt.cache (fst r))
      = [mqtt.PktSubscribe (mqtt.mkSubscribe 1%N [mqtt.mkSubscription "a" 1%N])] /\
    mqtt.ids (fst r) = snd (mqtt.NextID (mqtt.ids (mqtt.cli w0))) /\
    (snd r = None ->
       mqtt.cache (fst r) =
         Chan.send (mqtt.PktSubscribe
                      (mqtt.mkSubscribe (fst (mqtt.NextID (mqtt.ids (mqtt.cli w0))))
                                        [mqtt.mkSubscription "a" 1%N]))
                   (mqtt.cache (mqtt.cli w0))) /\
    (snd r <> None ->
       snd r = mqtt.ErrClientAlreadyClosed /\
       mqtt.cache (fst r) = mqtt.cache (mqtt.cli w0)).
Proof.
  evaluate. evaluate. split; [computed|].
  lazymatch goal with
  | |- mqtt.ids (fst ?r) = snd (mqtt.NextID (mqtt.ids ?c)) /\ _ =>
      apply (Subscribe_takes_an_identifier 0 c (fst r) [mqtt.mkSubscription "a" 1%N] (snd r));
      computed
  end.
Defined.

(** X6: [NewClientConn] either returns the error of loading the
    certificate, without dialling, or dials the configured address.  The
    options it dials with start with the maximum message size; they hold
    [WithInsecure] exactly when no certificate is configured, transport
    credentials only when one is, and per-call credentials exactly when a
    username or a password is configured, and then those two. *)
Theorem NewClientConn_options :
  forall (newTLS : utils.Certificate -> option tls.Config * error)
         (dial : string -> list grpc.DialOption -> Created grpc.ClientConn)
         (cc : link.ClientConfig),
    (exists e, certificate_configured (link.Certificate cc) = true /\
               snd (newTLS (link.Certificate cc)) = Some e /\
               forall dial', link.NewClientConn newTLS dial' cc = Err e) \/
    (exists opts,
       link.NewClientConn newTLS dial cc = dial (link.Address cc) opts /\
       hd_error opts
         = Some (grpc.WithDefaultCallOptions_MaxCallRecvMsgSize (link.MaxMessageSize cc)) /\
       (In grpc.WithInsecure opts <-> certificate_configured (link.Certificate cc) = false) /\
       (forall creds, In (grpc.WithTransportCredentials creds) opts ->
          certificate_configured (link.Certificate cc) = true /\
          (utils.InsecureSkipVerify (link.Certificate cc) = false ->
           tls.ServerName creds = utils.Name (link.Certificate cc))) /\
       (forall u p, In (grpc.WithPerRPCCredentials u p) opts <->
          u = link.Username cc /\ p = link.Password cc /\
          (link.Username cc <> ""%string \/ link.Password cc <> ""%string))).
Proof.
  intros newTLS dial cc. unfold link.NewClientConn, certificate_configured.
  assert (forall a b : string,
            negb (a =? "")%string || negb (b =? "")%string = true <->
            a <> ""%string \/ b <> ""%string) as NE.
  { intros a b. destruct (String.eqb_spec a ""), (String.eqb_spec b ""); simpl;
      intuition (try discriminate; try congruence). }
  destruct (negb (utils.Key (link.Certificate cc) =? "")%string
            || negb (utils.Cert (link.Certificate cc) =? "")%string) eqn:K.
  - destruct (newTLS (link.Certificate cc)) as [[tlsCfg|] [e|]] eqn:T; simpl.
    + left. exists e. auto.
    + right.
      destruct (negb (link.Username cc =? "")%string
                || negb (link.Password cc =? "")%string) eqn:U;
        eexists; (split; [reflexivity|]); (split; [reflexivity|]); simpl.
      * apply NE in U. split; [split; [intros [X|[X|[X|[]]]]; discriminate|discriminate]|].
        split.
        -- intros creds [X|[X|[X|[]]]]; try discriminate. injection X as <-.
           split; [reflexivity|]. intros V. now rewrite V.
        -- intros u p. split.
           ++ intros [X|[X|[X|[]]]]; try discriminate. injection X as <- <-. auto.
           ++ intros (-> & -> & _). auto.
      * split; [split; [intros [X|[X|[]]]; discriminate|discriminate]|].
        split.
        -- intros creds [X|[X|[]]]; try discriminate. injection X as <-.
           split; [reflexivity|]. intros V. now rewrite V.
        -- intros u p. split.
           ++ intros [X|[X|[]]]; discriminate.
           ++ intros (_ & _ & X). apply NE in X. congruence.
    + left. exists e. auto.
    + right.
      destruct (negb (link.Username cc =? "")%string
                || negb (link.Password cc =? "")%string) eqn:U;
        eexists; (split; [reflexivity|]); (split; [reflexivity|]); simpl.
      * apply NE in U. split; [split; [intros [X|[X|[]]]; discriminate|discriminate]|].
        split.
        -- intros creds [X|[X|[]]]; discriminate.
        -- intros u p. split.
           ++ intros [X|[X|[]]]; try discriminate. injection X as <- <-. auto.
           ++ intros (-> & -> & _). auto.
      * split; [split; [intros [X|[]]; discriminate|discriminate]|].
        split.
        -- intros creds [X|[]]; discriminate.
        -- intros u p. split.
           ++ intros [X|[]]; discriminate.
           ++ intros (_ & _ & X). apply NE in X. congruence.
  - right.
    destruct (negb (link.Username cc =? "")%string
              || negb (link.Password cc =? "")%string) eqn:U;
      eexists; (split; [reflexivity|]); (split; [reflexivity|]); simpl.
    + apply NE in U. split; [split; auto|].
      split.
      * intros creds [X|[X|[X|[]]]]; discriminate.
      * intros u p. split.
        -- intros [X|[X|[X|[]]]]; try discriminate. injection X as <- <-. auto.
        -- intros (-> & -> & _). auto.
    + split; [split; auto|].
      split.
      * intros creds [X|[X|[]]]; discriminate.
      * intros u p. split.
        -- intros [X|[X|[]]]; discriminate.
        -- intros (_ & _ & X). apply NE in X. congruence.
Qed.

(** The link client of above has no certificate and no username: it is
    dialled without transport security. *)
Lemma NewClientConn_witness :
  exists conn, link.NewClientConn no_tls dial_ok link_config = Ok conn /\
    certificate_configured (link.Certificate link_config) = false /\
    In grpc.WithInsecure (grpc.options conn).
Proof.
  lazymatch goal with
  | |- exists conn, ?t = Ok conn /\ _ =>
      let r := eval vm_compute in t in
      lazymatch r with Ok ?v => exists v; split; [computed|] end
  end.
  split; [computed|].
  destruct (NewClientConn_options no_tls dial_ok link_config)
    as [(e & K & _)|(opts & E & _ & (_ & I) & _)].
  - vm_compute in K. discriminate K.
  - vm_compute in E. injection E as <-. apply I. computed.
Defined.

(** X7: what [NewClient] of package mqtt comes to.  It returns the error
    of loading the certificate exactly when a certificate is configured
    and loading it fails; it panics exactly when there is no such error
    and the buffer size is negative; otherwise it returns a client with
    the configuration and observer given, an empty queue of the configured
    size, a tomb that is alive, and its supervisor about to make the first
    connect attempt at once.  Without a certificate the TLS loader is not
    consulted and the client has no TLS configuration. *)
Theorem mqtt_NewClient_outcomes :
  forall (newTLS : utils.Certificate -> option tls.Config * error)
         (cc : mqtt.ClientConfig) (o : option mqtt.Observer),
    let tls_error :=
      if certificate_configured (mqtt.Certificate cc)
      then snd (newTLS (mqtt.Certificate cc)) else None in
    (forall e, mqtt.NewClient newTLS cc o = Err e <-> tls_error = Some e) /\
    (mqtt.NewClient newTLS cc o = Panic <->
       tls_error = None /\ (mqtt.BufferSize cc < 0)%Z) /\
    (forall w0, mqtt.NewClient newTLS cc o = Ok w0 ->
       tls_error = None /\ (0 <= mqtt.BufferSize cc)%Z /\
       mqtt.cfg (mqtt.cli w0) = cc /\ mqtt.obs (mqtt.cli w0) = o /\
       mqtt.tls (mqtt.cli w0) =
         (if certificate_configured (mqtt.Certificate cc)
          then fst (newTLS (mqtt.Certificate cc)) else None) /\
       mqtt.cache (mqtt.cli w0) = Chan.make (Z.to_nat (mqtt.BufferSize cc)) /\
       mqtt.tomb (mqtt.cli w0) = tomb.zero /\
       mqtt.wire w0 = [] /\
       forall now rnd, exists w1,
         mqtt.step (mqtt.ASup (Fire now rnd)) w0 = Some w1 /\
         mqtt.pc (mqtt.sup w1) = Connecting).
Proof.
  intros newTLS cc o. unfold mqtt.NewClient, certificate_configured. simpl.
  destruct (negb (utils.Key (mqtt.Certificate cc) =? "")%string
            || negb (utils.Cert (mqtt.Certificate cc) =? "")%string);
    [destruct (newTLS (mqtt.Certificate cc)) as [tc [e|]]|]; simpl.
  - split; [intros e'; split; congruence|].
    split; [split; [discriminate|intros [X _]; discriminate]|]. discriminate.
  - destruct (Z.ltb_spec (mqtt.BufferSize cc) 0).
    + split; [intros e'; split; discriminate|]. split; [tauto|discriminate].
    + split; [intros e'; split; discriminate|].
      split; [split; [discriminate|lia]|].
      intros w0 H0. injection H0 as <-. simpl. repeat split; auto.
      intros now rnd. eexists. unfold mqtt.connecting_step. simpl.
      unfold select, ready. simpl. split; reflexivity.
  - destruct (Z.ltb_spec (mqtt.BufferSize cc) 0).
    + split; [intros e'; split; discriminate|]. split; [tauto|discriminate].
    + split; [intros e'; split; discriminate|].
      split; [split; [discriminate|lia]|].
      intros w0 H0. injection H0 as <-. simpl. repeat split; auto.
      intros now rnd. eexists. unfold mqtt.connecting_step. simpl.
      unfold select, ready. simpl. split; reflexivity.
Qed.

(** A certificate whose loading fails: no client. *)
Lemma mqtt_NewClient_witness :
  let failing (_ : utils.Certificate) : option tls.Config * error :=
    (None, Some "open client.key: no such file"%string) in
  let cc := mqtt.mkClientConfig "client" 1%Z time.Second
              (utils.mk "client.key" "" "" false) in
  (if certificate_configured (mqtt.Certificate cc)
   then snd (failing (mqtt.Certificate cc)) else None)
    = Some "open client.key: no such file"%string /\
  mqtt.NewClient failing cc None = Err "open client.key: no such file".
Proof.
  intros failing cc. split; [reflexivity|].
  apply (proj1 (mqtt_NewClient_outcomes failing cc None)). reflexivity.
Defined.

(** X8: what [NewClient] of package link comes to.  It dials first: an
    error of [NewClientConn] is returned as it is; with a connection made,
    a negative queue size panics; otherwise the client holds that
    connection, the configuration and observer given, an empty queue of
    the configured size and a tomb that is alive, and its supervisor is
    about to make the first connect attempt at once. *)
Theorem link_NewClient_outcomes :
  forall (newTLS : utils.Certificate -> option tls.Config * error)
         (dial : string -> list grpc.DialOption -> Created grpc.ClientConn)
         (cc : link.ClientConfig) (o : option link.Observer),
    (forall e, link.NewClient newTLS dial cc o = Err e <->
               link.NewClientConn newTLS dial cc = Err e) /\
    (forall conn, link.NewClientConn newTLS dial cc = Ok conn ->
       (link.MaxCacheMessages cc < 0)%Z -> link.NewClient newTLS dial cc o = Panic) /\
    (forall w0, link.NewClient newTLS dial cc o = Ok w0 ->
       (0 <= link.MaxCacheMessages cc)%Z /\
       link.NewClientConn newTLS dial cc = Ok (link.conn (link.cli w0)) /\
       link.cli_ (link.cli w0) = link.conn (link.cli w0) /\
       link.cfg (link.cli w0) = cc /\ link.obs (link.cli w0) = o /\
       link.cache (link.cli w0) = Chan.make (Z.to_nat (link.MaxCacheMessages cc)) /\
       link.tomb (link.cli w0) = tomb.zero /\
       link.wire w0 = [] /\
       forall now rnd, exists w1,
         link.step (link.ASup (Fire now rnd)) w0 = Some w1 /\
         link.pc (link.sup w1) = Connecting).
Proof.
  intros newTLS dial cc o. unfold link.NewClient.
  destruct (link.NewClientConn newTLS dial cc) as [conn|e|].
  - destruct (Z.ltb_spec (link.MaxCacheMessages cc) 0).
    + split; [intros e'; split; discriminate|]. split; [reflexivity|discriminate].
    + split; [intros e'; split; discriminate|]. split; [intros; lia|].
      intros w0 H0. injection H0 as <-. simpl. repeat split; auto.
      intros now rnd. eexists. unfold link.connecting_step. simpl.
      unfold select, ready. simpl. split; reflexivity.
  - split; [intros e'; split; intros X; injection X as ->; reflexivity|].
    split; discriminate.
  - split; [intros e'; split; discriminate|]. split; discriminate.
Qed.

(** A dial that fails: no client. *)
Lemma link_NewClient_witness :
  let refusing (_ : string) (_ : list grpc.DialOption) : Created grpc.ClientConn :=
    Err "dial failed" in
  link.NewClientConn no_tls refusing link_config = Err "dial failed" /\
  link.NewClient no_tls refusing link_config None = Err "dial failed".
Proof.
  intros refusing. split; [reflexivity|].
  apply (proj1 (link_NewClient_outcomes no_tls refusing link_config None)). reflexivity.
Defined.

(** Every way one action can go, for a hypothesis [H : step a w = Some w']:
    afterwards [w'] is spelled out. *)
Ltac mqtt_sends H :=
  lazymatch type of H with
  | mqtt.with_cli _ (mqtt.Send ?rnd ?c ?pkt) = Some _ =>
      destruct (mqtt_Send_cases rnd c pkt) as [(?E & _)|[(?E & ?C)|(?E & ?D)]];
      rewrite E in H; try discriminate H; injection H as <-
  end.

Ltac mqtt_moves a H :=
  destruct a as [?rnd ?pkt|?rnd ?qos ?topic ?payload ?pid ?retain ?dup|?rnd ?s| | |?i];
  simpl in H;
  [ mqtt_sends H
  | unfold mqtt.Publish in H; destruct (mqtt.Publish_packet _ _ _ _ _ _ _) as [?p ?ids'];
    mqtt_sends H
  | unfold mqtt.Subscribe in H; destruct (mqtt.Subscribe_packet _ _) as [?p ?ids'];
    mqtt_sends H
  | injection H as <-
  | unfold mqtt.Close_Wait in H; destruct (tomb.Wait _) eqn:?W; [|discriminate H];
    injection H as <-
  | unfold mqtt.connecting_step in H;
    destruct (mqtt.pc (mqtt.sup _)) eqn:?P; destruct i as [?now ?rnd|?now ?r|?now ?ev];
    try discriminate H;
    [ destruct (select _ _) as [[|]|] eqn:?Sel; try discriminate H; injection H as <-
    | destruct r as [?x|?e]; [|unfold mqtt.loop_head in H; simpl in H;
                                destruct (mqtt.next (mqtt.sup _)) eqn:?Nx];
      injection H as <-
    | destruct (session.sending_step _ _ _) as [[?curr' ?q' ?wr|?curr' ?q']|] eqn:?Ss;
      try discriminate H;
      [|unfold mqtt.loop_head in H; simpl in H;
        destruct (mqtt.next (mqtt.sup _)) eqn:?Nx; destruct (mqtt.strm (mqtt.sup _)) eqn:?St];
      injection H as <- ] ].

Ltac link_sends H :=
  lazymatch type of H with
  | link.with_cli _ (link.Send ?rnd ?c ?msg) = Some _ =>
      destruct (link_Send_cases rnd c msg) as [(?E & _)|[(?E & ?C)|(?E & ?D)]];
      rewrite E in H; try discriminate H; injection H as <-
  | link.with_cli _ (link.SendContext ?rnd ?c ?ctx ?msg) = Some _ =>
      destruct (link_SendContext_cases rnd c ctx msg)
        as [(?E & _)|[(?E & ?C)|[(?E & ?D)|(?E & ?D)]]];
      rewrite E in H; try discriminate H; injection H as <-
  end.

Ltac link_moves a H :=
  destruct a as [?rnd ?msg|?rnd ?ctx ?msg| | |?i];
  simpl in H;
  [ link_sends H
  | link_sends H
  | injection H as <-
  | unfold link.Close_Wait in H; destruct (tomb.Wait _) eqn:?W; [|discriminate H];
    injection H as <-
  | unfold link.connecting_step in H;
    destruct (link.pc (link.sup _)) eqn:?P; destruct i as [?now ?rnd|?now ?r|?now ?ev];
    try discriminate H;
    [ destruct (select _ _) as [[|]|] eqn:?Sel; try discriminate H; injection H as <-
    | destruct r as [?x|?e]; [|unfold link.loop_head in H; simpl in H;
                                destruct (link.next (link.sup _)) eqn:?Nx];
      injection H as <-
    | destruct (session.sending_step _ _ _) as [[?curr' ?q' ?wr|?curr' ?q']|] eqn:?Ss;
      try discriminate H;
      [|unfold link.loop_head in H; simpl in H;
        destruct (link.next (link.sup _)) eqn:?Nx; destruct (link.strm (link.sup _)) eqn:?St];
      injection H as <- ] ].

(** The tomb along a run: the stop signal stays given, and no error is
    ever put in (the supervisor returns [nil], [Close] kills with [nil]). *)
Lemma mqtt_tomb_step a w w' :
  mqtt.step a w = Some w' ->
  (tomb.dying (mqtt.tomb (mqtt.cli w)) = true -> tomb.dying (mqtt.tomb (mqtt.cli w')) = true) /\
  (tomb.reason (mqtt.tomb (mqtt.cli w)) = None -> tomb.reason (mqtt.tomb (mqtt.cli w')) = None).
Proof.
  intros H. mqtt_moves a H; simpl; split; auto; intros R; rewrite R; reflexivity.
Qed.

Lemma mqtt_tomb_run acts : forall w w',
  mqtt.run acts w = Some w' ->
  (tomb.dying (mqtt.tomb (mqtt.cli w)) = true -> tomb.dying (mqtt.tomb (mqtt.cli w')) = true) /\
  (tomb.reason (mqtt.tomb (mqtt.cli w)) = None -> tomb.reason (mqtt.tomb (mqtt.cli w')) = None).
Proof.
  induction acts as [|a acts IH]; simpl; intros w w' H.
  - injection H as <-. auto.
  - destruct (mqtt.step a w) as [w1|] eqn:E; [|discriminate].
    destruct (mqtt_tomb_step _ _ _ E) as [D1 R1]. destruct (IH _ _ H) as [D2 R2]. auto.
Qed.

Lemma link_tomb_step a w w' :
  link.step a w = Some w' ->
  (tomb.dying (link.tomb (link.cli w)) = true -> tomb.dying (link.tomb (link.cli w')) = true) /\
  (tomb.reason (link.tomb (link.cli w)) = None -> tomb.reason (link.tomb (link.cli w')) = None) /\
  (grpc.closed (link.conn (link.cli w')) = true ->
   grpc.closed (link.conn (link.cli w)) = true \/ tomb.dead (link.tomb (link.cli w')) = true).
Proof.
  intros H. link_moves a H; simpl; repeat split; auto; try (intros R; rewrite R; reflexivity).
  intros _. right. unfold tomb.Wait in W. now destruct (tomb.dead (link.tomb (link.cli w))).
Qed.

Lemma link_tomb_run acts : forall w w',
  link.run acts w = Some w' ->
  (tomb.dying (link.tomb (link.cli w)) = true -> tomb.dying (link.tomb (link.cli w')) = true) /\
  (tomb.reason (link.tomb (link.cli w)) = None -> tomb.reason (link.tomb (link.cli w')) = None) /\
  (grpc.closed (link.conn (link.cli w')) = true ->
   grpc.closed (link.conn (link.cli w)) = true \/ tomb.dead (link.tomb (link.cli w')) = true).
Proof.
  induction acts as [|a acts IH]; simpl; intros w w' H.
  - injection H as <-. auto.
  - destruct (link.step a w) as [w1|] eqn:E; [|discriminate].
    destruct (link_tomb_step _ _ _ E) as (D1 & R1 & C1).
    destruct (IH _ _ H) as (D2 & R2 & C2).
    repeat split; auto.
    intros X. destruct (C2 X) as [Y|Y]; [|now right].
    destruct (C1 Y) as [Z|Z]; [now left|]. right.
    exact (link_dead_run _ _ _ H Z).
Qed.

(** A new client starts with a tomb that is alive. *)
Lemma mqtt_NewClient_tomb newTLS cc o w0 :
  mqtt.NewClient newTLS cc o = Ok w0 -> mqtt.tomb (mqtt.cli w0) = tomb.zero.
Proof.
  unfold mqtt.NewClient. intros H.
  repeat match type of H with
         | context [if ?b then _ else _] => destruct b
         | context [let (_, _) := ?x in _] => destruct x
         | context [match ?x with Some _ => _ | None => _ end] => destruct x
         end; try discriminate; injection H as <-; reflexivity.
Qed.

Lemma link_NewClient_tomb newTLS dial cc o w0 :
  link.NewClient newTLS dial cc o = Ok w0 -> link.tomb (link.cli w0) = tomb.zero.
Proof.
  unfold link.NewClient. intros H.
  destruct (link.NewClientConn newTLS dial cc); try discriminate.
  destruct (link.MaxCacheMessages cc <? 0)%Z; try discriminate.
  injection H as <-; reflexivity.
Qed.

(** X9: [Close] never returns an error: whenever the [Wait] of a [Close]
    returns, it returns [nil]; and in package link the connection is
    closed when [Close] returns, and, dialled open, is never closed before
    the supervisor has returned. *)
Theorem Close_returns_nil :
  (forall newTLS cc o w0 acts w err evs,
     mqtt.NewClient newTLS cc o = Ok w0 -> mqtt.run acts w0 = Some w ->
     mqtt.Close_Wait (mqtt.cli w) = Some (err, evs) -> err = None) /\
  (forall newTLS dial cc o w0 acts w,
     link.NewClient newTLS dial cc o = Ok w0 -> link.run acts w0 = Some w ->
     (forall c' err evs,
        link.Close_Wait (link.cli w) = Some (c', err, evs) ->
        err = None /\ grpc.closed (link.conn c') = true) /\
     (grpc.closed (link.conn (link.cli w0)) = false ->
      grpc.closed (link.conn (link.cli w)) = true ->
      link.pc (link.sup w) = Stopped)).
Proof.
  split.
  - intros newTLS cc o w0 acts w err evs HN HR HW.
    pose proof (mqtt_NewClient_tomb _ _ _ _ HN) as T.
    destruct (mqtt_tomb_run _ _ _ HR) as [_ R]. rewrite T in R. specialize (R eq_refl).
    unfold mqtt.Close_Wait, tomb.Wait in HW.
    destruct (tomb.dead (mqtt.tomb (mqtt.cli w))); [|discriminate].
    injection HW as <- _. exact R.
  - intros newTLS dial cc o w0 acts w HN HR.
    pose proof (link_NewClient_tomb _ _ _ _ _ HN) as T.
    destruct (link_tomb_run _ _ _ HR) as (_ & R & C). rewrite T in R. specialize (R eq_refl).
    split.
    + intros c' err evs HW. unfold link.Close_Wait, tomb.Wait in HW.
      destruct (tomb.dead (link.tomb (link.cli w))); [|discriminate].
      injection HW as <- <- _. split; [exact R|reflexivity].
    + intros O X. destruct (C X) as [Y|Y]; [congruence|].
      pose proof (link_inv_run _ _ _ _ _ (link_NewClient_inv _ _ _ _ _ HN) HR) as I.
      exact (proj1 (link_inv_dead _ _ _ I) Y).
Qed.

(** A closed mqtt client: [Wait] returned [nil]. *)
Lemma Close_returns_nil_witness :
  exists w0, mqtt.NewClient no_tls mqtt_config None = Ok w0 /\
  exists w, mqtt.run [mqtt.AKill; mqtt.ASup (Fire 0%Q 0)] w0 = Some w /\
  exists r, mqtt.Close_Wait (mqtt.cli w) = Some r /\ fst r = None.
Proof.
  evaluate.
  lazymatch goal with
  | |- exists w, mqtt.run ?acts ?w0 = Some w /\ _ =>
      let r := eval vm_compute in (mqtt.run acts w0) in
      lazymatch r with
      | Some ?v =>
          exists v; split; [computed|]; evaluate;
          lazymatch goal with
          | |- fst ?r = None =>
              apply (proj1 Close_returns_nil no_tls mqtt_config None w0 acts v
                       (fst r) (snd r)); computed
          end
      end
  end.
Defined.

(** X10: once [Close()] has returned, the supervisor makes no move at
    all: no connect attempt, no write, no log line can follow.  So holds
    for both packages. *)
Theorem supervisor_is_gone_after_Close :
  (forall (w : mqtt.World) (i : SupInput),
     mqtt_after_Close w -> mqtt.step (mqtt.ASup i) w = None) /\
  (forall (w : link.World) (i : SupInput),
     link_after_Close w -> link.step (link.ASup i) w = None).
Proof.
  split.
  - intros w i A. destruct (mqtt_after_Close_facts w A) as (_ & P & _).
    simpl. unfold mqtt.connecting_step. rewrite P. now destruct i.
  - intros w i A. destruct (link_after_Close_facts w A) as (_ & P & _).
    simpl. unfold link.connecting_step. rewrite P. now destruct i.
Qed.

Lemma supervisor_is_gone_witness :
  exists w0, mqtt.NewClient no_tls mqtt_config None = Ok w0 /\
  exists w, mqtt.run mqtt_closing w0 = Some w /\
    mqtt_after_Close w /\
    mqtt.step (mqtt.ASup (Fire 5000000000%Q 1)) w = None.
Proof.
  evaluate. evaluate.
  lazymatch goal with
  | |- mqtt_after_Close ?w /\ _ =>
      assert (mqtt_after_Close w) as A
        by (mqtt_closed_by no_tls mqtt_config (@None mqtt.Observer)
              [mqtt.AKill; mqtt.ASup (Fire 0%Q 0)] (@nil mqtt.Action));
      split; [exact A|exact (proj1 supervisor_is_gone_after_Close w _ A)]
  end.
Defined.

Lemma select_first {A : Type} (a : A) (rest : list (bool * A)) :
  select 0 ((true, a) :: rest) = Some a.
Proof.
  unfold select, ready.
  change (filter fst ((true, a) :: rest)) with ((true, a) :: filter fst rest).
  change (map snd ((true, a) :: filter fst rest)) with (a :: map snd (filter fst rest)).
  cbv zeta. now rewrite Nat.Div0.mod_0_l.
Qed.

Lemma mqtt_dying_fire (w : mqtt.World) :
  mqtt.pc (mqtt.sup w) = Waiting -> tomb.Dying (mqtt.tomb (mqtt.cli w)) = true ->
  exists w', mqtt.step (mqtt.ASup (Fire 0%Q 0)) w = Some w' /\
             tomb.dead (mqtt.tomb (mqtt.cli w')) = true.
Proof.
  intros P D. unfold mqtt.step, mqtt.connecting_step. rewrite P, D, select_first.
  eexists. split; reflexivity.
Qed.

Lemma mqtt_refused (w : mqtt.World) :
  mqtt.pc (mqtt.sup w) = Connecting ->
  exists w', mqtt.step (mqtt.ASup (Connect 0%Q (session.Refused ""))) w = Some w' /\
             mqtt.pc (mqtt.sup w') = Waiting /\
             mqtt.tomb (mqtt.cli w') = mqtt.tomb (mqtt.cli w).
Proof.
  intros P. unfold mqtt.step, mqtt.connecting_step. rewrite P.
  unfold mqtt.loop_head. cbn [mqtt.next mqtt.strm mqtt.timer mqtt.curr mqtt.bf].
  destruct (mqtt.next (mqtt.sup w)); eexists; (split; [reflexivity|split; reflexivity]).
Qed.

Lemma mqtt_stop (w : mqtt.World) :
  mqtt.pc (mqtt.sup w) = Sending ->
  exists w', mqtt.step (mqtt.ASup (Session 0%Q session.Stop)) w = Some w' /\
             mqtt.pc (mqtt.sup w') = Waiting /\
             mqtt.tomb (mqtt.cli w') = mqtt.tomb (mqtt.cli w).
Proof.
  intros P. unfold mqtt.step, mqtt.connecting_step. rewrite P.
  unfold session.sending_step.
  destruct (session.current (mqtt.curr (mqtt.sup w)) (mqtt.cache (mqtt.cli w))) as [cur q].
  unfold mqtt.loop_head. cbn [mqtt.next mqtt.strm mqtt.timer mqtt.curr mqtt.bf].
  destruct (mqtt.next (mqtt.sup w)), (mqtt.strm (mqtt.sup w));
    eexists; (split; [reflexivity|split; reflexivity]).
Qed.

Lemma mqtt_Close_can_return (w : mqtt.World) :
  (mqtt.pc (mqtt.sup w) = Stopped -> tomb.dead (mqtt.tomb (mqtt.cli w)) = true) ->
  exists acts w1 w2,
    length acts <= 2 /\
    (forall a, In a acts -> exists i, a = mqtt.ASup i) /\
    mqtt.run (mqtt.AKill :: acts) w = Some w1 /\
    mqtt.step mqtt.AWait w1 = Some w2.
Proof.
  intros Dead.
  assert (exists wk, mqtt.step mqtt.AKill w = Some wk /\
                     tomb.Dying (mqtt.tomb (mqtt.cli wk)) = true /\
                     mqtt.sup wk = mqtt.sup w /\
                     tomb.dead (mqtt.tomb (mqtt.cli wk))
                     = tomb.dead (mqtt.tomb (mqtt.cli w)))
    as (wk & EK & DK & SK & XK).
  { eexists. split; [reflexivity|]. split; [reflexivity|]. split; reflexivity. }
  assert (forall u, tomb.dead (mqtt.tomb (mqtt.cli u)) = true ->
                    exists u', mqtt.step mqtt.AWait u = Some u') as W.
  { intros u X. unfold mqtt.step, mqtt.Close_Wait, tomb.Wait. rewrite X.
    eexists. reflexivity. }
  assert (forall u, mqtt.pc (mqtt.sup u) = Waiting ->
                    tomb.Dying (mqtt.tomb (mqtt.cli u)) = true ->
                    exists u1 u2,
                      mqtt.run [mqtt.ASup (Fire 0%Q 0)] u = Some u1 /\
                      mqtt.step mqtt.AWait u1 = Some u2) as F.
  { intros u P D. destruct (mqtt_dying_fire u P D) as (u1 & E1 & X1).
    destruct (W u1 X1) as (u2 & E2).
    exists u1, u2. split; [cbn [mqtt.run]; now rewrite E1|exact E2]. }
  destruct (mqtt.pc (mqtt.sup wk)) eqn:P.
  - destruct (F wk P DK) as (u1 & u2 & E1 & E2).
    exists [mqtt.ASup (Fire 0%Q 0)], u1, u2. split; [simpl; lia|].
    split; [intros a [<-|[]]; eauto|].
    split; [cbn [mqtt.run] in *; now rewrite EK|exact E2].
  - destruct (mqtt_refused wk P) as (v & EV & PV & TV).
    rewrite <- TV in DK. destruct (F v PV DK) as (u1 & u2 & E1 & E2).
    exists [mqtt.ASup (Connect 0%Q (session.Refused "")); mqtt.ASup (Fire 0%Q 0)], u1, u2.
    split; [simpl; lia|]. split; [intros a [<-|[<-|[]]]; eauto|].
    split; [cbn [mqtt.run] in *; now rewrite EK, EV|exact E2].
  - destruct (mqtt_stop wk P) as (v & EV & PV & TV).
    rewrite <- TV in DK. destruct (F v PV DK) as (u1 & u2 & E1 & E2).
    exists [mqtt.ASup (Session 0%Q session.Stop); mqtt.ASup (Fire 0%Q 0)], u1, u2.
    split; [simpl; lia|]. split; [intros a [<-|[<-|[]]]; eauto|].
    split; [cbn [mqtt.run] in *; now rewrite EK, EV|exact E2].
  - rewrite SK in P. rewrite <- XK in Dead. destruct (W wk (Dead P)) as (u2 & E2).
    exists [], wk, u2. split; [simpl; lia|]. split; [intros a []|].
    split; [cbn [mqtt.run]; now rewrite EK|exact E2].
Qed.

Lemma link_dying_fire (w : link.World) :
  link.pc (link.sup w) = Waiting -> tomb.Dying (link.tomb (link.cli w)) = true ->
  exists w', link.step (link.ASup (Fire 0%Q 0)) w = Some w' /\
             tomb.dead (link.tomb (link.cli w')) = true.
Proof.
  intros P D. unfold link.step, link.connecting_step. rewrite P, D, select_first.
  eexists. split; reflexivity.
Qed.

Lemma link_refused (w : link.World) :
  link.pc (link.sup w) = Connecting ->
  exists w', link.step (link.ASup (Connect 0%Q (session.Refused ""))) w = Some w' /\
             link.pc (link.sup w') = Waiting /\
             link.tomb (link.cli w') = link.tomb (link.cli w).
Proof.
  intros P. unfold link.step, link.connecting_step. rewrite P.
  unfold link.loop_head. cbn [link.next link.strm link.timer link.curr link.bf].
  destruct (link.next (link.sup w)); eexists; (split; [reflexivity|split; reflexivity]).
Qed.

Lemma link_stop (w : link.World) :
  link.pc (link.sup w) = Sending ->
  exists w', link.step (link.ASup (Session 0%Q session.Stop)) w = Some w' /\
             link.pc (link.sup w') = Waiting /\
             link.tomb (link.cli w') = link.tomb (link.cli w).
Proof.
  intros P. unfold link.step, link.connecting_step. rewrite P.
  unfold session.sending_step.
  destruct (session.current (link.curr (link.sup w)) (link.cache (link.cli w))) as [cur q].
  unfold link.loop_head. cbn [link.next link.strm link.timer link.curr link.bf].
  destruct (link.next (link.sup w)), (link.strm (link.sup w));
    eexists; (split; [reflexivity|split; reflexivity]).
Qed.

Lemma link_Close_can_return (w : link.World) :
  (link.pc (link.sup w) = Stopped -> tomb.dead (link.tomb (link.cli w)) = true) ->
  exists acts w1 w2,
    length acts <= 2 /\
    (forall a, In a acts -> exists i, a = link.ASup i) /\
    link.run (link.AKill :: acts) w = Some w1 /\
    link.step link.AWait w1 = Some w2.
Proof.
  intros Dead.
  assert (exists wk, link.step link.AKill w = Some wk /\
                     tomb.Dying (link.tomb (link.cli wk)) = true /\
                     link.sup wk = link.sup w /\
                     tomb.dead (link.tomb (link.cli wk))
                     = tomb.dead (link.tomb (link.cli w)))
    as (wk & EK & DK & SK & XK).
  { eexists. split; [reflexivity|]. split; [reflexivity|]. split; reflexivity. }
  assert (forall u, tomb.dead (link.tomb (link.cli u)) = true ->
                    exists u', link.step link.AWait u = Some u') as W.
  { intros u X. unfold link.step, link.Close_Wait, tomb.Wait. rewrite X.
    eexists. reflexivity. }
  assert (forall u, link.pc (link.sup u) = Waiting ->
                    tomb.Dying (link.tomb (link.cli u)) = true ->
                    exists u1 u2,
                      link.run [link.ASup (Fire 0%Q 0)] u = Some u1 /\
                      link.step link.AWait u1 = Some u2) as F.
  { intros u P D. destruct (link_dying_fire u P D) as (u1 & E1 & X1).
    destruct (W u1 X1) as (u2 & E2).
    exists u1, u2. split; [cbn [link.run]; now rewrite E1|exact E2]. }
  destruct (link.pc (link.sup wk)) eqn:P.
  - destruct (F wk P DK) as (u1 & u2 & E1 & E2).
    exists [link.ASup (Fire 0%Q 0)], u1, u2. split; [simpl; lia|].
    split; [intros a [<-|[]]; eauto|].
    split; [cbn [link.run] in *; now rewrite EK|exact E2].
  - destruct (link_refused wk P) as (v & EV & PV & TV).
    rewrite <- TV in DK. destruct (F v PV DK) as (u1 & u2 & E1 & E2).
    exists [link.ASup (Connect 0%Q (session.Refused "")); link.ASup (Fire 0%Q 0)], u1, u2.
    split; [simpl; lia|]. split; [intros a [<-|[<-|[]]]; eauto|].
    split; [cbn [link.run] in *; now rewrite EK, EV|exact E2].
  - destruct (link_stop wk P) as (v & EV & PV & TV).
    rewrite <- TV in DK. destruct (F v PV DK) as (u1 & u2 & E1 & E2).
    exists [link.ASup (Session 0%Q session.Stop); link.ASup (Fire 0%Q 0)], u1, u2.
    split; [simpl; lia|]. split; [intros a [<-|[<-|[]]]; eauto|].
    split; [cbn [link.run] in *; now rewrite EK, EV|exact E2].
  - rewrite SK in P. rewrite <- XK in Dead. destruct (W wk (Dead P)) as (u2 & E2).
    exists [], wk, u2. split; [simpl; lia|]. split; [intros a []|].
    split; [cbn [link.run]; now rewrite EK|exact E2].
Qed.

Lemma link_run_app (xs ys : list link.Action) (u : link.World) :
  link.run (xs ++ ys) u
  = match link.run xs u with Some u1 => link.run ys u1 | None => None end.
Proof.
  revert u. induction xs as [|a xs IH]; simpl; intros u; [reflexivity|].
  destruct (link.step a u); [apply IH|reflexivity].
Qed.

(** X11: [Close] can always complete.  From any state a client can be
    in, after [Kill] at most two moves of the supervisor (the return of
    [connect()] or of the session in progress, then the dying case of its
    [select]) let [Wait] return; [tomb] and [stream.sending] are as the
    text before their modules describes them. *)
Theorem Close_can_always_return :
  (forall w : mqtt.World,
     mqtt_reachable w ->
     exists acts w',
       length acts <= 2 /\
       (forall a, In a acts -> exists i, a = mqtt.ASup i) /\
       mqtt.run (mqtt.AKill :: acts ++ [mqtt.AWait]) w = Some w' /\
       mqtt_after_Close w') /\
  (forall w : link.World,
     link_reachable w ->
     exists acts w',
       length acts <= 2 /\
       (forall a, In a acts -> exists i, a = link.ASup i) /\
       link.run (link.AKill :: acts ++ [link.AWait]) w = Some w' /\
       link_after_Close w').
Proof.
  split.
  - intros w R. pose proof (mqtt_reachable_inv w R) as I.
    destruct R as (newTLS & cc & o & w0 & before & HN & HR).
    destruct (mqtt_Close_can_return w (proj2 (mqtt_inv_dead _ _ _ I)))
      as (acts & w1 & w2 & L & A & E1 & E2).
    exists acts, w2. split; [exact L|]. split; [exact A|].
    assert (mqtt.run (mqtt.AKill :: acts ++ [mqtt.AWait]) w = Some w2) as E.
    { change (mqtt.AKill :: acts ++ [mqtt.AWait])
        with ((mqtt.AKill :: acts) ++ [mqtt.AWait]).
      rewrite mqtt_run_app, E1. cbn [mqtt.run]. now rewrite E2. }
    split; [exact E|].
    exists newTLS, cc, o, w0, (before ++ mqtt.AKill :: acts), w1, w2, [].
    split; [exact HN|]. split; [|split; [exact E2|reflexivity]].
    now rewrite mqtt_run_app, HR.
  - intros w R. pose proof (link_reachable_inv w R) as I.
    destruct R as (newTLS & dial & cc & o & w0 & before & HN & HR).
    destruct (link_Close_can_return w (proj2 (link_inv_dead _ _ _ I)))
      as (acts & w1 & w2 & L & A & E1 & E2).
    exists acts, w2. split; [exact L|]. split; [exact A|].
    assert (link.run (link.AKill :: acts ++ [link.AWait]) w = Some w2) as E.
    { change (link.AKill :: acts ++ [link.AWait])
        with ((link.AKill :: acts) ++ [link.AWait]).
      rewrite link_run_app, E1. cbn [link.run]. now rewrite E2. }
    split; [exact E|].
    exists newTLS, dial, cc, o, w0, (before ++ link.AKill :: acts), w1, w2, [].
    split; [exact HN|]. split; [|split; [exact E2|reflexivity]].
    now rewrite link_run_app, HR.
Qed.

(** A client inside [connect()]: [Close] completes. *)
Lemma Close_can_return_witness :
  exists w0, mqtt.NewClient no_tls mqtt_config None = Ok w0 /\
  exists w, mqtt.run [mqtt.ASup (Fire 0%Q 0)] w0 = Some w /\
  exists acts w',
    length acts <= 2 /\
    mqtt.run (mqtt.AKill :: acts ++ [mqtt.AWait]) w = Some w' /\
    mqtt_after_Close w'.
Proof.
  evaluate. evaluate.
  lazymatch goal with
  | |- exists acts w', _ /\ mqtt.run _ ?w = _ /\ _ =>
      assert (mqtt_reachable w) as R
        by (mqtt_reached no_tls mqtt_config (@None mqtt.Observer)
              [mqtt.ASup (Fire 0%Q 0)]);
      destruct (proj1 Close_can_always_return w R) as (acts & w' & L & _ & E & A);
      exists acts, w'; split; [exact L|split; [exact E|exact A]]
  end.
Defined.

Lemma select_two {A : Type} (rnd : nat) (a b : A) :
  select rnd [(true, a); (true, b)] = Some (match rnd mod 2 with 0 => a | _ => b end).
Proof.
  unfold select, ready. cbn [filter map fst snd length].
  pose proof (Nat.mod_upper_bound rnd 2 ltac:(lia)) as B.
  destruct (rnd mod 2) as [|[|k]]; [reflexivity|reflexivity|lia].
Qed.

(** X12: once the stop signal is given, no [Send] ever blocks again,
    whatever happens in between and however full the queue is; in package
    link the same holds of [SendContext]. *)
Theorem Send_never_blocks_once_dying :
  (forall (w w' : mqtt.World) (acts : list mqtt.Action) (rnd : nat) (pkt : mqtt.Packet),
     tomb.Dying (mqtt.tomb (mqtt.cli w)) = true ->
     mqtt.run acts w = Some w' ->
     mqtt.Send rnd (mqtt.cli w') pkt <> None) /\
  (forall (w w' : link.World) (acts : list link.Action) (rnd : nat)
          (ctx : context.Context) (msg : link.Message),
     tomb.Dying (link.tomb (link.cli w)) = true ->
     link.run acts w = Some w' ->
     link.Send rnd (link.cli w') msg <> None /\
     link.SendContext rnd (link.cli w') ctx msg <> None).
Proof.
  split.
  - intros w w' acts rnd pkt D R.
    pose proof (proj1 (mqtt_tomb_run _ _ _ R) D) as D'.
    destruct (mqtt_Send_cases rnd (mqtt.cli w') pkt) as [(_ & _ & X)|[(E & _)|(E & _)]];
      [unfold tomb.Dying in X; congruence|rewrite E; discriminate|rewrite E; discriminate].
  - intros w w' acts rnd ctx msg D R.
    pose proof (proj1 (link_tomb_run _ _ _ R) D) as D'.
    split.
    + destruct (link_Send_cases rnd (link.cli w') msg) as [(_ & _ & X)|[(E & _)|(E & _)]];
        [unfold tomb.Dying in X; congruence|rewrite E; discriminate|rewrite E; discriminate].
    + destruct (link_SendContext_cases rnd (link.cli w') ctx msg)
        as [(_ & _ & _ & X)|[(E & _)|[(E & _)|(E & _)]]];
        [unfold tomb.Dying in X; congruence|rewrite E; discriminate..].
Qed.

(** A full queue and a killed client: [Send] returns. *)
Lemma Send_never_blocks_witness :
  exists w0, mqtt.NewClient no_tls mqtt_config None = Ok w0 /\
  exists w, mqtt.run [mqtt.ASend 0 packet_A; mqtt.AKill] w0 = Some w /\
    Chan.full (mqtt.cache (mqtt.cli w)) /\
    mqtt.Send 0 (mqtt.cli w) packet_B <> None.
Proof.
  evaluate. evaluate. split; [computed|].
  lazymatch goal with
  | |- mqtt.Send _ (mqtt.cli ?w) _ <> None =>
      apply (proj1 Send_never_blocks_once_dying w w []); computed
  end.
Defined.

(** X13: the [select] of the supervisor has no priority.  When the stop
    signal is given and the timer is due at the same moment, the
    supervisor either returns or starts one more connect attempt,
    whichever case the [select] draws.  So holds for both packages. *)
Theorem due_timer_can_win_over_the_stop_signal :
  (forall (w : mqtt.World) (now : time.Time) (rnd : nat),
     mqtt.pc (mqtt.sup w) = Waiting ->
     tomb.Dying (mqtt.tomb (mqtt.cli w)) = true ->
     time.ticked now (mqtt.timer (mqtt.sup w)) = true ->
     exists w', mqtt.step (mqtt.ASup (Fire now rnd)) w = Some w' /\
       mqtt.pc (mqtt.sup w') = match rnd mod 2 with 0 => Stopped | _ => Connecting end) /\
  (forall (w : link.World) (now : time.Time) (rnd : nat),
     link.pc (link.sup w) = Waiting ->
     tomb.Dying (link.tomb (link.cli w)) = true ->
     time.ticked now (link.timer (link.sup w)) = true ->
     exists w', link.step (link.ASup (Fire now rnd)) w = Some w' /\
       link.pc (link.sup w') = match rnd mod 2 with 0 => Stopped | _ => Connecting end).
Proof.
  split.
  - intros w now rnd P D T. unfold mqtt.step, mqtt.connecting_step.
    rewrite P, D, T, select_two.
    destruct (rnd mod 2); eexists; split; reflexivity.
  - intros w now rnd P D T. unfold link.step, link.connecting_step.
    rewrite P, D, T, select_two.
    destruct (rnd mod 2); eexists; split; reflexivity.
Qed.

(** A new client killed before its supervisor ran: the timer of the first
    attempt is due, and a draw of the timer case starts a connect. *)
Lemma due_timer_witness :
  exists w0, mqtt.NewClient no_tls mqtt_config None = Ok w0 /\
  exists w, mqtt.run [mqtt.AKill] w0 = Some w /\
  exists w', mqtt.step (mqtt.ASup (Fire 0%Q 1)) w = Some w' /\
    mqtt.pc (mqtt.sup w') = Connecting.
Proof.
  evaluate. evaluate.
  lazymatch goal with
  | |- exists w', mqtt.step _ ?w = _ /\ _ =>
      destruct (proj1 due_timer_can_win_over_the_stop_signal w 0%Q 1)
        as (w' & E & P); [computed..|];
      exists w'; split; [exact E|exact P]
  end.
Defined.

(** The timer along a run. *)
Lemma mqtt_timer_step a w w' :
  mqtt.step a w = Some w' ->
  timer_set (mqtt.pc (mqtt.sup w)) (mqtt.next (mqtt.sup w)) (mqtt.timer (mqtt.sup w)) ->
  timer_set (mqtt.pc (mqtt.sup w')) (mqtt.next (mqtt.sup w')) (mqtt.timer (mqtt.sup w')).
Proof.
  assert (forall now t : Q, (time.Add now (time.Sub t now) == t)%Q) as A
    by (intros; unfold time.Add, time.Sub; ring).
  intros H T. mqtt_moves a H; unfold timer_set in *; simpl;
    repeat match goal with
           | X : _ = _ |- _ => rewrite X in T
           end;
    try exact T; try discriminate; try exact I; try congruence;
    unfold time.Reset; eauto.
Qed.

Lemma mqtt_timer_run acts : forall w w',
  mqtt.run acts w = Some w' ->
  timer_set (mqtt.pc (mqtt.sup w)) (mqtt.next (mqtt.sup w)) (mqtt.timer (mqtt.sup w)) ->
  timer_set (mqtt.pc (mqtt.sup w')) (mqtt.next (mqtt.sup w')) (mqtt.timer (mqtt.sup w')).
Proof.
  induction acts as [|a acts IH]; simpl; intros w w' H T.
  - injection H as <-. exact T.
  - destruct (mqtt.step a w) as [w1|] eqn:E; [|discriminate].
    exact (IH _ _ H (mqtt_timer_step _ _ _ E T)).
Qed.

Lemma mqtt_NewClient_timer newTLS cc o w0 :
  mqtt.NewClient newTLS cc o = Ok w0 ->
  timer_set (mqtt.pc (mqtt.sup w0)) (mqtt.next (mqtt.sup w0)) (mqtt.timer (mqtt.sup w0)).
Proof.
  unfold mqtt.NewClient, mqtt.connecting_start. intros H.
  repeat match type of H with
         | context [if ?b then _ else _] => destruct b
         | context [let (_, _) := ?x in _] => destruct x
         | context [match ?x with Some _ => _ | None => _ end] => destruct x
         end; try discriminate; injection H as <-; reflexivity.
Qed.

Lemma link_timer_step a w w' :
  link.step a w = Some w' ->
  timer_set (link.pc (link.sup w)) (link.next (link.sup w)) (link.timer (link.sup w)) ->
  timer_set (link.pc (link.sup w')) (link.next (link.sup w')) (link.timer (link.sup w')).
Proof.
  assert (forall now t : Q, (time.Add now (time.Sub t now) == t)%Q) as A
    by (intros; unfold time.Add, time.Sub; ring).
  intros H T. link_moves a H; unfold timer_set in *; simpl;
    repeat match goal with
           | X : _ = _ |- _ => rewrite X in T
           end;
    try exact T; try discriminate; try exact I; try congruence;
    unfold time.Reset; eauto.
Qed.

Lemma link_timer_run acts : forall w w',
  link.run acts w = Some w' ->
  timer_set (link.pc (link.sup w)) (link.next (link.sup w)) (link.timer (link.sup w)) ->
  timer_set (link.pc (link.sup w')) (link.next (link.sup w')) (link.timer (link.sup w')).
Proof.
  induction acts as [|a acts IH]; simpl; intros w w' H T.
  - injection H as <-. exact T.
  - destruct (link.step a w) as [w1|] eqn:E; [|discriminate].
    exact (IH _ _ H (link_timer_step _ _ _ E T)).
Qed.

Lemma link_NewClient_timer newTLS dial cc o w0 :
  link.NewClient newTLS dial cc o = Ok w0 ->
  timer_set (link.pc (link.sup w0)) (link.next (link.sup w0)) (link.timer (link.sup w0)).
Proof.
  unfold link.NewClient, link.connecting_start. intros H.
  destruct (link.NewClientConn newTLS dial cc); try discriminate.
  destruct (link.MaxCacheMessages cc <? 0)%Z; try discriminate.
  injection H as <-; reflexivity.
Qed.

(** X14: the supervisor keeps to its schedule.  A connect attempt sets
    [next] to its own start plus the delay of the backoff policy, and an
    attempt that follows another never starts before the [next] of the
    one before, however the attempt in between ended.  So holds for both
    packages. *)
Theorem reconnect_waits_for_next :
  (forall (w w' : mqtt.World) (now : time.Time) (rnd : nat),
     mqtt_reachable w ->
     mqtt.step (mqtt.ASup (Fire now rnd)) w = Some w' ->
     mqtt.pc (mqtt.sup w') = Connecting ->
     mqtt.next (mqtt.sup w')
       = Some (time.Add now (fst (backoff.Duration (mqtt.bf (mqtt.sup w))))) /\
     (forall t, mqtt.next (mqtt.sup w) = Some t -> (t <= now)%Q)) /\
  (forall (w w' : link.World) (now : time.Time) (rnd : nat),
     link_reachable w ->
     link.step (link.ASup (Fire now rnd)) w = Some w' ->
     link.pc (link.sup w') = Connecting ->
     link.next (link.sup w')
       = Some (time.Add now (fst (backoff.Duration (link.bf (link.sup w))))) /\
     (forall t, link.next (link.sup w) = Some t -> (t <= now)%Q)).
Proof.
  split.
  - intros w w' now rnd (newTLS & cc & o & w0 & acts & HN & HR) H P.
    pose proof (mqtt_timer_run _ _ _ HR (mqtt_NewClient_timer _ _ _ _ HN)) as T.
    unfold mqtt.step, mqtt.connecting_step in H.
    destruct (mqtt.pc (mqtt.sup w)) eqn:PW; try discriminate.
    destruct (select _ _) as [[|]|] eqn:Sel; try discriminate;
      injection H as <-; [discriminate P|]. simpl.
    split; [reflexivity|]. intros t N.
    apply select_In in Sel. destruct Sel as [X|[X|[]]]; [discriminate X|].
    injection X as X. unfold timer_set in T. rewrite N in T.
    destruct T as (t' & T & Q). rewrite T in X. simpl in X.
    apply Qle_bool_iff in X. now rewrite <- Q.
  - intros w w' now rnd (newTLS & dial & cc & o & w0 & acts & HN & HR) H P.
    pose proof (link_timer_run _ _ _ HR (link_NewClient_timer _ _ _ _ _ HN)) as T.
    unfold link.step, link.connecting_step in H.
    destruct (link.pc (link.sup w)) eqn:PW; try discriminate.
    destruct (select _ _) as [[|]|] eqn:Sel; try discriminate;
      injection H as <-; [discriminate P|]. simpl.
    split; [reflexivity|]. intros t N.
    apply select_In in Sel. destruct Sel as [X|[X|[]]]; [discriminate X|].
    injection X as X. unfold timer_set in T. rewrite N in T.
    destruct T as (t' & T & Q). rewrite T in X. simpl in X.
    apply Qle_bool_iff in X. now rewrite <- Q.
Qed.

(** After a refused first attempt at 0 the second attempt starts at 2 s,
    past the [next] of the first (1 s). *)
Lemma reconnect_waits_witness :
  exists w0, mqtt.NewClient no_tls mqtt_config None = Ok w0 /\
  exists w, mqtt.run [mqtt.ASup (Fire 0%Q 0);
                      mqtt.ASup (Connect 0%Q (session.Refused "refused"))] w0 = Some w /\
  exists w', mqtt.step (mqtt.ASup (Fire 2000000000%Q 0)) w = Some w' /\
    mqtt.next (mqtt.sup w')
      = Some (time.Add 2000000000%Q (fst (backoff.Duration (mqtt.bf (mqtt.sup w))))) /\
    (forall t, mqtt.next (mqtt.sup w) = Some t -> (t <= 2000000000)%Q).
Proof.
  evaluate. evaluate.
  lazymatch goal with
  | |- exists w', mqtt.step ?a ?w = Some w' /\ _ =>
      let r := eval vm_compute in (mqtt.step a w) in
      lazymatch r with
      | Some ?v =>
          exists v; split; [computed|];
          apply (proj1 reconnect_waits_for_next w v 2000000000%Q 0);
          [ mqtt_reached no_tls mqtt_config (@None mqtt.Observer)
              [mqtt.ASup (Fire 0%Q 0);
               mqtt.ASup (Connect 0%Q (session.Refused "refused"))]
          | computed | computed ]
      end
  end.
Defined.

(** The trace of a client without observer. *)
Lemma mqtt_quiet_step a w w' :
  mqtt.step a w = Some w' ->
  mqtt.obs (mqtt.cli w) = None ->
  mqtt.obs (mqtt.cli w') = None /\
  (Forall mqtt_quiet (mqtt.trace w) -> Forall mqtt_quiet (mqtt.trace w')).
Proof.
  intros H O. mqtt_moves a H; simpl; (split; [exact O|]); try (intros F; exact F);
    intros F; apply Forall_app; (split; [exact F|]);
    unfold mqtt.onError; simpl; try rewrite O; repeat constructor.
Qed.

Lemma mqtt_quiet_run acts : forall w w',
  mqtt.run acts w = Some w' ->
  mqtt.obs (mqtt.cli w) = None ->
  Forall mqtt_quiet (mqtt.trace w) -> Forall mqtt_quiet (mqtt.trace w').
Proof.
  induction acts as [|a acts IH]; simpl; intros w w' H O F.
  - injection H as <-. exact F.
  - destruct (mqtt.step a w) as [w1|] eqn:E; [|discriminate].
    destruct (mqtt_quiet_step _ _ _ E O) as [O1 F1]. exact (IH _ _ H O1 (F1 F)).
Qed.

Lemma link_quiet_step a w w' :
  link.step a w = Some w' ->
  link.obs (link.cli w) = None ->
  link.obs (link.cli w') = None /\
  (Forall link_quiet (link.trace w) -> Forall link_quiet (link.trace w')).
Proof.
  intros H O. link_moves a H; simpl; (split; [exact O|]); try (intros F; exact F);
    intros F; apply Forall_app; (split; [exact F|]);
    unfold link.onErr; simpl; try rewrite O; repeat constructor.
Qed.

Lemma link_quiet_run acts : forall w w',
  link.run acts w = Some w' ->
  link.obs (link.cli w) = None ->
  Forall link_quiet (link.trace w) -> Forall link_quiet (link.trace w').
Proof.
  induction acts as [|a acts IH]; simpl; intros w w' H O F.
  - injection H as <-. exact F.
  - destruct (link.step a w) as [w1|] eqn:E; [|discriminate].
    destruct (link_quiet_step _ _ _ E O) as [O1 F1]. exact (IH _ _ H O1 (F1 F)).
Qed.

(** X15: a client made without observer is silent about failures.
    Whatever happens to it, nothing is logged at level error and no
    callback is made: all it does outside is log at level info and close
    streams.  So holds for both packages. *)
Theorem no_observer_no_error_report :
  (forall newTLS cc w0 acts w,
     mqtt.NewClient newTLS cc None = Ok w0 ->
     mqtt.run acts w0 = Some w ->
     Forall mqtt_quiet (mqtt.trace w)) /\
  (forall newTLS dial cc w0 acts w,
     link.NewClient newTLS dial cc None = Ok w0 ->
     link.run acts w0 = Some w ->
     Forall link_quiet (link.trace w)).
Proof.
  split.
  - intros newTLS cc w0 acts w HN HR.
    apply (mqtt_quiet_run _ _ _ HR).
    + exact (mqtt_inv_obs _ _ _ (mqtt_NewClient_inv _ _ _ _ HN)).
    + unfold mqtt.NewClient, mqtt.connecting_start in HN.
      repeat match type of HN with
             | context [if ?b then _ else _] => destruct b
             | context [let (_, _) := ?x in _] => destruct x
             | context [match ?x with Some _ => _ | None => _ end] => destruct x
             end; try discriminate; injection HN as <-; repeat constructor.
  - intros newTLS dial cc w0 acts w HN HR.
    apply (link_quiet_run _ _ _ HR).
    + exact (link_inv_obs _ _ _ (link_NewClient_inv _ _ _ _ _ HN)).
    + unfold link.NewClient, link.connecting_start in HN.
      destruct (link.NewClientConn newTLS dial cc); try discriminate.
      destruct (link.MaxCacheMessages cc <? 0)%Z; try discriminate.
      injection HN as <-; repeat constructor.
Qed.

(** Five refused connects of a client without observer leave no error in
    the trace. *)
Lemma no_observer_witness :
  exists w0, mqtt.NewClient no_tls mqtt_config None = Ok w0 /\
  exists w, mqtt.run (mqtt_failures five_failures) w0 = Some w /\
    Forall mqtt_quiet (mqtt.trace w).
Proof.
  evaluate.
  lazymatch goal with
  | |- exists w, mqtt.run ?acts ?w0 = Some w /\ _ =>
      let r := eval vm_compute in (mqtt.run acts w0) in
      lazymatch r with
      | Some ?v =>
          exists v; split; [computed|];
          apply (proj1 no_observer_no_error_report no_tls mqtt_config w0 acts v);
          computed
      end
  end.
Defined.

Lemma pending_send {M : Type} (b : bool) (curr : option M) (q : Chan.t M) (v : M) :
  chan_ok b curr q -> pending curr (Chan.send v q) = pending curr q ++ [v].
Proof.
  intros (_ & R & _). unfold pending, Chan.send.
  destruct (Chan.recvq q) eqn:E.
  - destruct (R eq_refl) as (_ & -> & -> & ->). reflexivity.
  - simpl. now rewrite !app_assoc.
Qed.

Lemma pending_sending_step {M : Type} (b : bool) (ev : session.Event)
    (curr : option M) (q : Chan.t M) :
  chan_ok b curr q ->
  match session.sending_step ev curr q with
  | Some (session.Running curr' q' wrote) => wrote ++ pending curr' q' = pending curr q
  | Some (session.Returned curr' q') => pending curr' q' = pending curr q
  | None => True
  end.
Proof.
  intros (_ & _ & Hd). destruct q as [buf cap recvq handed].
  unfold session.sending_step, session.current, Chan.take, Chan.recv, pending in *.
  cbn [Chan.handed Chan.buf Chan.recvq Chan.cap] in *.
  destruct handed as [h|].
  - assert (curr = None) as -> by (apply Hd; discriminate).
    destruct ev; reflexivity.
  - destruct ev, curr as [m|]; try exact I; try reflexivity.
    destruct buf as [|x rest]; [destruct recvq|]; try exact I; reflexivity.
Qed.

Lemma mqtt_pending_sup b i c s c' s' evs wrote :
  chan_ok b (mqtt.curr s) (mqtt.cache c) ->
  mqtt.connecting_step i c s = Some (c', s', evs, wrote) ->
  wrote ++ pending (mqtt.curr s') (mqtt.cache c') = pending (mqtt.curr s) (mqtt.cache c).
Proof.
  intros K H. unfold mqtt.connecting_step in H.
  destruct (mqtt.pc s), i as [now rnd|now r|now ev]; try discriminate H.
  - destruct (select _ _) as [[|]|]; try discriminate H;
      simpl in H; injection H as <- <- _ <-; reflexivity.
  - destruct r as [x|e].
    + injection H as <- <- _ <-. reflexivity.
    + unfold mqtt.loop_head in H. simpl in H.
      destruct (mqtt.next s); simpl in H; injection H as <- <- _ <-; reflexivity.
  - pose proof (pending_sending_step b ev _ _ K) as L.
    destruct (session.sending_step ev (mqtt.curr s) (mqtt.cache c))
      as [[curr' q' wr|curr' q']|]; try discriminate H.
    + injection H as <- <- _ <-. exact L.
    + unfold mqtt.loop_head in H. simpl in H.
      destruct (mqtt.next s), (mqtt.strm s); simpl in H;
        injection H as <- <- _ <-; exact L.
Qed.

Lemma mqtt_pending_Send b rnd c pkt curr :
  chan_ok b curr (mqtt.cache c) ->
  match mqtt.Send rnd c pkt with
  | Some (c', err) =>
      pending curr (mqtt.cache c')
      = pending curr (mqtt.cache c)
        ++ (if returned_nil (mqtt.Send rnd c pkt) then [pkt] else [])
  | None => True
  end.
Proof.
  intros K.
  destruct (mqtt_Send_cases rnd c pkt) as [(E & _)|[(E & _)|(E & _)]]; rewrite E; simpl; auto.
  - apply (pending_send b), K.
  - now rewrite app_nil_r.
Qed.

Lemma mqtt_stored_step cc o a w w' :
  mqtt_inv cc o w ->
  mqtt.step a w = Some w' ->
  mqtt.wire w' ++ pending (mqtt.curr (mqtt.sup w')) (mqtt.cache (mqtt.cli w'))
  = (mqtt.wire w ++ pending (mqtt.curr (mqtt.sup w)) (mqtt.cache (mqtt.cli w)))
    ++ mqtt_accepted_by a w.
Proof.
  intros I H. pose proof (mqtt_inv_chan _ _ _ I) as K.
  destruct a as [rnd pkt|rnd qos topic payload pid retain dup|rnd s| | |i];
    unfold mqtt.step in H; unfold mqtt_accepted_by.
  - pose proof (mqtt_pending_Send _ rnd (mqtt.cli w) pkt _ K) as L.
    destruct (mqtt.Send rnd (mqtt.cli w) pkt) as [[c' err]|]; [|discriminate H].
    injection H as <-. simpl. now rewrite L, app_assoc.
  - unfold mqtt.Publish in *.
    destruct (mqtt.Publish_packet (mqtt.cli w) qos topic payload pid retain dup)
      as [p ids']. cbn [fst].
    pose proof (mqtt_pending_Send _ rnd (mqtt.set_ids ids' (mqtt.cli w))
                  (mqtt.PktPublish p) _ K) as L.
    destruct (mqtt.Send rnd (mqtt.set_ids ids' (mqtt.cli w)) (mqtt.PktPublish p))
      as [[c' err]|]; [|discriminate H].
    injection H as <-. simpl in *. now rewrite L, app_assoc.
  - unfold mqtt.Subscribe in *.
    destruct (mqtt.Subscribe_packet (mqtt.cli w) s) as [p ids']. cbn [fst].
    pose proof (mqtt_pending_Send _ rnd (mqtt.set_ids ids' (mqtt.cli w))
                  (mqtt.PktSubscribe p) _ K) as L.
    destruct (mqtt.Send rnd (mqtt.set_ids ids' (mqtt.cli w)) (mqtt.PktSubscribe p))
      as [[c' err]|]; [|discriminate H].
    injection H as <-. simpl in *. now rewrite L, app_assoc.
  - simpl in H. injection H as <-. simpl. now rewrite app_nil_r.
  - destruct (mqtt.Close_Wait (mqtt.cli w)) as [[err evs]|]; [|discriminate H].
    injection H as <-. simpl. now rewrite app_nil_r.
  - destruct (mqtt.connecting_step i (mqtt.cli w) (mqtt.sup w))
      as [[[[c' s'] evs] wrote]|] eqn:E; [|discriminate H].
    injection H as <-. simpl. rewrite app_nil_r, <- app_assoc.
    f_equal. exact (mqtt_pending_sup _ _ _ _ _ _ _ _ K E).
Qed.

Lemma link_pending_sup b i c s c' s' evs wrote :
  chan_ok b (link.curr s) (link.cache c) ->
  link.connecting_step i c s = Some (c', s', evs, wrote) ->
  wrote ++ pending (link.curr s') (link.cache c') = pending (link.curr s) (link.cache c).
Proof.
  intros K H. unfold link.connecting_step in H.
  destruct (link.pc s), i as [now rnd|now r|now ev]; try discriminate H.
  - destruct (select _ _) as [[|]|]; try discriminate H;
      simpl in H; injection H as <- <- _ <-; reflexivity.
  - destruct r as [x|e].
    + injection H as <- <- _ <-. reflexivity.
    + unfold link.loop_head in H. simpl in H.
      destruct (link.next s); simpl in H; injection H as <- <- _ <-; reflexivity.
  - pose proof (pending_sending_step b ev _ _ K) as L.
    destruct (session.sending_step ev (link.curr s) (link.cache c))
      as [[curr' q' wr|curr' q']|]; try discriminate H.
    + injection H as <- <- _ <-. exact L.
    + unfold link.loop_head in H. simpl in H.
      destruct (link.next s), (link.strm s); simpl in H;
        injection H as <- <- _ <-; exact L.
Qed.

Lemma link_stored_step cc o a w w' :
  link_inv cc o w ->
  link.step a w = Some w' ->
  link.wire w' ++ pending (link.curr (link.sup w')) (link.cache (link.cli w'))
  = (link.wire w ++ pending (link.curr (link.sup w)) (link.cache (link.cli w)))
    ++ link_accepted_by a w.
Proof.
  intros I H. pose proof (link_inv_chan _ _ _ I) as K.
  destruct a as [rnd msg|rnd ctx msg| | |i];
    unfold link.step in H; unfold link_accepted_by.
  - destruct (link_Send_cases rnd (link.cli w) msg) as [(E & _)|[(E & _)|(E & _)]];
      rewrite E in *; try discriminate H; injection H as <-; simpl.
    + now rewrite (pending_send _ _ _ _ K), app_assoc.
    + now rewrite app_nil_r.
  - destruct (link_SendContext_cases rnd (link.cli w) ctx msg)
      as [(E & _)|[(E & _)|[(E & D)|(E & _)]]];
      rewrite E in *; try discriminate H; injection H as <-; simpl.
    + now rewrite (pending_send _ _ _ _ K), app_assoc.
    + unfold context.Done in D. destruct (context.Err ctx); [|discriminate D].
      now rewrite app_nil_r.
    + now rewrite app_nil_r.
  - simpl in H. injection H as <-. simpl. now rewrite app_nil_r.
  - destruct (link.Close_Wait (link.cli w)) as [[[c' err] evs]|] eqn:E; [|discriminate H].
    injection H as <-. simpl. rewrite app_nil_r.
    unfold link.Close_Wait in E. destruct (tomb.Wait _); [|discriminate E].
    injection E as <- _ _. reflexivity.
  - destruct (link.connecting_step i (link.cli w) (link.sup w))
      as [[[[c' s'] evs] wrote]|] eqn:E; [|discriminate H].
    injection H as <-. simpl. rewrite app_nil_r, <- app_assoc.
    f_equal. exact (link_pending_sup _ _ _ _ _ _ _ _ K E).
Qed.

(** X16: nothing is lost, written twice or reordered.  At every moment
    the messages written to streams so far, followed by the one in flight
    and by those in the queue, are the messages that the calls of [Send]
    (and [Publish], [Subscribe], [SendContext]) returned [nil] for, in
    the order of those calls: across failed writes, reconnects and
    [Close].  [stream.sending] is as the text before its module describes
    it.  So holds for both packages. *)
Theorem accepted_messages_are_kept_in_order :
  (forall newTLS cc o w0 acts w,
     mqtt.NewClient newTLS cc o = Ok w0 ->
     mqtt.run acts w0 = Some w ->
     mqtt.wire w ++ pending (mqtt.curr (mqtt.sup w)) (mqtt.cache (mqtt.cli w))
     = mqtt_accepted acts w0) /\
  (forall newTLS dial cc o w0 acts w,
     link.NewClient newTLS dial cc o = Ok w0 ->
     link.run acts w0 = Some w ->
     link.wire w ++ pending (link.curr (link.sup w)) (link.cache (link.cli w))
     = link_accepted acts w0).
Proof.
  split.
  - intros newTLS cc o w0 acts w HN HR.
    pose proof (mqtt_NewClient_inv _ _ _ _ HN) as I.
    assert (mqtt.wire w0 ++ pending (mqtt.curr (mqtt.sup w0)) (mqtt.cache (mqtt.cli w0))
            = []) as Z.
    { unfold mqtt.NewClient, mqtt.connecting_start in HN.
      repeat match type of HN with
             | context [if ?b then _ else _] => destruct b
             | context [let (_, _) := ?x in _] => destruct x
             | context [match ?x with Some _ => _ | None => _ end] => destruct x
             end; try discriminate; injection HN as <-; reflexivity. }
    enough (forall acts u w,
              mqtt_inv cc o u -> mqtt.run acts u = Some w ->
              mqtt.wire w ++ pending (mqtt.curr (mqtt.sup w)) (mqtt.cache (mqtt.cli w))
              = (mqtt.wire u ++ pending (mqtt.curr (mqtt.sup u)) (mqtt.cache (mqtt.cli u)))
                ++ mqtt_accepted acts u) as G
      by (rewrite (G acts w0 w I HR), Z; reflexivity).
    clear. induction acts as [|a acts IH]; intros u w I H; cbn [mqtt.run mqtt_accepted] in *.
    + injection H as <-. now rewrite app_nil_r.
    + destruct (mqtt.step a u) as [u1|] eqn:E; [|discriminate].
      rewrite (IH _ _ (mqtt_inv_step _ _ _ _ _ I E) H), (mqtt_stored_step _ _ _ _ _ I E).
      now rewrite app_assoc.
  - intros newTLS dial cc o w0 acts w HN HR.
    pose proof (link_NewClient_inv _ _ _ _ _ HN) as I.
    assert (link.wire w0 ++ pending (link.curr (link.sup w0)) (link.cache (link.cli w0))
            = []) as Z.
    { unfold link.NewClient, link.connecting_start in HN.
      destruct (link.NewClientConn newTLS dial cc); try discriminate.
      destruct (link.MaxCacheMessages cc <? 0)%Z; try discriminate.
      injection HN as <-; reflexivity. }
    enough (forall acts u w,
              link_inv cc o u -> link.run acts u = Some w ->
              link.wire w ++ pending (link.curr (link.sup w)) (link.cache (link.cli w))
              = (link.wire u ++ pending (link.curr (link.sup u)) (link.cache (link.cli u)))
                ++ link_accepted acts u) as G
      by (rewrite (G acts w0 w I HR), Z; reflexivity).
    clear. induction acts as [|a acts IH]; intros u w I H; cbn [link.run link_accepted] in *.
    + injection H as <-. now rewrite app_nil_r.
    + destruct (link.step a u) as [u1|] eqn:E; [|discriminate].
      rewrite (IH _ _ (link_inv_step _ _ _ _ _ I E) H), (link_stored_step _ _ _ _ _ I E).
      now rewrite app_assoc.
Qed.

(** Two packets, a failed write, a reconnect: both are written, once, in
    the order they were sent. *)
Lemma accepted_messages_witness :
  exists w0, mqtt.NewClient no_tls mqtt_config None = Ok w0 /\
  exists w, mqtt.run (mqtt_first_session ++ mqtt_second_session) w0 = Some w /\
    mqtt.wire w ++ pending (mqtt.curr (mqtt.sup w)) (mqtt.cache (mqtt.cli w))
    = mqtt_accepted (mqtt_first_session ++ mqtt_second_session) w0 /\
    mqtt.wire w = [packet_A; packet_B].
Proof.
  evaluate.
  lazymatch goal with
  | |- exists w, mqtt.run ?acts ?w0 = Some w /\ _ =>
      let r := eval vm_compute in (mqtt.run acts w0) in
      lazymatch r with
      | Some ?v =>
          exists v; split; [computed|]; split;
          [ apply (proj1 accepted_messages_are_kept_in_order
                     no_tls mqtt_config None w0 acts v); computed
          | computed ]
      end
  end.
Defined.
